(** * httpyac-ui: the synchronisation core, embedded in Rocq

    The development follows the TypeScript sources:
    - [HttpGenerator] (generate, buildUrl, generateBody),
    - [CollectionParser] (parseHttpText, detectBodyType, parseFolder,
      parseHttpFile, parseCollectionTree),
    - [FileSyncService] (saveRequest, writeRequest, onFileChanged).

    Strings.  A JavaScript string is modelled as a Rocq [string], read as the
    UTF-8 bytes of the text.  White space and line terminators are those of
    ECMAScript, in their UTF-8 form, and the query-string parser decodes
    UTF-8 as the platform does.  Case mapping leaves a byte outside ASCII
    as it is: the code lower-cases a text only to compare it with, or to
    search it for, literals in ASCII letters, and matches method names
    under the [i] flag, and neither can tell this mapping from the full
    one (no character outside ASCII lower-cases to letters that complete
    one of these literals, and the [i] flag never lets a character outside
    ASCII match an ASCII one).

    Platform.  What [vscode.Uri] and [path] of Node do with a location
    (printing with percent-encoding, the file-system path, joining,
    [dirname]) belongs to the platform: the development takes these
    functions as parameters (class [Platform]), as it does with
    [JSON.parse] and [JSON.stringify]. *)

From Stdlib Require Import Ascii String ZArith Lia Bool List Permutation.
From stdpp Require Import base gmap strings list.
Import ListNotations.

Set Warnings "-register-all".

(** ** JavaScript string primitives *)

Module JS.

(** [String.prototype.trim] and the regular expression class [\s] take
    WhiteSpace and LineTerminator of ECMAScript: TAB, LF, VT, FF, CR, SP,
    U+00A0, U+1680, U+2000 to U+200A, U+2028, U+2029, U+202F, U+205F, U+3000
    and U+FEFF.  In UTF-8 the first six are one byte ([isSpace]), U+00A0 is
    the two bytes C2 A0 ([isSpace2]) and the others are three bytes
    ([isSpace3]). *)
Definition isSpace (c : ascii) : bool :=
  existsb (Ascii.eqb c) ["009"; "010"; "011"; "012"; "013"; " "]%char.

Definition isSpace2 (c d : ascii) : bool :=
  Ascii.eqb c "194"%char && Ascii.eqb d "160"%char.

Definition isSpace3 (c d e : ascii) : bool :=
  let n := nat_of_ascii e in
  (* U+1680 *)
  Ascii.eqb c "225"%char && Ascii.eqb d "154"%char && Ascii.eqb e "128"%char
  (* U+2000 to U+200A, U+2028, U+2029, U+202F *)
  || Ascii.eqb c "226"%char && Ascii.eqb d "128"%char
     && ((128 <=? n)%nat && (n <=? 138)%nat || (n =? 168)%nat || (n =? 169)%nat
         || (n =? 175)%nat)
  (* U+205F *)
  || Ascii.eqb c "226"%char && Ascii.eqb d "129"%char && Ascii.eqb e "159"%char
  (* U+3000 *)
  || Ascii.eqb c "227"%char && Ascii.eqb d "128"%char && Ascii.eqb e "128"%char
  (* U+FEFF *)
  || Ascii.eqb c "239"%char && Ascii.eqb d "187"%char && Ascii.eqb e "191"%char.

(** The text behind the white-space character at the start of [s], when
    [s] starts with one. *)
Definition afterSpace (s : string) : option string :=
  match s with
  | String c r =>
      if isSpace c then Some r
      else match r with
           | String d r2 =>
               if isSpace2 c d then Some r2
               else match r2 with
                    | String e r3 => if isSpace3 c d e then Some r3 else None
                    | EmptyString => None
                    end
           | EmptyString => None
           end
  | EmptyString => None
  end.

(** Line terminators, which the regular expression [.] refuses: LF, CR, and
    U+2028 and U+2029 (E2 80 A8 and E2 80 A9). *)
Definition isLineTerminator (c : ascii) : bool :=
  Ascii.eqb c "010"%char || Ascii.eqb c "013"%char.

Definition isLineTerminator3 (c d e : ascii) : bool :=
  Ascii.eqb c "226"%char && Ascii.eqb d "128"%char
  && (Ascii.eqb e "168"%char || Ascii.eqb e "169"%char).

(** No line terminator in [s]: every character of [s] matches [.]. *)
Fixpoint noLineTerminator (s : string) : bool :=
  match s with
  | EmptyString => true
  | String c r =>
      negb (isLineTerminator c)
      && negb (match r with
               | String d (String e _) => isLineTerminator3 c d e
               | _ => false
               end)
      && noLineTerminator r
  end.

(** The line feed, as a character and as the separator string ['\n']. *)
Definition LF : ascii := "010"%char.
Definition nl : string := String LF EmptyString.

Definition isEmpty (s : string) : bool :=
  match s with EmptyString => true | String _ _ => false end.

(** Truthiness of a string value: the empty string is falsy. *)
Definition truthy (s : string) : bool := negb (isEmpty s).

(** [s.trimStart()]: the white-space characters at the start are dropped. *)
Fixpoint trimStart (s : string) : string :=
  match s with
  | EmptyString => EmptyString
  | String c r =>
      if isSpace c then trimStart r
      else match r with
           | String d r2 =>
               if isSpace2 c d then trimStart r2
               else match r2 with
                    | String e r3 => if isSpace3 c d e then trimStart r3 else s
                    | EmptyString => s
                    end
           | EmptyString => s
           end
  end.

(** Only white space. *)
Definition blank (s : string) : bool := isEmpty (trimStart s).

(** [s.trimEnd()]: the text up to the white space that [s] ends with. *)
Fixpoint trimEnd (s : string) : string :=
  match s with
  | EmptyString => EmptyString
  | String c r => if blank s then EmptyString else String c (trimEnd r)
  end.

(** [s.trim()] *)
Definition trim (s : string) : string := trimEnd (trimStart s).

(** [s.startsWith(p)] *)
Fixpoint startsWith (p s : string) : bool :=
  match p, s with
  | EmptyString, _ => true
  | String a p', String b s' => Ascii.eqb a b && startsWith p' s'
  | String _ _, EmptyString => false
  end.

(** [s.includes(p)] *)
Fixpoint includes (p s : string) : bool :=
  startsWith p s ||
  match s with
  | EmptyString => false
  | String _ s' => includes p s'
  end.

(** [s.endsWith(p)] *)
Fixpoint endsWith (p s : string) : bool :=
  String.eqb p s ||
  match s with
  | EmptyString => false
  | String _ s' => endsWith p s'
  end.

(** [s.slice(n)] for [0 <= n] *)
Fixpoint slice (n : nat) (s : string) : string :=
  match n, s with
  | O, _ => s
  | S n', String _ r => slice n' r
  | S _, EmptyString => EmptyString
  end.

(** [s.split(c)] for a one-character separator; never the empty list. *)
Fixpoint split (c : ascii) (s : string) : list string :=
  match s with
  | EmptyString => [EmptyString]
  | String a r =>
      if Ascii.eqb a c then EmptyString :: split c r
      else match split c r with
           | [] => [String a EmptyString]
           | x :: xs => String a x :: xs
           end
  end.

(** [ls.join(sep)] *)
Fixpoint join (sep : string) (ls : list string) : string :=
  match ls with
  | [] => EmptyString
  | [x] => x
  | x :: xs => x +:+ sep +:+ join sep xs
  end.

(** The pair [(s.slice(0, i), s.slice(i + 1))] for [i = s.indexOf(c)], when
    [c] occurs in [s]. *)
Fixpoint cut (c : ascii) (s : string) : option (string * string) :=
  match s with
  | EmptyString => None
  | String a r =>
      if Ascii.eqb a c then Some (EmptyString, r)
      else match cut c r with
           | Some (x, y) => Some (String a x, y)
           | None => None
           end
  end.

Definition isUpper (c : ascii) : bool :=
  (65 <=? nat_of_ascii c)%nat && (nat_of_ascii c <=? 90)%nat.
Definition isLower (c : ascii) : bool :=
  (97 <=? nat_of_ascii c)%nat && (nat_of_ascii c <=? 122)%nat.
Definition isDigit (c : ascii) : bool :=
  (48 <=? nat_of_ascii c)%nat && (nat_of_ascii c <=? 57)%nat.

Definition lowerChar (c : ascii) : ascii :=
  if isUpper c then ascii_of_nat (nat_of_ascii c + 32) else c.
Definition upperChar (c : ascii) : ascii :=
  if isLower c then ascii_of_nat (nat_of_ascii c - 32) else c.

Fixpoint mapChars (f : ascii -> ascii) (s : string) : string :=
  match s with
  | EmptyString => EmptyString
  | String c r => String (f c) (mapChars f r)
  end.

(** [s.toLowerCase()], [s.toUpperCase()] *)
Definition toLowerCase : string -> string := mapChars lowerChar.
Definition toUpperCase : string -> string := mapChars upperChar.

(** [l.indexOf(x)]: the first position of [x], or [-1]. *)
Fixpoint indexOf (x : string) (l : list string) : Z :=
  match l with
  | [] => (-1)%Z
  | y :: l' =>
      if String.eqb y x then 0%Z
      else let i := indexOf x l' in
           if (i =? -1)%Z then (-1)%Z else (i + 1)%Z
  end.

(** [l.sort(cmp)].  The sort of ECMAScript is stable, and for a comparator
    that is a consistent order its result is the one stable sorted
    arrangement; inserting each element, last to first, before the first
    element that it does not follow computes that arrangement. *)
Fixpoint insertBy {A} (cmp : A -> A -> Z) (x : A) (l : list A) : list A :=
  match l with
  | [] => [x]
  | y :: l' => if (cmp x y <=? 0)%Z then x :: l else y :: insertBy cmp x l'
  end.

Definition sort {A} (cmp : A -> A -> Z) (l : list A) : list A :=
  fold_right (insertBy cmp) [] l.

End JS.

Export JS.

(** ** Data model (the declarations of [types.ts], as the code uses them) *)

Inductive HttpMethod :=
  GET | POST | PUT | DELETE | PATCH | HEAD | OPTIONS | CONNECT | TRACE.

Definition methodName (m : HttpMethod) : string :=
  match m with
  | GET => "GET" | POST => "POST" | PUT => "PUT" | DELETE => "DELETE"
  | PATCH => "PATCH" | HEAD => "HEAD" | OPTIONS => "OPTIONS"
  | CONNECT => "CONNECT" | TRACE => "TRACE"
  end.

Record RequestHeader := mkHeader
  { h_key : string; h_value : string; h_enabled : bool }.

Record QueryParam := mkParam
  { p_key : string; p_value : string; p_enabled : bool }.

Record FormDataEntry := mkFormData
  { f_key : string; f_value : string; f_enabled : bool }.

Record GraphQLBody := mkGraphQL
  { query : string; variables : option string }.

Inductive BodyType :=
  BodyNone | BodyJson | BodyForm | BodyFormData | BodyRaw | BodyBinary
| BodyGraphql.

(** [RequestBody]: a type tag and the optional payload fields. *)
Record RequestBody := mkBody
  { body_type : BodyType;
    content : option string;
    formData : option (list FormDataEntry);
    graphql : option GraphQLBody }.

(** A [vscode.Uri]: its five components. *)
Record Uri := mkUri
  { uri_scheme : string;
    uri_authority : string;
    uri_path : string;
    uri_query : string;
    uri_fragment : string }.

(** The functions of the platform on locations: [uri.toString()],
    [uri.fsPath], [vscode.Uri.file(path)], [vscode.Uri.joinPath(uri, name)]
    and [path.dirname(p)].  The code calls them and relies on nothing about
    their results; so does the development. *)
Class Platform := mkPlatform
  { Uri_toString : Uri -> string;
    fsPath : Uri -> string;
    Uri_file : string -> Uri;
    joinPath : Uri -> string -> Uri;
    dirname : string -> string }.

(** What a [fileUri] field can hold: a live [vscode.Uri], or the plain
    record left of one after it crossed the webview boundary. *)
Inductive UriRef :=
| LiveUri (u : Uri)
| PlainUri (plain_fsPath plain_path : option string).

Record UIRequest := mkRequest
  { id : string;
    name : string;
    description : option string;
    tags : option (list string);
    method : HttpMethod;
    url : string;
    headers : list RequestHeader;
    queryParams : list QueryParam;
    body : RequestBody;
    preRequest : option string;
    tests : option string;
    fileUri : option UriRef }.

(** Truthiness of an optional string ([undefined] and [''] are falsy). *)
Definition truthyOpt (o : option string) : bool :=
  match o with Some s => truthy s | None => false end.

(** [o || ''] *)
Definition orEmpty (o : option string) : string :=
  match o with Some s => s | None => EmptyString end.

(** ** Platform functions for URLs *)

Module URL.

(** The characters [encodeURIComponent] leaves alone. *)
Definition unreserved (c : ascii) : bool :=
  isUpper c || isLower c || isDigit c ||
  existsb (Ascii.eqb c) ["-"; "_"; "."; "!"; "~"; "*"; "'"; "("; ")"]%char.

Definition hexDigit (n : nat) : ascii :=
  nth n ["0"; "1"; "2"; "3"; "4"; "5"; "6"; "7"; "8"; "9";
         "A"; "B"; "C"; "D"; "E"; "F"]%char "0"%char.

Definition hexVal (c : ascii) : option nat :=
  let n := nat_of_ascii c in
  if isDigit c then Some (n - 48)
  else if (65 <=? n)%nat && (n <=? 70)%nat then Some (n - 55)
  else if (97 <=? n)%nat && (n <=? 102)%nat then Some (n - 87)
  else None.

Definition encodeChar (c : ascii) : string :=
  if unreserved c then String c EmptyString
  else String "%" (String (hexDigit (nat_of_ascii c / 16))
                     (String (hexDigit (nat_of_ascii c mod 16)) EmptyString)).

(** [encodeURIComponent(s)]: every byte of the UTF-8 text that is not
    unreserved becomes [%XX]. *)
Fixpoint encodeURIComponent (s : string) : string :=
  match s with
  | EmptyString => EmptyString
  | String c r => encodeChar c +:+ encodeURIComponent r
  end.

(** Percent-decoding of the form-urlencoded parser: [%XX] with two hex
    digits is one byte, any other [%] stays. *)
Fixpoint percentDecode (s : string) : string :=
  match s with
  | EmptyString => EmptyString
  | String c r =>
      if Ascii.eqb c "%" then
        match r with
        | String a (String b r') =>
            match hexVal a, hexVal b with
            | Some x, Some y => String (ascii_of_nat (16 * x + y)) (percentDecode r')
            | _, _ => String c (percentDecode r)
            end
        | _ => String c (percentDecode r)
        end
      else String c (percentDecode r)
  end.

Definition plusToSpace (s : string) : string :=
  mapChars (fun c => if Ascii.eqb c "+" then " "%char else c) s.

Definition inRange (lo hi : nat) (c : ascii) : bool :=
  (lo <=? nat_of_ascii c)%nat && (nat_of_ascii c <=? hi)%nat.

(** U+FFFD, the replacement character. *)
Definition replacement : string :=
  String "239" (String "191" (String "189" EmptyString)).

(** "UTF-8 decode without BOM" of the Encoding standard, which the
    form-urlencoded parser applies to the decoded bytes: a well-formed
    sequence is kept; a byte that cannot start or continue a sequence ends
    the sequence read so far, which becomes U+FFFD, and is read again on its
    own; a sequence cut off by the end of the input becomes U+FFFD. *)
Fixpoint utf8Decode (s : string) : string :=
  match s with
  | EmptyString => EmptyString
  | String c r =>
      let n := nat_of_ascii c in
      if (n <? 128)%nat then String c (utf8Decode r)
      else if inRange 194 223 c then
        match r with
        | String d r2 =>
            if inRange 128 191 d then String c (String d (utf8Decode r2))
            else replacement +:+ utf8Decode r
        | EmptyString => replacement
        end
      else if inRange 224 239 c then
        let lo := if (n =? 224)%nat then 160 else 128 in
        let hi := if (n =? 237)%nat then 159 else 191 in
        match r with
        | String d r2 =>
            if inRange lo hi d then
              match r2 with
              | String e r3 =>
                  if inRange 128 191 e
                  then String c (String d (String e (utf8Decode r3)))
                  else replacement +:+ utf8Decode r2
              | EmptyString => replacement
              end
            else replacement +:+ utf8Decode r
        | EmptyString => replacement
        end
      else if inRange 240 244 c then
        let lo := if (n =? 240)%nat then 144 else 128 in
        let hi := if (n =? 244)%nat then 143 else 191 in
        match r with
        | String d r2 =>
            if inRange lo hi d then
              match r2 with
              | String e r3 =>
                  if inRange 128 191 e then
                    match r3 with
                    | String f r4 =>
                        if inRange 128 191 f
                        then String c (String d (String e (String f (utf8Decode r4))))
                        else replacement +:+ utf8Decode r3
                    | EmptyString => replacement
                    end
                  else replacement +:+ utf8Decode r2
              | EmptyString => replacement
              end
            else replacement +:+ utf8Decode r
        | EmptyString => replacement
        end
      else replacement +:+ utf8Decode r
  end.

(** A name or a value of a query string: [+] is a space, percent escapes
    are bytes, and the bytes are decoded as UTF-8. *)
Definition decodeComponent (s : string) : string :=
  utf8Decode (percentDecode (plusToSpace s)).

(** One [name=value] sequence of a query string. *)
Definition parsePair (seq : string) : string * string :=
  match cut "=" seq with
  | Some (n, v) => (decodeComponent n, decodeComponent v)
  | None => (decodeComponent seq, EmptyString)
  end.

(** The entries of [new URLSearchParams(init)], in order: a leading [?] is
    dropped, the rest is split on [&], empty sequences are skipped. *)
Definition URLSearchParams (init : string) : list (string * string) :=
  let s := match init with
           | String c r => if Ascii.eqb c "?" then r else init
           | EmptyString => init
           end in
  map parsePair (List.filter truthy (split "&" s)).

End URL.

Export URL.

(** ** HttpGenerator *)

Module HttpGenerator.

Section Generate.

(** [JSON.stringify({ query, variables }, null, 2)], where [variables] is
    the value [JSON.parse] gives when the text parses and the text itself
    otherwise: the platform's JSON functions, taken as a parameter. *)
Variable stringifyGraphql : string -> option string -> string.

Definition buildUrl (baseUrl : string) (queryParams : list QueryParam) : string :=
  let enabledParams :=
    List.filter (fun p => p_enabled p && truthy (p_key p)) queryParams in
  match enabledParams with
  | [] => baseUrl
  | _ :: _ =>
      let queryString :=
        join "&" (map (fun p => encodeURIComponent (p_key p) +:+ "=" +:+
                                encodeURIComponent (p_value p)) enabledParams) in
      baseUrl +:+ "?" +:+ queryString
  end.

(** [None] is [undefined]. *)
Definition generateBody (request : UIRequest) : option string :=
  let b := body request in
  match body_type b with
  | BodyNone => None
  | BodyJson => Some (orEmpty (content b))
  | BodyRaw => Some (orEmpty (content b))
  | BodyForm => Some (orEmpty (content b))
  | BodyFormData =>
      match formData b with
      | Some ((_ :: _) as fd) =>
          Some (join nl (map (fun f => f_key f +:+ "=" +:+ f_value f)
                       (List.filter f_enabled fd)))
      | _ => Some (orEmpty (content b))
      end
  | BodyGraphql =>
      match graphql b with
      | Some g =>
          Some (stringifyGraphql (query g)
                  (if truthyOpt (variables g) then variables g else None))
      | None => None
      end
  | BodyBinary =>
      if truthyOpt (content b) then Some ("< " +:+ orEmpty (content b))
      else None
  end.

(** The [lines] array of [generate], section by section. *)
Definition metadataLines (request : UIRequest) : list string :=
  let lines :=
    (if truthy (name request) then ["# @name " +:+ name request] else []) ++
    (if truthyOpt (description request)
     then ["# @description " +:+ orEmpty (description request)] else []) ++
    (match tags request with
     | Some ((_ :: _) as ts) => ["# @tag " +:+ join ", " ts]
     | _ => []
     end) in
  match lines with
  | [] => []
  | _ :: _ => lines ++ [""]
  end.

Definition indent (l : string) : string := "  " +:+ l.

Definition preRequestLines (request : UIRequest) : list string :=
  match preRequest request with
  | Some pre =>
      if truthy (trim pre)
      then ["{{"; "  // @pre"] ++ map indent (split LF pre) ++ ["}}"; ""]
      else []
  | None => []
  end.

Definition headerLines (request : UIRequest) : list string :=
  map (fun h => h_key h +:+ ": " +:+ h_value h)
      (List.filter (fun h => h_enabled h && truthy (h_key h)) (headers request)).

Definition bodyLinesOf (request : UIRequest) : list string :=
  match generateBody request with
  | Some bodyContent => if truthy bodyContent then [""; bodyContent] else []
  | None => []
  end.

Definition testLines (request : UIRequest) : list string :=
  match tests request with
  | Some t =>
      if truthy (trim t)
      then [""; "{{"] ++ map indent (split LF t) ++ ["}}"]
      else []
  | None => []
  end.

Definition generateLines (request : UIRequest) : list string :=
  metadataLines request ++
  preRequestLines request ++
  [methodName (method request) +:+ " " +:+
   buildUrl (url request) (queryParams request)] ++
  headerLines request ++
  bodyLinesOf request ++
  testLines request ++
  [""; "###"].

Definition generate (request : UIRequest) : string :=
  join nl (generateLines request).

End Generate.

End HttpGenerator.

(** ** CollectionParser: request text *)

Module CollectionParser.

(** The alternatives of the request-line pattern, in its order. *)
Definition methods : list HttpMethod :=
  [GET; POST; PUT; DELETE; PATCH; HEAD; OPTIONS; CONNECT; TRACE].

(** Matching a literal in upper-case ASCII letters at the start of [s]
    under the [i] flag: the canonical form of an ASCII character is its
    upper case, and a character outside ASCII is its own.  Gives the rest. *)
Fixpoint stripPrefixCI (p s : string) : option string :=
  match p, s with
  | EmptyString, _ => Some s
  | String a p', String b s' =>
      if Ascii.eqb a (upperChar b) then stripPrefixCI p' s' else None
  | String _ _, EmptyString => None
  end.

(** The longest run of white-space characters at the start of [s], one
    character per element, and the rest. *)
Fixpoint spanSpace (s : string) : list string * string :=
  match s with
  | EmptyString => ([], EmptyString)
  | String c r =>
      if isSpace c then
        let (w, t) := spanSpace r in (String c EmptyString :: w, t)
      else match r with
           | String d r2 =>
               if isSpace2 c d then
                 let (w, t) := spanSpace r2 in
                 (String c (String d EmptyString) :: w, t)
               else match r2 with
                    | String e r3 =>
                        if isSpace3 c d e then
                          let (w, t) := spanSpace r3 in
                          (String c (String d (String e EmptyString)) :: w, t)
                        else ([], s)
                    | EmptyString => ([], s)
                    end
           | EmptyString => ([], s)
           end
  end.

(** [\s+(.+)$] against the text after the method; gives group 2.  [\s+]
    takes the whole run of white space; [.+] must then reach the end of the
    input without meeting a line terminator.  When nothing follows the run,
    backtracking hands its last character to [.+], if the run has two
    characters at least and that one is no line terminator. *)
Definition matchTail (rest : string) : option string :=
  let (w, t) := spanSpace rest in
  match w with
  | [] => None
  | _ :: _ =>
      if isEmpty t then
        match w with
        | _ :: _ :: _ =>
            let c := List.last w EmptyString in
            if noLineTerminator c then Some c else None
        | _ => None
        end
      else if noLineTerminator t then Some t
      else None
  end.

(** [/^(GET|POST|PUT|DELETE|PATCH|HEAD|OPTIONS|CONNECT|TRACE)\s+(.+)$/i]:
    the alternative that matched (group 1 in upper case is its name) and
    group 2. *)
Fixpoint matchAlternatives (ms : list HttpMethod) (s : string)
  : option (HttpMethod * string) :=
  match ms with
  | [] => None
  | m :: ms' =>
      match stripPrefixCI (methodName m) s with
      | Some rest =>
          match matchTail rest with
          | Some g2 => Some (m, g2)
          | None => matchAlternatives ms' s
          end
      | None => matchAlternatives ms' s
      end
  end.

Definition matchRequestLine (s : string) : option (HttpMethod * string) :=
  matchAlternatives methods s.

Inductive ScriptType := ScriptPre | ScriptTest.

(** The request under construction and the loop variables of
    [parseHttpText]. *)
Record ParseState := mkState
  { request : UIRequest;
    inBody : bool;
    bodyLines : list string;
    inScript : bool;
    scriptType : option ScriptType;
    scriptLines : list string }.

Definition updRequest (f : UIRequest -> UIRequest) (st : ParseState) : ParseState :=
  mkState (f (request st)) (inBody st) (bodyLines st) (inScript st)
          (scriptType st) (scriptLines st).

Definition set_name (v : string) (r : UIRequest) : UIRequest :=
  mkRequest (id r) v (description r) (tags r) (method r) (url r) (headers r)
            (queryParams r) (body r) (preRequest r) (tests r) (fileUri r).
Definition set_description (v : option string) (r : UIRequest) : UIRequest :=
  mkRequest (id r) (name r) v (tags r) (method r) (url r) (headers r)
            (queryParams r) (body r) (preRequest r) (tests r) (fileUri r).
Definition set_tags (v : option (list string)) (r : UIRequest) : UIRequest :=
  mkRequest (id r) (name r) (description r) v (method r) (url r) (headers r)
            (queryParams r) (body r) (preRequest r) (tests r) (fileUri r).
Definition set_method (v : HttpMethod) (r : UIRequest) : UIRequest :=
  mkRequest (id r) (name r) (description r) (tags r) v (url r) (headers r)
            (queryParams r) (body r) (preRequest r) (tests r) (fileUri r).
Definition set_url (v : string) (r : UIRequest) : UIRequest :=
  mkRequest (id r) (name r) (description r) (tags r) (method r) v (headers r)
            (queryParams r) (body r) (preRequest r) (tests r) (fileUri r).
Definition set_headers (v : list RequestHeader) (r : UIRequest) : UIRequest :=
  mkRequest (id r) (name r) (description r) (tags r) (method r) (url r) v
            (queryParams r) (body r) (preRequest r) (tests r) (fileUri r).
Definition set_queryParams (v : list QueryParam) (r : UIRequest) : UIRequest :=
  mkRequest (id r) (name r) (description r) (tags r) (method r) (url r)
            (headers r) v (body r) (preRequest r) (tests r) (fileUri r).
Definition set_body (v : RequestBody) (r : UIRequest) : UIRequest :=
  mkRequest (id r) (name r) (description r) (tags r) (method r) (url r)
            (headers r) (queryParams r) v (preRequest r) (tests r) (fileUri r).
Definition set_preRequest (v : option string) (r : UIRequest) : UIRequest :=
  mkRequest (id r) (name r) (description r) (tags r) (method r) (url r)
            (headers r) (queryParams r) (body r) v (tests r) (fileUri r).
Definition set_tests (v : option string) (r : UIRequest) : UIRequest :=
  mkRequest (id r) (name r) (description r) (tags r) (method r) (url r)
            (headers r) (queryParams r) (body r) (preRequest r) v (fileUri r).

(** [const [baseUrl, queryString] = fullUrl.split('?')]: the first two
    pieces; [queryString] is [undefined] when there is one piece only. *)
Definition splitUrl (fullUrl : string) : string * option string :=
  match split "?" fullUrl with
  | baseUrl :: queryString :: _ => (baseUrl, Some queryString)
  | [baseUrl] => (baseUrl, None)
  | [] => (EmptyString, None)
  end.

(** The request-line branch: method, URL and query parameters. *)
Definition applyRequestLine (m : HttpMethod) (g2 : string) (r : UIRequest) : UIRequest :=
  let fullUrl := trim g2 in
  let (baseUrl, queryString) := splitUrl fullUrl in
  let r1 := set_url baseUrl (set_method m r) in
  if truthyOpt queryString then
    set_queryParams
      (queryParams r1 ++
       map (fun kv => mkParam (fst kv) (snd kv) true)
           (URLSearchParams (orEmpty queryString))) r1
  else r1.

(** One turn of the [for (const line of lines)] loop. *)
Definition processLine (st : ParseState) (line : string) : ParseState :=
  let trimmedLine := trim line in
  (* Skip separators *)
  if String.eqb trimmedLine "###" then st
  (* Parse metadata comments *)
  else if startsWith "# @name " trimmedLine then
    updRequest (set_name (trim (slice 8 trimmedLine))) st
  else if startsWith "# @description " trimmedLine then
    updRequest (set_description (Some (trim (slice 15 trimmedLine)))) st
  else if startsWith "# @tag " trimmedLine then
    updRequest (set_tags (Some (map trim (split "," (slice 7 trimmedLine))))) st
  (* Handle script blocks *)
  else if startsWith "{{" trimmedLine then
    mkState (request st) (inBody st) (bodyLines st) true
            (Some (if includes "@pre" trimmedLine then ScriptPre else ScriptTest))
            (scriptLines st)
  else if startsWith "}}" trimmedLine then
    let r := match scriptType st with
             | Some ScriptPre =>
                 set_preRequest (Some (join nl (scriptLines st))) (request st)
             | Some ScriptTest =>
                 set_tests (Some (join nl (scriptLines st))) (request st)
             | None => request st
             end in
    mkState r (inBody st) (bodyLines st) false None []
  else if inScript st then
    mkState (request st) (inBody st) (bodyLines st) (inScript st)
            (scriptType st) (scriptLines st ++ [line])
  (* Skip other comments *)
  else if startsWith "#" trimmedLine || startsWith "//" trimmedLine then st
  else
    (* Parse request line *)
    match matchRequestLine trimmedLine with
    | Some (m, g2) => updRequest (applyRequestLine m g2) st
    | None =>
        (* Detect body start (empty line after headers) *)
        if negb (inBody st) && isEmpty trimmedLine && truthy (url (request st)) then
          mkState (request st) true (bodyLines st) (inScript st)
                  (scriptType st) (scriptLines st)
        (* Parse headers (before body) *)
        else if negb (inBody st) && includes ":" trimmedLine then
          match cut ":" trimmedLine with
          | Some (k, v) =>
              let key := trim k in
              let value := trim v in
              if truthy key && negb (startsWith "{" key) then
                updRequest (fun r => set_headers
                              (headers r ++ [mkHeader key value true]) r) st
              else st
          | None => st
          end
        (* Collect body lines *)
        else if inBody st then
          mkState (request st) (inBody st) (bodyLines st ++ [line])
                  (inScript st) (scriptType st) (scriptLines st)
        else st
    end.

(** [headers.find(h => h.key.toLowerCase() === 'content-type')
      ?.value?.toLowerCase() || ''] *)
Definition declaredContentType (hs : list RequestHeader) : string :=
  match List.find (fun h => String.eqb (toLowerCase (h_key h)) "content-type") hs with
  | Some h => toLowerCase (h_value h)
  | None => EmptyString
  end.

Definition detectBodyType (body : string) (hs : list RequestHeader) : RequestBody :=
  let contentType := declaredContentType hs in
  if includes "application/json" contentType
     || startsWith "{" (trim body) || startsWith "[" (trim body) then
    mkBody BodyJson (Some body) None None
  else if includes "application/x-www-form-urlencoded" contentType then
    mkBody BodyForm (Some body) None None
  else if includes "multipart/form-data" contentType then
    mkBody BodyFormData (Some body) None None
  else if includes "application/graphql" contentType
          || includes "query" body || includes "mutation" body then
    mkBody BodyGraphql None None (Some (mkGraphQL body None))
  else mkBody BodyRaw (Some body) None None.

Section Parse.

Context {platform : Platform}.

(** The request [parseHttpText] starts from.  [now] is the decimal text of
    [Date.now()]. *)
Definition initialRequest (fileUri : option Uri) (now : string) : UIRequest :=
  mkRequest
    (match fileUri with
     | Some u => if truthy (Uri_toString u) then Uri_toString u
                 else "request-" +:+ now
     | None => "request-" +:+ now
     end)
    "New Request" None None GET EmptyString [] []
    (mkBody BodyNone None None None) None None
    (option_map LiveUri fileUri).

Definition initialState (fileUri : option Uri) (now : string) : ParseState :=
  mkState (initialRequest fileUri now) false [] false None [].

(** The [// Process body] step after the loop. *)
Definition processBody (st : ParseState) : UIRequest :=
  match bodyLines st with
  | [] => request st
  | _ :: _ =>
      let bodyText := trim (join nl (bodyLines st)) in
      if truthy bodyText
      then set_body (detectBodyType bodyText (headers (request st))) (request st)
      else request st
  end.

Definition parseLines (st : ParseState) (lines : list string) : ParseState :=
  fold_left processLine lines st.

Definition parseHttpText (text : string) (fileUri : option Uri) (now : string)
  : UIRequest :=
  processBody (parseLines (initialState fileUri now) (split LF text)).

End Parse.

End CollectionParser.

(** ** CollectionParser: the folder tree *)

Module Walker.

Inductive NodeType := Collection | Request.
Inductive RunStatus := StatusSuccess | StatusError | StatusPending | StatusNone.

(** [CollectionTreeNode]; [children] is absent on request nodes. *)
Inductive CollectionTreeNode := mkNode
  { node_type : NodeType;
    node_id : string;
    label : string;
    node_description : option string;
    node_method : option HttpMethod;
    filePath : string;
    folderPath : string;
    lastRunStatus : option RunStatus;
    children : option (list CollectionTreeNode) }.

(** The fields of [CollectionMetadata] and [CollectionsManifest] that the
    walker reads. *)
Record CollectionMetadata := mkMetadata
  { meta_name : option string;
    meta_description : option string;
    order : option (list string) }.

Record CollectionsManifest := mkManifest
  { collections : option (list string) }.

(** What is on disk below a location.  [FsFile None] is a file whose
    [readFile] fails; a directory that is not [listable] makes
    [readDirectory] fail; [FsOther] is an entry of another [FileType]. *)
Inductive FsEntry :=
| FsFile (data : option string)
| FsDir (listable : bool) (entries : list (string * FsEntry))
| FsOther.

Definition isDirectory (e : FsEntry) : bool :=
  match e with FsDir _ _ => true | _ => false end.
Definition isFile (e : FsEntry) : bool :=
  match e with FsFile _ => true | _ => false end.

(** [vscode.workspace.fs.readFile] of the entry [name] of a folder. *)
Fixpoint readFileIn (name : string) (entries : list (string * FsEntry))
  : option string :=
  match entries with
  | [] => None
  | (n, e) :: rest =>
      if String.eqb n name
      then match e with FsFile d => d | _ => None end
      else readFileIn name rest
  end.

Definition COLLECTION_METADATA_FILE : string := "_collection.json".
Definition COLLECTIONS_MANIFEST_FILE : string := "collections.json".
Definition HTTP_EXTENSIONS : list string := [".http"; ".rest"].

(** The comparator of both [sort] calls: position in the order list, names
    that are not listed last. *)
Definition orderCompare (order : list string) (a b : CollectionTreeNode) : Z :=
  let indexA := indexOf (label a) order in
  let indexB := indexOf (label b) order in
  if (indexA =? -1)%Z && (indexB =? -1)%Z then 0%Z
  else if (indexA =? -1)%Z then 1%Z
  else if (indexB =? -1)%Z then (-1)%Z
  else (indexA - indexB)%Z.

(** [if (order?.length) children.sort(...)] *)
Definition sortByOrder (order : option (list string))
  (nodes : list CollectionTreeNode) : list CollectionTreeNode :=
  match order with
  | Some ((_ :: _) as o) => sort (orderCompare o) nodes
  | _ => nodes
  end.

(** A value together with the messages sent to [httpyac.io.log.error]. *)
Definition Logged (A : Type) : Type := A * list string.

Section Walk.

Context {platform : Platform}.

(** Platform functions: [JSON.parse] of the two metadata files, read at the
    declared types, and the searches of [parseHttpFile] in the file text
    (the regular expressions for [@name], [@description] and the method,
    with [path.basename] of the file name as the fallback label). *)
Variable parseMetadata : string -> option CollectionMetadata.
Variable parseManifest : string -> option CollectionsManifest.
Variable requestLabel : string -> string -> string.
Variable requestDescription : string -> option string.
Variable requestMethod : string -> HttpMethod.

Definition parseHttpFile (folderUri : Uri) (fileName : string)
  (data : option string) : Logged (option CollectionTreeNode) :=
  let fileUri := joinPath folderUri fileName in
  match data with
  | Some text =>
      (Some (mkNode Request (Uri_toString fileUri)
               (requestLabel text fileName) (requestDescription text)
               (Some (requestMethod text)) (fsPath fileUri)
               (dirname (fsPath fileUri)) (Some StatusNone) None), [])
  | None =>
      (None, ["Failed to parse HTTP file " +:+ Uri_toString fileUri])
  end.

Definition loadCollectionMetadata (entries : list (string * FsEntry))
  : option CollectionMetadata :=
  match readFileIn COLLECTION_METADATA_FILE entries with
  | Some text => parseMetadata text
  | None => None
  end.

Definition loadManifest (entries : list (string * FsEntry))
  : option CollectionsManifest :=
  match readFileIn COLLECTIONS_MANIFEST_FILE entries with
  | Some text => parseManifest text
  | None => None
  end.

(** The second loop of [parseFolder]: request files, in listing order. *)
Fixpoint parseFiles (folderUri : Uri) (entries : list (string * FsEntry))
  : Logged (list CollectionTreeNode) :=
  match entries with
  | [] => ([], [])
  | (entryName, e) :: rest =>
      let (nodes, logs) := parseFiles folderUri rest in
      match e with
      | FsFile data =>
          if existsb (fun ext => endsWith ext entryName) HTTP_EXTENSIONS then
            let (requestNode, log1) := parseHttpFile folderUri entryName data in
            (match requestNode with
             | Some n => n :: nodes
             | None => nodes
             end, log1 ++ logs)
          else (nodes, logs)
      | _ => (nodes, logs)
      end
  end.

(** [metadata?.name || name] *)
Definition folderLabel (metadata : option CollectionMetadata) (name : string) : string :=
  match metadata with
  | Some md => if truthyOpt (meta_name md) then orEmpty (meta_name md) else name
  | None => name
  end.

Definition folderNode (folderUri : Uri) (name : string)
  (metadata : option CollectionMetadata) (children : list CollectionTreeNode)
  : CollectionTreeNode :=
  mkNode Collection (Uri_toString folderUri) (folderLabel metadata name)
         (match metadata with Some md => meta_description md | None => None end)
         None (fsPath folderUri) (fsPath folderUri) None (Some children).

(** The first loop of [parseFolder]: the sub-folders, in listing order.
    [recurse] is [parseFolder] itself. *)
Definition subFolders (recurse : Uri -> string -> FsEntry -> Logged CollectionTreeNode)
  (folderUri : Uri) : list (string * FsEntry) -> Logged (list CollectionTreeNode) :=
  fix loop (es : list (string * FsEntry)) : Logged (list CollectionTreeNode) :=
    match es with
    | [] => ([], [])
    | (entryName, e) :: rest =>
        let (nodes, logs) := loop rest in
        if isDirectory e && negb (startsWith "." entryName)
           && negb (startsWith "_" entryName) then
          let (subNode, log1) :=
            recurse (joinPath folderUri entryName) entryName e in
          (subNode :: nodes, log1 ++ logs)
        else (nodes, logs)
    end.

(** [parseFolder]: the metadata is loaded first; listing the folder and
    everything after it runs inside [try], and a failed listing is logged
    and leaves [children] empty; the node is returned in either case. *)
Fixpoint parseFolder (folderUri : Uri) (name : string) (dir : FsEntry)
  {struct dir} : Logged CollectionTreeNode :=
  match dir with
  | FsDir true entries =>
      let metadata := loadCollectionMetadata entries in
      let (subNodes, logs1) := subFolders parseFolder folderUri entries in
      let (fileNodes, logs2) := parseFiles folderUri entries in
      (folderNode folderUri name metadata
         (sortByOrder (match metadata with Some md => order md | None => None end)
                      (subNodes ++ fileNodes)),
       logs1 ++ logs2)
  | FsDir false entries =>
      (folderNode folderUri name (loadCollectionMetadata entries) [],
       ["Failed to parse folder " +:+ Uri_toString folderUri])
  | _ =>
      (folderNode folderUri name None [],
       ["Failed to parse folder " +:+ Uri_toString folderUri])
  end.

(** The loop of [parseCollectionTree] over the entries of the root. *)
Fixpoint parseTopLevel (rootUri : Uri) (entries : list (string * FsEntry))
  : Logged (list CollectionTreeNode) :=
  match entries with
  | [] => ([], [])
  | (entryName, e) :: rest =>
      let (nodes, logs) := parseTopLevel rootUri rest in
      if isDirectory e && negb (startsWith "." entryName)
         && negb (String.eqb entryName "environments") then
        let (node, log1) := parseFolder (joinPath rootUri entryName) entryName e in
        (node :: nodes, log1 ++ logs)
      else (nodes, logs)
  end.

Definition parseCollectionTree (rootUri : Uri) (root : FsEntry)
  : Logged (list CollectionTreeNode) :=
  match root with
  | FsDir true entries =>
      let (colls, logs) := parseTopLevel rootUri entries in
      (sortByOrder (match loadManifest entries with
                    | Some mf => collections mf
                    | None => None
                    end) colls, logs)
  | _ => ([], ["Failed to parse collection tree"])
  end.

End Walk.

(** A node and everything below it. *)
Fixpoint allNodes (n : CollectionTreeNode) : list CollectionTreeNode :=
  n :: match children n with
       | Some cs => flat_map allNodes cs
       | None => []
       end.

End Walker.

(** ** FileSyncService: debounced writes and the watcher *)

Module FileSyncService.

(** What a timer of the event loop runs when it fires: the callback of
    [saveRequest] (write the captured request, forget the timer) or the
    callback of [writeRequest] (stop ignoring the path). *)
Inductive TimerAction :=
| DebouncedWrite (uriString : string) (request : UIRequest)
| ClearPending (uriString : string).

Record Timer := mkTimer
  { timer_id : nat; due : nat; action : TimerAction }.

(** A [writeFile] call that has not returned yet. *)
Record WriteOp := mkWrite { w_uri : string; w_content : string }.

Inductive Event :=
| RequestChanged (uri : Uri) (request : UIRequest)
| CollectionsChanged
| EnvironmentsChanged.

(** The service, the timers of the event loop, the files and what has been
    observed so far.  Time is in milliseconds. *)
Record State := mkSync
  { now : nat;
    nextTimer : nat;
    timers : list Timer;
    writeDebounceTimers : gmap string nat;
    pendingWrites : gset string;
    inflight : list WriteOp;
    files : gmap string string;
    writes : list WriteOp;
    events : list Event }.

Definition initial (disk : gmap string string) : State :=
  mkSync 0 0 [] ∅ ∅ [] disk [] [].

Definition ENVIRONMENTS_FOLDER : string := "environments".

(** The delay of the timer in [writeRequest]. *)
Definition GRACE : nat := 100.

Section Files.

Context {platform : Platform}.

Definition isHttpFile (uri : Uri) : bool :=
  endsWith ".http" (fsPath uri) || endsWith ".rest" (fsPath uri).

Definition isEnvironmentFile (uri : Uri) : bool :=
  includes ENVIRONMENTS_FOLDER (fsPath uri) && endsWith ".env" (fsPath uri).

(** [ensureUri]: a live Uri is kept; a plain record is rebuilt from
    [fsPath || path]; anything else throws. *)
Definition ensureUri (uri : UriRef) : string + Uri :=
  match uri with
  | LiveUri u => inr u
  | PlainUri fsP p =>
      if truthyOpt fsP then inr (Uri_file (orEmpty fsP))
      else if truthyOpt p then inr (Uri_file (orEmpty p))
      else inl "Invalid URI object"
  end.

End Files.

Definition set_fileUri (v : option UriRef) (r : UIRequest) : UIRequest :=
  mkRequest (id r) (name r) (description r) (tags r) (method r) (url r)
            (headers r) (queryParams r) (body r) (preRequest r) (tests r) v.

(** [clearTimeout(id)] *)
Definition clearTimeout (i : nat) (ts : list Timer) : list Timer :=
  List.filter (fun t => negb (Nat.eqb (timer_id t) i)) ts.

Section Service.

Context {platform : Platform}.

Variable stringifyGraphql : string -> option string -> string.

(** The constructor argument, 300 by default. *)
Variable debounceDelay : nat.

(** [writeRequest] up to its [await]: the text is generated, the path is
    marked as pending and [writeFile] is called. *)
Definition writeRequest (request : UIRequest) (s : State) : State :=
  match fileUri request with
  | None => s
  | Some ref =>
      let content := HttpGenerator.generate stringifyGraphql request in
      match ensureUri ref with
      | inl _ => s
      | inr fileUri =>
          let uriString := Uri_toString fileUri in
          let op := mkWrite uriString content in
          mkSync (now s) (nextTimer s) (timers s) (writeDebounceTimers s)
                 ({[ uriString ]} ∪ pendingWrites s)
                 (inflight s ++ [op]) (files s) (writes s ++ [op]) (events s)
      end
  end.

(** The [k]-th [writeFile] in flight returns: when it succeeded the file has
    the new text; the [finally] block starts the timer that will remove the
    path from [pendingWrites]. *)
Definition writeDone (k : nat) (ok : bool) (s : State) : State :=
  match inflight s !! k with
  | None => s
  | Some op =>
      mkSync (now s) (S (nextTimer s))
             (timers s ++ [mkTimer (nextTimer s) (now s + GRACE)
                                   (ClearPending (w_uri op))])
             (writeDebounceTimers s) (pendingWrites s)
             (take k (inflight s) ++ drop (S k) (inflight s))
             (if ok then <[ w_uri op := w_content op ]> (files s) else files s)
             (writes s) (events s)
  end.

(** [saveRequest]; [inl] is a thrown error. *)
Definition saveRequest (request : UIRequest) (immediate : bool) (s : State)
  : string + State :=
  match fileUri request with
  | None => inl "Request has no file URI"
  | Some ref =>
      match ensureUri ref with
      | inl e => inl e
      | inr fileUri =>
          let uriString := Uri_toString fileUri in
          let request := set_fileUri (Some (LiveUri fileUri)) request in
          let ts := match writeDebounceTimers s !! uriString with
                    | Some existingTimer => clearTimeout existingTimer (timers s)
                    | None => timers s
                    end in
          let s1 := mkSync (now s) (nextTimer s) ts (writeDebounceTimers s)
                           (pendingWrites s) (inflight s) (files s) (writes s)
                           (events s) in
          if immediate then inr (writeRequest request s1)
          else
            inr (mkSync (now s) (S (nextTimer s))
                   (ts ++ [mkTimer (nextTimer s) (now s + debounceDelay)
                                   (DebouncedWrite uriString request)])
                   (<[ uriString := nextTimer s ]> (writeDebounceTimers s))
                   (pendingWrites s) (inflight s) (files s) (writes s)
                   (events s))
      end
  end.

(** The callback of a timer. *)
Definition fire (t : Timer) (s : State) : State :=
  match action t with
  | DebouncedWrite uriString request =>
      let s1 := writeRequest request s in
      mkSync (now s1) (nextTimer s1) (timers s1)
             (delete uriString (writeDebounceTimers s1)) (pendingWrites s1)
             (inflight s1) (files s1) (writes s1) (events s1)
  | ClearPending uriString =>
      mkSync (now s) (nextTimer s) (timers s) (writeDebounceTimers s)
             (pendingWrites s ∖ {[ uriString ]}) (inflight s) (files s)
             (writes s) (events s)
  end.

(** The timers that are due, earliest first (timers with one due time in
    the order they were started). *)
Definition dueOrder (a b : Timer) : Z := (Z.of_nat (due a) - Z.of_nat (due b))%Z.

(** [dt] milliseconds pass: the timers due by then fire in order.  No
    callback starts a timer, so one pass is enough. *)
Definition elapse (dt : nat) (s : State) : State :=
  let deadline := now s + dt in
  let ready := List.filter (fun t => due t <=? deadline) (timers s) in
  let rest := List.filter (fun t => negb (due t <=? deadline)) (timers s) in
  let s1 := mkSync deadline (nextTimer s) rest (writeDebounceTimers s)
                   (pendingWrites s) (inflight s) (files s) (writes s)
                   (events s) in
  fold_left (fun st t => fire t st) (sort dueOrder ready) s1.

(** [onFileChanged], for an initialised service.  The file is read and
    parsed when the notification is handled. *)
Definition onFileChanged (uri : Uri) (s : State) : State :=
  if decide (Uri_toString uri ∈ pendingWrites s) then s
  else
    let emit e := mkSync (now s) (nextTimer s) (timers s)
                         (writeDebounceTimers s) (pendingWrites s)
                         (inflight s) (files s) (writes s) (events s ++ e) in
    if isEnvironmentFile uri then emit [EnvironmentsChanged]
    else if isHttpFile uri then
      match files s !! Uri_toString uri with
      | Some text =>
          emit [RequestChanged uri
                  (CollectionParser.parseHttpText text (Some uri) EmptyString)]
      | None => s
      end
    else emit [CollectionsChanged].

(** Another process writes a file. *)
Definition externalWrite (uri : Uri) (text : string) (s : State) : State :=
  mkSync (now s) (nextTimer s) (timers s) (writeDebounceTimers s)
         (pendingWrites s) (inflight s)
         (<[ Uri_toString uri := text ]> (files s)) (writes s) (events s).

(** What can happen next. *)
Inductive Action :=
| CallSave (request : UIRequest) (immediate : bool)
| WriteDone (k : nat) (ok : bool)
| Elapse (dt : nat)
| ExternalWrite (uri : Uri) (text : string)
| WatcherChanged (uri : Uri).

Definition step (s : State) (a : Action) : State :=
  match a with
  | CallSave request immediate =>
      match saveRequest request immediate s with
      | inr s' => s'
      | inl _ => s
      end
  | WriteDone k ok => writeDone k ok s
  | Elapse dt => elapse dt s
  | ExternalWrite uri text => externalWrite uri text s
  | WatcherChanged uri => onFileChanged uri s
  end.

Definition run (s : State) (trace : list Action) : State :=
  fold_left step trace s.

End Service.

End FileSyncService.

(** ** Vocabulary of the properties *)

Module Spec.

Import CollectionParser.

Section OnPlatform.

Context {platform : Platform}.

(** Every character of [s] is one that [f] takes. *)
Fixpoint allChars (f : ascii -> bool) (s : string) : bool :=
  match s with
  | EmptyString => true
  | String c r => f c && allChars f r
  end.

(** A continuation byte of UTF-8, 80 to BF: no character starts with one. *)
Definition isCont (c : ascii) : bool := inRange 128 191 c.

(** A character starts where [s] starts. *)
Definition atBoundary (s : string) : bool :=
  match s with
  | String c _ => negb (isCont c)
  | EmptyString => true
  end.

(** An ASCII character that is not white space. *)
Definition plainChar (c : ascii) : bool :=
  (nat_of_ascii c <? 128)%nat && negb (isSpace c).

(** The text a body carries: [content], or the query of a GraphQL body. *)
Definition bodyText (b : RequestBody) : string :=
  match body_type b with
  | BodyGraphql => match graphql b with Some g => query g | None => EmptyString end
  | _ => orEmpty (content b)
  end.

Definition noBody : RequestBody := mkBody BodyNone None None None.

(** A line that looks like a comment: trimmed, it starts with [#] or [//]. *)
Definition commentLike (l : string) : bool :=
  startsWith "#" (trim l) || startsWith "//" (trim l).

(** One of the three metadata markers. *)
Definition metadataMarker (l : string) : bool :=
  startsWith "# @name " (trim l) || startsWith "# @description " (trim l)
  || startsWith "# @tag " (trim l).

(** The lines that [processLine] hands to the request-line pattern: not a
    separator, a metadata marker, a script delimiter, script content or a
    comment. *)
Definition reachesPattern (st : ParseState) (line : string) : bool :=
  negb (String.eqb (trim line) "###") && negb (metadataMarker line)
  && negb (startsWith "{{" (trim line)) && negb (startsWith "}}" (trim line))
  && negb (inScript st) && negb (commentLike line).

(** The request line that [processLine] sees in [line], if any. *)
Definition requestLineOf (st : ParseState) (line : string)
  : option (HttpMethod * string) :=
  if reachesPattern st line then matchRequestLine (trim line) else None.

(** No line of [ls], read from state [st] on, is a request line. *)
Fixpoint noRequestLine (st : ParseState) (ls : list string) : Prop :=
  match ls with
  | [] => True
  | l :: ls' => requestLineOf st l = None /\ noRequestLine (processLine st l) ls'
  end.

(** The fields that only a request line, the blank line after it and the
    lines behind that blank line can change. *)
Definition untouched (st : ParseState) : Prop :=
  method (request st) = GET /\ url (request st) = "" /\
  queryParams (request st) = [] /\ body (request st) = noBody /\
  inBody st = false /\ bodyLines st = [].

(** How the lines of [trimEnd s] sit in the lines of [s]: the same lines up
    to the last one, which has lost white space at its end; the lines of
    [s] behind it are gone. *)
Inductive endRel : list string -> list string -> Prop :=
| endRel_last (l w : string) (rest : list string) :
    blank w = true -> endRel [l] ((l +:+ w) :: rest)
| endRel_cons (x : string) (xs' xs : list string) :
    endRel xs' xs -> endRel (x :: xs') (x :: xs).

(** The children at position [i] of the order list: those whose label has
    its first occurrence there. *)
Definition atPosition (o : list string) (i : nat) (n : Walker.CollectionTreeNode) : bool :=
  (indexOf (Walker.label n) o =? Z.of_nat i)%Z.

Definition unlisted (o : list string) (n : Walker.CollectionTreeNode) : bool :=
  (indexOf (Walker.label n) o =? -1)%Z.

(** The listed children first, position by position of the order list,
    then the others; inside each group the order of [nodes]. *)
Definition reordered (o : list string) (nodes : list Walker.CollectionTreeNode)
  : list Walker.CollectionTreeNode :=
  flat_map (fun i => List.filter (atPosition o i) nodes) (seq 0 (length o))
  ++ List.filter (unlisted o) nodes.

(** The place of a child in the order: its position, or the length of the
    list when it is not listed. *)
Definition rank (o : list string) (n : Walker.CollectionTreeNode) : nat :=
  if unlisted o n then length o else Z.to_nat (indexOf (Walker.label n) o).

(** The location that the walk reaches from [rootUri] by a chain of entry
    names, outermost first. *)
Definition uriAt (rootUri : Uri) (names : list string) : Uri :=
  fold_left joinPath names rootUri.

(** A node built for a location: its identifier is the text of the Uri of
    that location, and its path is the file-system path of that Uri. *)
Definition builtAt (u : Uri) (n : Walker.CollectionTreeNode) : Prop :=
  Walker.node_id n = Uri_toString u /\ Walker.filePath n = fsPath u.

(** A sub-folder that [parseFolder] walks, and a file that it reads. *)
Definition walkedFolder (entryName : string) : bool :=
  negb (startsWith "." entryName) && negb (startsWith "_" entryName).

Definition walkedCollection (entryName : string) : bool :=
  negb (startsWith "." entryName) && negb (String.eqb entryName "environments").

Definition requestFile (entryName : string) : bool :=
  existsb (fun ext => endsWith ext entryName) Walker.HTTP_EXTENSIONS.

(** The entries below a folder that the walk shows, by the chain of names
    that leads to them, and the type of the node of each: a request file
    that can be read, a sub-folder that is walked, and what is shown below
    such a sub-folder when that one can be listed. *)
Inductive inFolder : Walker.FsEntry -> list string -> Walker.NodeType -> Prop :=
| inFolder_file (entries : list (string * Walker.FsEntry)) (entryName text : string) :
    In (entryName, Walker.FsFile (Some text)) entries ->
    requestFile entryName = true ->
    inFolder (Walker.FsDir true entries) [entryName] Walker.Request
| inFolder_folder (entries : list (string * Walker.FsEntry)) (entryName : string)
    (e : Walker.FsEntry) :
    In (entryName, e) entries ->
    Walker.isDirectory e = true -> walkedFolder entryName = true ->
    inFolder (Walker.FsDir true entries) [entryName] Walker.Collection
| inFolder_below (entries : list (string * Walker.FsEntry)) (entryName : string)
    (e : Walker.FsEntry) (names : list string) (k : Walker.NodeType) :
    In (entryName, e) entries ->
    Walker.isDirectory e = true -> walkedFolder entryName = true ->
    inFolder e names k ->
    inFolder (Walker.FsDir true entries) (entryName :: names) k.

(** The same for the root folder, whose sub-folders are the collections. *)
Inductive inRoot : Walker.FsEntry -> list string -> Walker.NodeType -> Prop :=
| inRoot_collection (entries : list (string * Walker.FsEntry)) (entryName : string)
    (e : Walker.FsEntry) :
    In (entryName, e) entries ->
    Walker.isDirectory e = true -> walkedCollection entryName = true ->
    inRoot (Walker.FsDir true entries) [entryName] Walker.Collection
| inRoot_below (entries : list (string * Walker.FsEntry)) (entryName : string)
    (e : Walker.FsEntry) (names : list string) (k : Walker.NodeType) :
    In (entryName, e) entries ->
    Walker.isDirectory e = true -> walkedCollection entryName = true ->
    inFolder e names k ->
    inRoot (Walker.FsDir true entries) (entryName :: names) k.

(** The same tree, listed in another order: at every level the entries of a
    folder come in some other order, with the names they had. *)
Inductive relisted : Walker.FsEntry -> Walker.FsEntry -> Prop :=
| relisted_same (e : Walker.FsEntry) : relisted e e
| relisted_dir (listable : bool) (es es1 es2 : list (string * Walker.FsEntry)) :
    Permutation es es1 ->
    Forall2 (fun a b => fst a = fst b /\ relisted (snd a) (snd b)) es1 es2 ->
    relisted (Walker.FsDir listable es) (Walker.FsDir listable es2).

(** The nodes of a forest, at every depth. *)
Definition nodesOf (forest : list Walker.CollectionTreeNode)
  : list Walker.CollectionTreeNode :=
  flat_map Walker.allNodes forest.

(** Two logged lists, one after the other. *)
Definition appendLogged {A : Type} (a b : Walker.Logged (list A))
  : Walker.Logged (list A) :=
  (fst a ++ fst b, snd a ++ snd b).

(** The Uri a request is saved to, when [saveRequest] does not throw. *)
Definition requestUri (m : UIRequest) : option Uri :=
  match fileUri m with
  | Some ref =>
      match FileSyncService.ensureUri ref with
      | inr u => Some u
      | inl _ => None
      end
  | None => None
  end.

(** The [writeFile] call that a timer makes when it fires. *)
Definition writesOf (stringify : string -> option string -> string)
  (t : FileSyncService.Timer) : list FileSyncService.WriteOp :=
  match FileSyncService.action t with
  | FileSyncService.DebouncedWrite _ r =>
      match requestUri r with
      | Some x => [FileSyncService.mkWrite (Uri_toString x)
                     (HttpGenerator.generate stringify r)]
      | None => []
      end
  | FileSyncService.ClearPending _ => []
  end.

(** The [writeFile] calls for one path. *)
Definition writesTo (P : string) (ws : list FileSyncService.WriteOp)
  : list FileSyncService.WriteOp :=
  List.filter (fun w => String.eqb (FileSyncService.w_uri w) P) ws.

(** The states of a service that started on some disk. *)
Definition reachable (stringify : string -> option string -> string)
  (debounceDelay : nat) (s : FileSyncService.State) : Prop :=
  exists disk trace,
    s = FileSyncService.run stringify debounceDelay
          (FileSyncService.initial disk) trace.

(** What holds of the timers in every reachable state: a debounce timer
    that is still to fire is the one registered for its path, and carries a
    request saved to that path; timer identifiers are distinct and below
    the next one. *)
Definition wellFormed (s : FileSyncService.State) : Prop :=
  (forall t u r,
     In t (FileSyncService.timers s) ->
     FileSyncService.action t = FileSyncService.DebouncedWrite u r ->
     FileSyncService.writeDebounceTimers s !! u = Some (FileSyncService.timer_id t) /\
     exists x, requestUri r = Some x /\ Uri_toString x = u) /\
  NoDup (map FileSyncService.timer_id (FileSyncService.timers s)) /\
  (forall t, In t (FileSyncService.timers s) ->
             FileSyncService.timer_id t < FileSyncService.nextTimer s).

(** The timers that fire when [dt] milliseconds pass, in firing order. *)
Definition firing (dt : nat) (s : FileSyncService.State)
  : list FileSyncService.Timer :=
  sort FileSyncService.dueOrder
    (List.filter (fun t => FileSyncService.due t <=? FileSyncService.now s + dt)
                 (FileSyncService.timers s)).

(** The characters of an encoded component. *)
Definition encoded (c : ascii) : bool := unreserved c || Ascii.eqb c "%".

(** Well-formed text: its bytes are the UTF-8 form of a sequence of
    characters, which the UTF-8 decoder gives back as they are.  (Every
    JavaScript string without an unpaired surrogate is such text.) *)
Definition wellFormedText (s : string) : Prop := utf8Decode s = s.

(** A query parameter that [generate] writes: enabled, with a key. *)
Definition writtenParam (p : QueryParam) : Prop :=
  p_enabled p = true /\ p_key p <> "" /\
  wellFormedText (p_key p) /\ wellFormedText (p_value p).

(** The part of the parser state that the request line, the headers and
    the body go to. *)
Record Core := mkCore
  { c_method : HttpMethod;
    c_url : string;
    c_headers : list RequestHeader;
    c_params : list QueryParam;
    c_body : RequestBody;
    c_inBody : bool;
    c_bodyLines : list string }.

Definition core (st : ParseState) : Core :=
  mkCore (method (request st)) (url (request st)) (headers (request st))
         (queryParams (request st)) (body (request st)) (inBody st)
         (bodyLines st).

Definition withInBody (b : bool) (c : Core) : Core :=
  mkCore (c_method c) (c_url c) (c_headers c) (c_params c) (c_body c) b
         (c_bodyLines c).

Definition withBodyLines (ls : list string) (c : Core) : Core :=
  mkCore (c_method c) (c_url c) (c_headers c) (c_params c) (c_body c)
         (c_inBody c) ls.

Definition withHeaders (hs : list RequestHeader) (c : Core) : Core :=
  mkCore (c_method c) (c_url c) hs (c_params c) (c_body c) (c_inBody c)
         (c_bodyLines c).

Definition withRequestLine (m : HttpMethod) (u : string) (ps : list QueryParam)
  (c : Core) : Core :=
  mkCore m u (c_headers c) ps (c_body c) (c_inBody c) (c_bodyLines c).

(** A line that body mode keeps as it is: no separator, no comment, no
    script delimiter, no request line. *)
Definition keptInBody (l : string) : bool :=
  negb (String.eqb (trim l) "###") && negb (startsWith "#" (trim l))
  && negb (startsWith "//" (trim l)) && negb (startsWith "{{" (trim l))
  && negb (startsWith "}}" (trim l))
  && match matchRequestLine (trim l) with Some _ => false | None => true end.

(** A text that starts with a method name, in upper or lower case, and a
    white-space character behind it: the start of every request line. *)
Definition methodThenSpace (s : string) : bool :=
  existsb (fun m => match stripPrefixCI (methodName m) s with
                    | Some rest => match afterSpace rest with
                                   | Some _ => true
                                   | None => false
                                   end
                    | None => false
                    end) methods.

(** A header that [generate] writes and [parseHttpText] reads back: enabled;
    the name is not empty, has no white space at its ends, no colon and no
    line feed, does not start like a comment or a script delimiter, nor
    with a method name and white space; the value has no white space at its
    ends and no line feed. *)
Definition writtenHeader (h : RequestHeader) : Prop :=
  h_enabled h = true /\
  h_key h <> "" /\ trim (h_key h) = h_key h /\
  includes ":" (h_key h) = false /\ includes nl (h_key h) = false /\
  startsWith "#" (h_key h) = false /\ startsWith "//" (h_key h) = false /\
  startsWith "{" (h_key h) = false /\ startsWith "}}" (h_key h) = false /\
  methodThenSpace (h_key h) = false /\
  trim (h_value h) = h_value h /\ includes nl (h_value h) = false.

(** A base URL that [generate] writes and [parseHttpText] reads back: not
    empty, no white space at its ends, no line terminator, no question
    mark. *)
Definition writtenUrl (u : string) : Prop :=
  u <> "" /\ trim u = u /\ noLineTerminator u = true /\
  includes "?" u = false.

(** The parser is outside a script block, with the given core. *)
Definition outside (st : ParseState) (c : Core) : Prop :=
  core st = c /\ inScript st = false.

(** The parser is inside a script block, with the given core. *)
Definition inside (st : ParseState) (c : Core) : Prop :=
  core st = c /\ inScript st = true.

(** A script that [generate] writes as one block: none of its lines
    starts, after trimming, with the closing delimiter. *)
Definition writtenScript (o : option string) : Prop :=
  Forall (fun l => startsWith "}}" (trim l) = false) (split LF (orEmpty o)).

(** The metadata of a request stays on its lines: no line feed in the
    name, the description and the tags. *)
Definition writtenMetadata (m : UIRequest) : Prop :=
  includes nl (name m) = false /\
  includes nl (orEmpty (description m)) = false /\
  match tags m with
  | Some ts => includes nl (join ", " ts) = false
  | None => True
  end.

(** What a blank line does behind the request line. *)
Definition afterBlank (c : Core) : Core :=
  if c_inBody c then withBodyLines (c_bodyLines c ++ [""]) c
  else withInBody true c.

(** A request that [generate] writes in a form that [parseHttpText] reads
    back: see the parts. *)
Definition writtenRequest (stringify : string -> option string -> string)
  (m : UIRequest) : Prop :=
  writtenUrl (url m) /\
  Forall writtenHeader (headers m) /\
  Forall writtenParam (queryParams m) /\
  writtenMetadata m /\
  writtenScript (preRequest m) /\ writtenScript (tests m) /\
  Forall (fun l => keptInBody l = true)
         (split LF (orEmpty (HttpGenerator.generateBody stringify m))).

End OnPlatform.

End Spec.

(** ** A platform for the examples

    The examples run on this platform: a location prints as its scheme,
    [://], its authority and its path; its file-system path is its path;
    joining adds a slash and the name; [dirname] drops the last segment. *)

Definition plainPlatform : Platform :=
  {| Uri_toString u := uri_scheme u +:+ "://" +:+ uri_authority u +:+ uri_path u;
     fsPath u := uri_path u;
     Uri_file p := mkUri "file" "" p "" "";
     joinPath u entryName :=
       mkUri (uri_scheme u) (uri_authority u) (uri_path u +:+ "/" +:+ entryName)
             (uri_query u) (uri_fragment u);
     dirname p := join "/" (removelast (split "/" p)) |}.

#[export] Existing Instance plainPlatform | 100.

(** * Properties *)

Import CollectionParser HttpGenerator Spec.

(** ** Strings *)

#[local] Arguments String.append !s1 s2 : simpl nomatch.

Lemma append_nil_r (s : string) : s +:+ "" = s.
Proof. induction s as [|c s IH]; simpl; [reflexivity | f_equal; exact IH]. Qed.

Lemma append_assoc (a b c : string) : (a +:+ b) +:+ c = a +:+ (b +:+ c).
Proof. induction a as [|x a IH]; simpl; [reflexivity | f_equal; exact IH]. Qed.

Lemma isEmpty_true (s : string) : isEmpty s = true <-> s = "".
Proof. destruct s; simpl; split; congruence. Qed.

Lemma truthy_false (s : string) : truthy s = false <-> s = "".
Proof. destruct s; unfold truthy; simpl; split; congruence. Qed.

Lemma startsWith_empty (p : string) :
  startsWith p "" = true -> p = "".
Proof. destruct p; simpl; congruence. Qed.

Lemma string_length_ind (P : string -> Prop) :
  (forall s, (forall r, String.length r < String.length s -> P r) -> P s) ->
  forall s, P s.
Proof.
  intros H s. remember (String.length s) as n eqn:E.
  revert s E. induction n as [n IH] using lt_wf_ind.
  intros s ->. apply H. intros r Hr. now apply (IH _ Hr).
Qed.

(** *** White-space characters *)

Ltac bytes c := destruct c as [[] [] [] [] [] [] [] []].

Lemma isSpace_bytes (c : ascii) :
  isSpace c = true -> isCont c = false /\ plainChar c = false.
Proof. bytes c; vm_compute; intros; split; congruence. Qed.

Lemma isSpace2_bytes (c d : ascii) :
  isSpace2 c d = true ->
  isCont c = false /\ isCont d = true /\ plainChar c = false /\
  isSpace c = false /\ c <> LF /\ d <> LF.
Proof.
  unfold isSpace2. intros H. apply andb_prop in H as [Hc Hd].
  apply Ascii.eqb_eq in Hc, Hd. subst c d.
  repeat split; try reflexivity; discriminate.
Qed.

Lemma isSpace3_bytes (c d e : ascii) :
  isSpace3 c d e = true ->
  isCont c = false /\ isCont d = true /\ isCont e = true /\
  plainChar c = false /\ isSpace c = false /\
  c <> LF /\ d <> LF /\ e <> LF.
Proof.
  unfold isSpace3. intros H.
  assert (He : isCont e = true /\ e <> LF).
  { repeat (apply orb_prop in H as [H|H]);
      repeat (apply andb_prop in H as [H ?]);
      bytes e; vm_compute in *; split; congruence. }
  destruct He as [He1 He2].
  repeat (apply orb_prop in H as [H|H]);
    repeat (apply andb_prop in H as [H ?]);
    repeat match goal with
           | E : Ascii.eqb _ _ = true |- _ => apply Ascii.eqb_eq in E; subst
           end;
    repeat split; try reflexivity; try assumption; discriminate.
Qed.

Lemma afterSpace_inv (s r : string) :
  afterSpace s = Some r ->
  (exists c, s = String c r /\ isSpace c = true) \/
  (exists c d, s = String c (String d r) /\ isSpace c = false /\
               isSpace2 c d = true) \/
  (exists c d e, s = String c (String d (String e r)) /\ isSpace c = false /\
                 isSpace2 c d = false /\ isSpace3 c d e = true).
Proof.
  destruct s as [|c [|d [|e r3]]]; cbn [afterSpace]; try discriminate.
  - destruct (isSpace c) eqn:E1; [|discriminate].
    intros [= <-]. left. eauto.
  - destruct (isSpace c) eqn:E1.
    + intros [= <-]. left. eauto.
    + destruct (isSpace2 c d) eqn:E2; [|discriminate].
      intros [= <-]. right. left. eauto.
  - destruct (isSpace c) eqn:E1.
    + intros [= <-]. left. eauto.
    + destruct (isSpace2 c d) eqn:E2.
      * intros [= <-]. right. left. eauto.
      * destruct (isSpace3 c d e) eqn:E3; [|discriminate].
        intros [= <-]. right. right. exists c, d, e. auto.
Qed.

Lemma afterSpace_length (s r : string) :
  afterSpace s = Some r -> String.length r < String.length s.
Proof.
  intros H. apply afterSpace_inv in H
    as [(c & -> & _)|[(c & d & -> & _)|(c & d & e & -> & _)]]; simpl; lia.
Qed.

Lemma afterSpace_boundary (s r : string) :
  afterSpace s = Some r -> atBoundary s = true.
Proof.
  intros H. apply afterSpace_inv in H
    as [(c & -> & H)|[(c & d & -> & _ & H)|(c & d & e & -> & _ & _ & H)]];
    cbn [atBoundary].
  - apply isSpace_bytes in H as [-> _]. reflexivity.
  - apply isSpace2_bytes in H as (-> & _). reflexivity.
  - apply isSpace3_bytes in H as (-> & _). reflexivity.
Qed.

Lemma trimStart_afterSpace (s : string) :
  trimStart s = match afterSpace s with
                | Some r => trimStart r
                | None => s
                end.
Proof.
  destruct s as [|c [|d [|e r3]]]; cbn [trimStart afterSpace]; try reflexivity.
  - now destruct (isSpace c).
  - destruct (isSpace c); [reflexivity|]. now destruct (isSpace2 c d).
  - destruct (isSpace c); [reflexivity|]. destruct (isSpace2 c d); [reflexivity|].
    now destruct (isSpace3 c d e).
Qed.

Lemma trimStart_step (s r : string) :
  afterSpace s = Some r -> trimStart s = trimStart r.
Proof. intros H. now rewrite trimStart_afterSpace, H. Qed.

Lemma trimStart_stop (s : string) :
  afterSpace s = None -> trimStart s = s.
Proof. intros H. now rewrite trimStart_afterSpace, H. Qed.

(** Induction along the white space at the start of a text. *)
Lemma afterSpace_ind (P : string -> Prop) :
  (forall s, afterSpace s = None -> P s) ->
  (forall s r, afterSpace s = Some r -> P r -> P s) ->
  forall s, P s.
Proof.
  intros Hn Hs. induction s as [s IH] using string_length_ind.
  destruct (afterSpace s) as [r|] eqn:E.
  - apply (Hs s r E). apply IH. now apply afterSpace_length.
  - now apply Hn.
Qed.

Lemma trimStart_length (s : string) :
  String.length (trimStart s) <= String.length s.
Proof.
  induction s as [s H|s r H IH] using afterSpace_ind.
  - rewrite trimStart_stop by assumption. lia.
  - rewrite (trimStart_step s r H). apply afterSpace_length in H. lia.
Qed.

Lemma trimStart_fixed (s : string) :
  String.length (trimStart s) = String.length s -> trimStart s = s.
Proof.
  destruct (afterSpace s) as [r|] eqn:E.
  - rewrite (trimStart_step s r E). pose proof (trimStart_length r).
    apply afterSpace_length in E. lia.
  - intros _. now apply trimStart_stop.
Qed.

Lemma trimStart_fixed_stop (s : string) :
  trimStart s = s -> afterSpace s = None.
Proof.
  intros E. destruct (afterSpace s) as [r|] eqn:H; [|reflexivity].
  rewrite (trimStart_step s r H) in E. pose proof (trimStart_length r).
  apply afterSpace_length in H. rewrite E in *. lia.
Qed.

Lemma trimStart_idem (s : string) : trimStart (trimStart s) = trimStart s.
Proof.
  induction s as [s H|s r H IH] using afterSpace_ind.
  - rewrite (trimStart_stop s H). now apply trimStart_stop.
  - now rewrite (trimStart_step s r H).
Qed.

Lemma blank_nil : blank "" = true.
Proof. reflexivity. Qed.

Lemma blank_trimStart (w : string) : blank w = true -> trimStart w = "".
Proof. unfold blank. now intros H%isEmpty_true. Qed.

Lemma blank_step (s r : string) : afterSpace s = Some r -> blank s = blank r.
Proof. intros H. unfold blank. now rewrite (trimStart_step s r H). Qed.

Lemma blank_stop (s : string) :
  afterSpace s = None -> s <> "" -> blank s = false.
Proof.
  intros H Hne. unfold blank. rewrite (trimStart_stop s H).
  destruct s; [contradiction | reflexivity].
Qed.

Lemma blank_boundary (w : string) : blank w = true -> atBoundary w = true.
Proof.
  intros H. destruct w as [|c w]; [reflexivity|].
  destruct (afterSpace (String c w)) as [r|] eqn:E.
  - now apply afterSpace_boundary in E.
  - rewrite blank_stop in H by (auto; discriminate). discriminate.
Qed.

(** The white-space character at the start of a text is read from the text
    up to it. *)
Lemma afterSpace_app (s r t : string) :
  afterSpace s = Some r -> afterSpace (s +:+ t) = Some (r +:+ t).
Proof.
  intros H. apply afterSpace_inv in H
    as [(c & -> & H)|[(c & d & -> & H1 & H)|(c & d & e & -> & H1 & H2 & H)]];
    cbn [String.append afterSpace].
  - now rewrite H.
  - now rewrite H1, H.
  - now rewrite H1, H2, H.
Qed.

(** No white-space character reaches over a place where a character
    starts. *)
Lemma afterSpace_app_none (s t : string) :
  s <> "" -> afterSpace s = None -> atBoundary t = true ->
  afterSpace (s +:+ t) = None.
Proof.
  intros Hne H Ht.
  assert (H2 : forall c d, isSpace2 c d = true -> isCont d = true)
    by (intros c d E; now apply isSpace2_bytes in E).
  assert (H3 : forall c d e, isSpace3 c d e = true ->
                             isCont d = true /\ isCont e = true)
    by (intros c d e E; apply isSpace3_bytes in E; tauto).
  destruct s as [|c [|d [|e s]]]; [contradiction| | |].
  - cbn [afterSpace] in H. destruct (isSpace c) eqn:E1; [discriminate|].
    destruct t as [|x [|y t]]; cbn [String.append afterSpace atBoundary] in *;
      rewrite E1; try reflexivity.
    + destruct (isSpace2 c x) eqn:E2; [|reflexivity].
      apply H2 in E2. rewrite E2 in Ht. discriminate.
    + destruct (isSpace2 c x) eqn:E2.
      { apply H2 in E2. rewrite E2 in Ht. discriminate. }
      destruct (isSpace3 c x y) eqn:E3; [|reflexivity].
      apply H3 in E3 as [E3 _]. rewrite E3 in Ht. discriminate.
  - cbn [afterSpace] in H. destruct (isSpace c) eqn:E1; [discriminate|].
    destruct (isSpace2 c d) eqn:E2; [discriminate|].
    destruct t as [|x t]; cbn [String.append afterSpace atBoundary] in *;
      rewrite E1, E2; try reflexivity.
    destruct (isSpace3 c d x) eqn:E3; [|reflexivity].
    apply H3 in E3 as [_ E3]. rewrite E3 in Ht. discriminate.
  - cbn [String.append afterSpace] in *.
    destruct (isSpace c); [discriminate|].
    destruct (isSpace2 c d); [discriminate|].
    destruct (isSpace3 c d e); [discriminate | reflexivity].
Qed.

Lemma trimStart_app_blank (a b : string) :
  blank a = true -> trimStart (a +:+ b) = trimStart b.
Proof.
  induction a as [a H|a r H IH] using afterSpace_ind; intros Hb.
  - destruct a as [|c a]; [reflexivity|].
    rewrite blank_stop in Hb by (auto; discriminate). discriminate.
  - rewrite (trimStart_step _ _ (afterSpace_app a r b H)).
    apply IH. now rewrite <- (blank_step a r H).
Qed.

Lemma trimStart_app (a b : string) :
  atBoundary b = true ->
  trimStart (a +:+ b) = if blank a then trimStart b else trimStart a +:+ b.
Proof.
  intros Hb. induction a as [a H|a r H IH] using afterSpace_ind.
  - destruct a as [|c a]; [reflexivity|].
    rewrite blank_stop by (auto; discriminate).
    rewrite (trimStart_stop _ H).
    apply trimStart_stop. apply afterSpace_app_none; auto; discriminate.
  - rewrite (trimStart_step _ _ (afterSpace_app a r b H)), IH.
    now rewrite (blank_step a r H), (trimStart_step a r H).
Qed.

Lemma blank_app (a b : string) :
  atBoundary b = true -> blank (a +:+ b) = blank a && blank b.
Proof.
  intros Hb. unfold blank at 1. rewrite trimStart_app by assumption.
  destruct (blank a) eqn:Ea; [reflexivity|].
  unfold blank in Ea. destruct (trimStart a); [discriminate | reflexivity].
Qed.

(** *** [trimEnd] *)

Lemma trimEnd_blank (w : string) : blank w = true -> trimEnd w = "".
Proof. intros H. destruct w; cbn [trimEnd]; [reflexivity | now rewrite H]. Qed.

Lemma trimEnd_cons (c : ascii) (s : string) :
  blank (String c s) = false -> trimEnd (String c s) = String c (trimEnd s).
Proof. intros H. cbn [trimEnd]. now rewrite H. Qed.

Lemma blank_trimEnd (w : string) : trimEnd w = "" -> blank w = true.
Proof.
  destruct w as [|c w]; [reflexivity|]. cbn [trimEnd].
  destruct (blank (String c w)); [reflexivity | discriminate].
Qed.

Lemma trimEnd_length (s : string) :
  String.length (trimEnd s) <= String.length s.
Proof.
  induction s as [|a s IH]; cbn [trimEnd]; [simpl; lia|].
  destruct (blank (String a s)); simpl; lia.
Qed.

Lemma trimEnd_fixed (s : string) :
  String.length (trimEnd s) = String.length s -> trimEnd s = s.
Proof.
  induction s as [|a s IH]; cbn [trimEnd]; [reflexivity|].
  pose proof (trimEnd_length s).
  destruct (blank (String a s)); simpl; [lia|].
  intros E. f_equal. apply IH. lia.
Qed.

(** A string that [trim] leaves alone is left alone by both halves. *)
Lemma trim_fixed (s : string) :
  trim s = s -> trimStart s = s /\ trimEnd s = s.
Proof.
  unfold trim. intros E.
  pose proof (trimStart_length s). pose proof (trimEnd_length (trimStart s)).
  assert (Hs : trimStart s = s).
  { apply trimStart_fixed. rewrite E in *. lia. }
  rewrite Hs in E. auto.
Qed.

(** What [trimEnd] drops is white space. *)
Lemma trimEnd_split (s : string) :
  exists w, s = trimEnd s +:+ w /\ blank w = true.
Proof.
  induction s as [|c s (w & E & Hw)].
  - exists "". auto.
  - cbn [trimEnd]. destruct (blank (String c s)) eqn:B.
    + exists (String c s). auto.
    + exists w. split; [|exact Hw]. cbn [String.append]. now rewrite <- E.
Qed.

Lemma trimEnd_app_blank (a w : string) :
  blank w = true -> trimEnd (a +:+ w) = trimEnd a.
Proof.
  intros Hw. pose proof (blank_boundary w Hw) as Hb.
  induction a as [|c a IH]; cbn [String.append].
  - now apply trimEnd_blank.
  - cbn [trimEnd]. change (String c (a +:+ w)) with (String c a +:+ w).
    rewrite (blank_app _ _ Hb), Hw, andb_true_r, IH. reflexivity.
Qed.

Lemma trimEnd_app (a b : string) :
  atBoundary b = true -> blank b = false ->
  trimEnd (a +:+ b) = a +:+ trimEnd b.
Proof.
  intros Hb Hn. induction a as [|c a IH]; cbn [String.append]; [reflexivity|].
  cbn [trimEnd]. change (String c (a +:+ b)) with (String c a +:+ b).
  rewrite (blank_app _ _ Hb), Hn, andb_false_r, IH. reflexivity.
Qed.

Lemma trimEnd_cons_space (c : ascii) (b : string) :
  isSpace c = true -> blank b = false ->
  trimEnd (String c b) = String c (trimEnd b).
Proof.
  intros Hc Hb. apply trimEnd_cons. unfold blank in *. cbn [trimStart].
  now rewrite Hc.
Qed.

Lemma trimEnd_idem (s : string) : trimEnd (trimEnd s) = trimEnd s.
Proof.
  destruct (trimEnd_split s) as (w & E & Hw).
  rewrite E at 2. now rewrite trimEnd_app_blank.
Qed.

Lemma trim_app_blank (l w : string) :
  blank w = true -> trim (l +:+ w) = trim l.
Proof.
  intros Hw. unfold trim. rewrite (trimStart_app _ _ (blank_boundary w Hw)).
  destruct (blank l) eqn:Hl.
  - now rewrite (blank_trimStart w Hw), (blank_trimStart l Hl).
  - now apply trimEnd_app_blank.
Qed.

Lemma trim_blank_app (w l : string) :
  blank w = true -> trim (w +:+ l) = trim l.
Proof. intros Hw. unfold trim. now rewrite trimStart_app_blank. Qed.

Lemma trim_cons_space (c : ascii) (l : string) :
  isSpace c = true -> trim (String c l) = trim l.
Proof. intros H. unfold trim. cbn [trimStart]. now rewrite H. Qed.

Lemma trim_blank (w : string) : blank w = true -> trim w = "".
Proof. intros H. unfold trim. now rewrite (blank_trimStart w H). Qed.

Lemma trim_empty_blank (l : string) : trim l = "" -> blank l = true.
Proof.
  unfold trim. intros H. apply blank_trimEnd in H. unfold blank in *.
  now rewrite trimStart_idem in H.
Qed.

(** *** Plain characters *)

Lemma plain_afterSpace (c : ascii) (s : string) :
  plainChar c = true -> afterSpace (String c s) = None.
Proof.
  intros H. destruct (afterSpace (String c s)) as [r|] eqn:E; [|reflexivity].
  apply afterSpace_inv in E
    as [(x & [= <- <-] & E)|[(x & d & [= <- _] & _ & E)|
                              (x & d & e & [= <- _] & _ & _ & E)]].
  - apply isSpace_bytes in E as [_ E]. congruence.
  - apply isSpace2_bytes in E as (_ & _ & E & _). congruence.
  - apply isSpace3_bytes in E as (_ & _ & _ & E & _). congruence.
Qed.

Lemma plain_boundary (c : ascii) (s : string) :
  plainChar c = true -> atBoundary (String c s) = true.
Proof. bytes c; vm_compute; congruence. Qed.

Lemma trimStart_plain (c : ascii) (s : string) :
  plainChar c = true -> trimStart (String c s) = String c s.
Proof. intros H. apply trimStart_stop. now apply plain_afterSpace. Qed.

Lemma blank_plain (c : ascii) (s : string) :
  plainChar c = true -> blank (String c s) = false.
Proof. intros H. unfold blank. now rewrite trimStart_plain. Qed.

Lemma trimEnd_plain (c : ascii) (s : string) :
  plainChar c = true -> trimEnd (String c s) = String c (trimEnd s).
Proof. intros H. apply trimEnd_cons. now apply blank_plain. Qed.

Lemma trim_plain (c : ascii) (s : string) :
  plainChar c = true -> trim (String c s) = String c (trimEnd s).
Proof. intros H. unfold trim. rewrite trimStart_plain by assumption. now apply trimEnd_plain. Qed.

Lemma trimEnd_nospace (s : string) :
  allChars plainChar s = true -> trimEnd s = s.
Proof.
  induction s as [|c s IH]; [reflexivity|]. cbn [allChars].
  intros [Hc Hs]%andb_prop. rewrite trimEnd_plain by assumption.
  now rewrite IH.
Qed.

Lemma trim_nospace (s : string) :
  allChars plainChar s = true -> trim s = s.
Proof.
  intros H. destruct s as [|c s]; [reflexivity|].
  pose proof H as H'. cbn [allChars] in H'. apply andb_prop in H' as [Hc _].
  unfold trim. rewrite trimStart_plain by assumption. now apply trimEnd_nospace.
Qed.

(** A text without white space at its ends, in front of a plain character. *)
Lemma trimStart_before (a : string) (c : ascii) (b : string) :
  a <> "" -> trimStart a = a -> atBoundary (String c b) = true ->
  trimStart (a +:+ String c b) = a +:+ String c b.
Proof.
  intros Hne Ha Hb. rewrite trimStart_app by assumption.
  rewrite Ha. rewrite blank_stop; auto. now apply trimStart_fixed_stop.
Qed.

(** *** Line terminators *)

Lemma noLineTerminator_app (a b : string) :
  atBoundary b = true ->
  noLineTerminator (a +:+ b) = noLineTerminator a && noLineTerminator b.
Proof.
  intros Hb.
  assert (H3 : forall c d e, isLineTerminator3 c d e = true ->
                             isCont d = true /\ isCont e = true).
  { intros c d e H. unfold isLineTerminator3 in H.
    apply andb_prop in H as [[_ Hd]%andb_prop He].
    apply Ascii.eqb_eq in Hd. subst d.
    apply orb_prop in He as [He|He]; apply Ascii.eqb_eq in He; subst e; auto. }
  induction a as [|c a IH]; [reflexivity|].
  cbn [String.append noLineTerminator]. rewrite IH.
  rewrite <- !andb_assoc. f_equal. rewrite !andb_assoc. f_equal. f_equal. f_equal.
  destruct a as [|d [|e a]]; cbn [String.append]; try reflexivity.
  - destruct b as [|x [|y b]]; try reflexivity.
    destruct (isLineTerminator3 c x y) eqn:E; [|reflexivity].
    apply H3 in E as [E _]. cbn [atBoundary] in Hb. rewrite E in Hb. discriminate.
  - destruct b as [|x b]; try reflexivity.
    destruct (isLineTerminator3 c d x) eqn:E; [|reflexivity].
    apply H3 in E as [_ E]. cbn [atBoundary] in Hb. rewrite E in Hb. discriminate.
Qed.

Lemma noLineTerminator_plain (s : string) :
  allChars (fun c => plainChar c && negb (isLineTerminator c)) s = true ->
  noLineTerminator s = true.
Proof.
  induction s as [|c s IH]; [reflexivity|]. cbn [allChars noLineTerminator].
  intros [[Hc Hl]%andb_prop Hs]%andb_prop. rewrite Hl, (IH Hs).
  destruct s as [|d [|e s]]; try reflexivity.
  unfold isLineTerminator3.
  replace (Ascii.eqb c "226") with false; [reflexivity|].
  revert Hc. clear. bytes c; vm_compute; congruence.
Qed.

Lemma noLineTerminator_LF (s : string) :
  noLineTerminator s = true -> includes nl s = false.
Proof.
  induction s as [|c s IH]; [reflexivity|].
  cbn [noLineTerminator]. intros [[Hc _]%andb_prop Hs]%andb_prop.
  cbn [includes nl startsWith]. rewrite (IH Hs), orb_false_r.
  unfold isLineTerminator in Hc. apply negb_true_iff, orb_false_elim in Hc as [Hc _].
  change LF with "010"%char. rewrite Ascii.eqb_sym, Hc. reflexivity.
Qed.

Lemma includes_char_cons (c a : ascii) (s : string) :
  includes (String c "") (String a s) = Ascii.eqb c a || includes (String c "") s.
Proof. simpl. now rewrite andb_true_r. Qed.

Lemma includes_char_nil (c : ascii) : includes (String c "") "" = false.
Proof. reflexivity. Qed.

Lemma split_not_nil (c : ascii) (s : string) : split c s <> [].
Proof.
  destruct s as [|a s]; simpl; [discriminate|].
  destruct (Ascii.eqb a c); [discriminate|]. destruct (split c s); discriminate.
Qed.

Lemma split_absent (c : ascii) (s : string) :
  includes (String c "") s = false -> split c s = [s].
Proof.
  induction s as [|a s IH]; [reflexivity|].
  rewrite includes_char_cons. intros H. apply orb_false_elim in H as [Ha Hs].
  simpl. rewrite Ascii.eqb_sym, Ha, (IH Hs). reflexivity.
Qed.

Lemma split_at_first (c : ascii) (s t : string) :
  includes (String c "") s = false ->
  split c (s +:+ String c t) = s :: split c t.
Proof.
  induction s as [|a s IH]; intros H.
  - simpl. now rewrite Ascii.eqb_refl.
  - rewrite includes_char_cons in H. apply orb_false_elim in H as [Ha Hs].
    simpl. rewrite Ascii.eqb_sym, Ha, (IH Hs). reflexivity.
Qed.

(** ** Lines, [split] and [join] *)

Lemma split_app (c : ascii) (a b : string) :
  split c (a +:+ String c b) = split c a ++ split c b.
Proof.
  induction a as [|x a IH]; simpl.
  - now rewrite Ascii.eqb_refl.
  - rewrite IH. destruct (Ascii.eqb x c); [reflexivity|].
    destruct (split c a) eqn:E; [now apply split_not_nil in E | reflexivity].
Qed.

Lemma split_join (c : ascii) (ls : list string) :
  ls <> [] -> split c (join (String c "") ls) = flat_map (split c) ls.
Proof.
  induction ls as [|x ls IH]; [congruence|]. intros _.
  destruct ls as [|y ls].
  - simpl. now rewrite app_nil_r.
  - change (join (String c "") (x :: y :: ls))
      with (x +:+ String c (join (String c "") (y :: ls))).
    rewrite split_app, IH by discriminate. reflexivity.
Qed.

Lemma split_lines_free (c : ascii) (s : string) :
  Forall (fun l => includes (String c "") l = false) (split c s).
Proof.
  induction s as [|a s IH]; simpl.
  - repeat constructor.
  - destruct (Ascii.eqb a c) eqn:E.
    + constructor; [reflexivity | exact IH].
    + destruct (split c s) as [|x xs]; [repeat constructor; simpl; now rewrite Ascii.eqb_sym, E|].
      inversion IH; subst. constructor; [|assumption].
      rewrite includes_char_cons, Ascii.eqb_sym, E. assumption.
Qed.

(** Joining lines and splitting again gives the lines back. *)
Lemma split_join_lines (c : ascii) (ls : list string) :
  ls <> [] -> Forall (fun l => includes (String c "") l = false) ls ->
  split c (join (String c "") ls) = ls.
Proof.
  intros Hne H. rewrite split_join by exact Hne. clear Hne.
  induction H as [|l ls Hl _ IH]; simpl; [reflexivity|].
  now rewrite (split_absent _ _ Hl), IH.
Qed.


(** ** White space at the ends of lines *)

Lemma split_cons_other (c a : ascii) (s : string) :
  Ascii.eqb a c = false ->
  exists x xs, split c s = x :: xs /\ split c (String a s) = String a x :: xs.
Proof.
  intros E. cbn [split]. rewrite E.
  destruct (split c s) as [|x xs] eqn:S; [now apply split_not_nil in S|].
  eauto.
Qed.

(** The first line of white space is white space. *)
Lemma split_blank_head (w : string) :
  blank w = true ->
  exists w0 rest, split LF w = w0 :: rest /\ blank w0 = true.
Proof.
  induction w as [w H|w r H IH] using afterSpace_ind; intros Hw.
  - destruct w as [|c w]; [exists "", []; auto|].
    rewrite blank_stop in Hw by (auto; discriminate). discriminate.
  - rewrite (blank_step w r H) in Hw. destruct (IH Hw) as (w0 & rest & E & B).
    apply afterSpace_inv in H
      as [(c & -> & Hc)|[(c & d & -> & Hc & Hd)|(c & d & e & -> & Hc & Hd & He)]].
    + cbn [split]. destruct (Ascii.eqb c LF); [exists "", (split LF r); auto|].
      rewrite E. exists (String c w0), rest. split; [reflexivity|].
      unfold blank in *. cbn [trimStart]. now rewrite Hc.
    + pose proof (isSpace2_bytes c d Hd) as (_ & _ & _ & _ & Nc & Nd).
      apply Ascii.eqb_neq in Nc, Nd. cbn [split]. rewrite Nc, Nd, E.
      exists (String c (String d w0)), rest. split; [reflexivity|].
      unfold blank in *. cbn [trimStart]. now rewrite Hc, Hd.
    + pose proof (isSpace3_bytes c d e He) as (_ & _ & _ & _ & _ & Nc & Nd & Ne).
      apply Ascii.eqb_neq in Nc, Nd, Ne. cbn [split]. rewrite Nc, Nd, Ne, E.
      exists (String c (String d (String e w0))), rest. split; [reflexivity|].
      unfold blank in *. cbn [trimStart]. now rewrite Hc, Hd, He.
Qed.

Lemma app_blank_lines (t w : string) :
  blank w = true -> endRel (split LF t) (split LF (t +:+ w)).
Proof.
  intros Hw. induction t as [|c t IH].
  - destruct (split_blank_head w Hw) as (w0 & rest & E & B).
    cbn [String.append split]. rewrite E. apply (endRel_last "" w0 rest B).
  - cbn [String.append split]. destruct (Ascii.eqb c LF).
    + now apply endRel_cons.
    + inversion IH as [l w0 rest B Hl Hr | x xs' xs Hrel Hx Hxs]; subst.
      * apply (endRel_last (String c l) w0 rest B).
      * now apply endRel_cons.
Qed.

Lemma trimEnd_lines (s : string) :
  endRel (split LF (trimEnd s)) (split LF s).
Proof.
  destruct (trimEnd_split s) as (w & E & Hw).
  rewrite E at 2. now apply app_blank_lines.
Qed.

Lemma endRel_trim (xs' xs : list string) :
  endRel xs' xs ->
  forall l', In l' xs' -> exists l, In l xs /\ trim l' = trim l.
Proof.
  induction 1 as [l w rest Hw | x xs' xs _ IH]; intros l' Hin.
  - destruct Hin as [<- | []]. exists (l +:+ w). split; [now left|].
    symmetry. now apply trim_app_blank.
  - destruct Hin as [<- | Hin].
    + exists x. split; [now left | reflexivity].
    + destruct (IH _ Hin) as (l & Hl & Ht). exists l. split; [now right | exact Ht].
Qed.

(** The lines behind a white-space character at the start of a text. *)
Lemma space_lines (s r l : string) :
  afterSpace s = Some r -> In l (split LF r) ->
  exists l2, In l2 (split LF s) /\ trim l2 = trim l.
Proof.
  intros H Hin.
  assert (G : forall p, blank p = true ->
                        (exists x xs, split LF r = x :: xs /\
                                      split LF (p +:+ r) = (p +:+ x) :: xs) ->
                        exists l2, In l2 (split LF (p +:+ r)) /\ trim l2 = trim l).
  { intros p Hp (x & xs & E1 & E2). rewrite E2. rewrite E1 in Hin.
    destruct Hin as [<- | Hin].
    - exists (p +:+ x). split; [now left | now apply trim_blank_app].
    - exists l. split; [now right | reflexivity]. }
  apply afterSpace_inv in H
    as [(c & -> & Hc)|[(c & d & -> & Hc & Hd)|(c & d & e & -> & Hc & Hd & He)]].
  - destruct (Ascii.eqb c LF) eqn:E.
    + cbn [split]. rewrite E. exists l. split; [now right | reflexivity].
    + apply (G (String c "")).
      * unfold blank. cbn [trimStart]. now rewrite Hc.
      * destruct (split_cons_other LF c r E) as (x & xs & E1 & E2). eauto.
  - pose proof (isSpace2_bytes c d Hd) as (_ & _ & _ & _ & Nc & Nd).
    apply Ascii.eqb_neq in Nc, Nd.
    apply (G (String c (String d ""))).
    + unfold blank. cbn [trimStart]. now rewrite Hc, Hd.
    + destruct (split_cons_other LF d r Nd) as (x & xs & E1 & E2).
      exists x, xs. split; [exact E1|]. cbn [String.append split] in *.
      now rewrite Nc, E2.
  - pose proof (isSpace3_bytes c d e He) as (_ & _ & _ & _ & _ & Nc & Nd & Ne).
    apply Ascii.eqb_neq in Nc, Nd, Ne.
    apply (G (String c (String d (String e "")))).
    + unfold blank. cbn [trimStart]. now rewrite Hc, Hd, He.
    + destruct (split_cons_other LF e r Ne) as (x & xs & E1 & E2).
      exists x, xs. split; [exact E1|]. cbn [String.append split] in *.
      rewrite Nc. cbn [split] in E2. rewrite Ne in E2. rewrite Nd, Ne.
      destruct (split LF r) as [|y ys]; [discriminate|].
      injection E1 as <- <-. reflexivity.
Qed.

Lemma trimStart_lines (s : string) (l' : string) :
  In l' (split LF (trimStart s)) ->
  exists l, In l (split LF s) /\ trim l' = trim l.
Proof.
  induction s as [s H|s r H IH] using afterSpace_ind; intros Hin.
  - rewrite (trimStart_stop s H) in Hin. exists l'. auto.
  - rewrite (trimStart_step s r H) in Hin.
    destruct (IH Hin) as (l & Hl & Ht).
    destruct (space_lines s r l H Hl) as (l2 & Hl2 & Ht2).
    exists l2. split; [exact Hl2 | congruence].
Qed.

(** Every line of [trim s] is a line of [s], up to white space at its
    ends. *)
Lemma trim_lines (s : string) (l' : string) :
  In l' (split LF (trim s)) ->
  exists l, In l (split LF s) /\ trim l' = trim l.
Proof.
  intros Hin. unfold trim in Hin.
  destruct (endRel_trim _ _ (trimEnd_lines (trimStart s)) _ Hin) as (l1 & H1 & E1).
  destruct (trimStart_lines _ _ H1) as (l & Hl & E).
  exists l. split; [exact Hl | congruence].
Qed.

(** ** detectBodyType (C4) *)

Lemma declaredContentType_absent (hs : list RequestHeader) :
  Forall (fun h => toLowerCase (h_key h) <> "content-type") hs ->
  declaredContentType hs = "".
Proof.
  unfold declaredContentType. induction 1 as [|h hs Hh _ IH]; simpl.
  - reflexivity.
  - destruct (String.eqb_spec (toLowerCase (h_key h)) "content-type") as [E|_].
    + contradiction.
    + exact IH.
Qed.

(** C4, as stated, fails: a text that contains [query] and starts with a
    brace is classified as json, with no declared content type; and with a
    declared form-encoded type a text that starts with a bracket is json. *)
Lemma detectBodyType_counterexample :
  (includes "query" "{ query: 1 }" = true /\
   body_type (detectBodyType "{ query: 1 }" []) = BodyJson) /\
  body_type (detectBodyType "[a]=1"
     [mkHeader "Content-Type" "application/x-www-form-urlencoded" true])
  = BodyJson.
Proof. repeat split; reflexivity. Qed.

(** C4, amended: the classification is a first-match cascade.  Without a
    Content-Type header: json when the trimmed text starts with a brace or
    a bracket; otherwise graphql when the text contains [query] or
    [mutation]; otherwise raw.  With any headers: json when the declared
    type contains application/json or the text starts so; otherwise form,
    then form-data, for the declared form-encoded and multipart types;
    otherwise graphql when the declared type contains application/graphql
    or the text contains [query] or [mutation]; otherwise raw. *)
Theorem detectBodyType_cascade (body : string) (hs : list RequestHeader) :
  let ct := declaredContentType hs in
  let jsonText := startsWith "{" (trim body) || startsWith "[" (trim body) in
  let gqlText := includes "query" body || includes "mutation" body in
  let json := mkBody BodyJson (Some body) None None in
  let gql := mkBody BodyGraphql None None (Some (mkGraphQL body None)) in
  let raw := mkBody BodyRaw (Some body) None None in
  (Forall (fun h => toLowerCase (h_key h) <> "content-type") hs ->
     (jsonText = true -> detectBodyType body hs = json) /\
     (jsonText = false -> gqlText = true -> detectBodyType body hs = gql) /\
     (jsonText = false -> gqlText = false -> detectBodyType body hs = raw)) /\
  (includes "application/json" ct || jsonText = true ->
     detectBodyType body hs = json) /\
  (includes "application/json" ct || jsonText = false ->
     (includes "application/x-www-form-urlencoded" ct = true ->
        detectBodyType body hs = mkBody BodyForm (Some body) None None) /\
     (includes "application/x-www-form-urlencoded" ct = false ->
        (includes "multipart/form-data" ct = true ->
           detectBodyType body hs = mkBody BodyFormData (Some body) None None) /\
        (includes "multipart/form-data" ct = false ->
           (includes "application/graphql" ct || gqlText = true ->
              detectBodyType body hs = gql) /\
           (includes "application/graphql" ct || gqlText = false ->
              detectBodyType body hs = raw)))).
Proof.
  cbv zeta. split.
  - intros Hno. unfold detectBodyType.
    rewrite (declaredContentType_absent hs Hno).
    change (includes "application/json" "") with false.
    change (includes "application/x-www-form-urlencoded" "") with false.
    change (includes "multipart/form-data" "") with false.
    change (includes "application/graphql" "") with false.
    cbn [orb]. repeat split; intros; repeat match goal with
      | H : _ = _ |- _ => rewrite H
      end; reflexivity.
  - unfold detectBodyType. rewrite <- !orb_assoc.
    repeat split; intros; repeat match goal with
      | H : _ = _ |- _ => rewrite H
      end; reflexivity.
Qed.

Lemma detectBodyType_cascade_witness :
  detectBodyType "query { x }" []
  = mkBody BodyGraphql None None (Some (mkGraphQL "query { x }" None)).
Proof.
  apply (proj1 (detectBodyType_cascade "query { x }" [])).
  - constructor.
  - reflexivity.
  - reflexivity.
Defined.

(** ** One turn of the parser *)

Ltac case_ifs :=
  repeat match goal with
  | |- context [if ?b then _ else _] => destruct b eqn:?
  end.

Lemma splitUrl_base (base rest : string) :
  includes "?" base = false ->
  fst (splitUrl (base +:+ "?" +:+ rest)) = base.
Proof.
  intros H. unfold splitUrl. change ("?" +:+ rest) with (String "?" rest).
  rewrite (split_at_first _ _ _ H).
  destruct (split "?" rest) eqn:E; [now apply split_not_nil in E | reflexivity].
Qed.

Lemma splitUrl_one (base q : string) :
  includes "?" base = false -> includes "?" q = false ->
  splitUrl (base +:+ "?" +:+ q) = (base, Some q).
Proof.
  intros Hb Hq. unfold splitUrl. change ("?" +:+ q) with (String "?" q).
  rewrite (split_at_first _ _ _ Hb), (split_absent _ _ Hq). reflexivity.
Qed.

Lemma splitUrl_none (u : string) :
  includes "?" u = false -> splitUrl u = (u, None).
Proof. intros H. unfold splitUrl. now rewrite (split_absent _ _ H). Qed.

Lemma applyRequestLine_method (m : HttpMethod) (g2 : string) (r : UIRequest) :
  method (applyRequestLine m g2 r) = m.
Proof.
  unfold applyRequestLine. destruct (splitUrl (trim g2)) as [b q].
  destruct (truthyOpt q); reflexivity.
Qed.

Lemma applyRequestLine_url (m : HttpMethod) (g2 : string) (r : UIRequest) :
  url (applyRequestLine m g2 r) = fst (splitUrl (trim g2)).
Proof.
  unfold applyRequestLine. destruct (splitUrl (trim g2)) as [b q].
  destruct (truthyOpt q); reflexivity.
Qed.

Lemma applyRequestLine_headers (m : HttpMethod) (g2 : string) (r : UIRequest) :
  headers (applyRequestLine m g2 r) = headers r.
Proof.
  unfold applyRequestLine. destruct (splitUrl (trim g2)) as [b q].
  destruct (truthyOpt q); reflexivity.
Qed.

Lemma applyRequestLine_body (m : HttpMethod) (g2 : string) (r : UIRequest) :
  body (applyRequestLine m g2 r) = body r.
Proof.
  unfold applyRequestLine. destruct (splitUrl (trim g2)) as [b q].
  destruct (truthyOpt q); reflexivity.
Qed.

Lemma applyRequestLine_queryParams (m : HttpMethod) (g2 : string) (r : UIRequest) :
  queryParams (applyRequestLine m g2 r)
  = queryParams r ++
    map (fun kv => mkParam (fst kv) (snd kv) true)
        (URLSearchParams (orEmpty (snd (splitUrl (trim g2))))).
Proof.
  unfold applyRequestLine. destruct (splitUrl (trim g2)) as [b [q|]]; simpl.
  - destruct q; simpl; [now rewrite app_nil_r | reflexivity].
  - now rewrite app_nil_r.
Qed.

(** The guards of [processLine], one after the other. *)

(** A request line changes the method, the URL and the query parameters,
    and nothing else. *)
Lemma applyRequestLine_rest (m : HttpMethod) (g2 : string) (r : UIRequest) :
  let r' := applyRequestLine m g2 r in
  id r' = id r /\ name r' = name r /\ description r' = description r /\
  tags r' = tags r /\ preRequest r' = preRequest r /\ tests r' = tests r /\
  fileUri r' = fileUri r.
Proof.
  unfold applyRequestLine. destruct (splitUrl (trim g2)) as [b q].
  destruct (truthyOpt q); cbn; auto 10.
Qed.

(** The guards of [processLine], one after the other. *)
Ltac guards l :=
  destruct (String.eqb (trim l) "###") eqn:?;
  [| destruct (startsWith "# @name " (trim l)) eqn:?;
  [| destruct (startsWith "# @description " (trim l)) eqn:?;
  [| destruct (startsWith "# @tag " (trim l)) eqn:?;
  [| destruct (startsWith "{{" (trim l)) eqn:?;
  [| destruct (startsWith "}}" (trim l)) eqn:? ]]]]].

(** Every branch of [processLine], with what [applyRequestLine] keeps at
    hand. *)
Ltac branches st l :=
  unfold processLine;
  repeat first
    [ progress cbn [negb andb orb]
    | match goal with
      | |- context [match scriptType st with _ => _ end] =>
          destruct (scriptType st) as [[]|]
      | |- context [match matchRequestLine ?t with _ => _ end] =>
          destruct (matchRequestLine t) as [[?m ?g2]|]
      | |- context [match cut ":" ?t with _ => _ end] =>
          destruct (cut ":" t) as [[?k ?v]|]
      | |- context [if ?b then _ else _] => destruct b eqn:?
      end ];
  cbn [updRequest request inBody bodyLines inScript scriptType scriptLines];
  try match goal with
      | |- context [applyRequestLine ?m ?g2 ?r] =>
          pose proof (applyRequestLine_rest m g2 r) as (? & ? & ? & ? & ? & ? & ?);
          rewrite ?applyRequestLine_headers, ?applyRequestLine_body
      end;
  cbn; auto.

Lemma processLine_untouched (st : ParseState) (l : string) :
  matchRequestLine (trim l) = None -> untouched st -> untouched (processLine st l).
Proof.
  intros Hm (Hme & Hu & Hq & Hb & Hi & Hl). unfold processLine, untouched.
  rewrite Hm, Hi, Hu. cbn [negb andb truthy isEmpty].
  rewrite andb_false_r. cbn [andb].
  destruct (cut ":" (trim l)) as [[k v]|];
    case_ifs; try destruct (scriptType st) as [[]|]; cbn; auto 10.
Qed.

Lemma processLine_identity (st : ParseState) (l : string) :
  id (request (processLine st l)) = id (request st) /\
  fileUri (request (processLine st l)) = fileUri (request st).
Proof. branches st l; split; congruence. Qed.

Lemma processLine_name (st : ParseState) (l : string) :
  startsWith "# @name " (trim l) = false ->
  name (request (processLine st l)) = name (request st).
Proof. intros H. branches st l; try split; congruence. Qed.

Lemma processLine_description (st : ParseState) (l : string) :
  startsWith "# @description " (trim l) = false ->
  description (request (processLine st l)) = description (request st).
Proof. intros H. branches st l; try split; congruence. Qed.

Lemma processLine_tags (st : ParseState) (l : string) :
  startsWith "# @tag " (trim l) = false ->
  tags (request (processLine st l)) = tags (request st).
Proof. intros H. branches st l; try split; congruence. Qed.

Lemma processLine_scripts (st : ParseState) (l : string) :
  startsWith "}}" (trim l) = false ->
  preRequest (request (processLine st l)) = preRequest (request st) /\
  tests (request (processLine st l)) = tests (request st).
Proof. intros H. branches st l; try split; congruence. Qed.

Lemma processLine_no_header (st : ParseState) (l : string) :
  includes ":" (trim l) = false ->
  headers (request (processLine st l)) = headers (request st).
Proof.
  intros H. unfold processLine. rewrite H, andb_false_r.
  guards l; cbn [negb andb orb]; auto.
  - destruct (scriptType st) as [[]|]; cbn; auto.
  - destruct (inScript st); cbn [negb andb orb]; auto.
    destruct (startsWith "#" (trim l) || startsWith "//" (trim l));
      cbn [negb andb orb]; auto.
    destruct (matchRequestLine (trim l)) as [[m g2]|].
    + cbn [updRequest request]. apply applyRequestLine_headers.
    + case_ifs; cbn; auto.
Qed.

Lemma processLine_no_blank (st : ParseState) (l : string) :
  isEmpty (trim l) = false ->
  inBody st = false /\ bodyLines st = [] ->
  inBody (processLine st l) = false /\ bodyLines (processLine st l) = [].
Proof.
  intros H [Hi Hl]. unfold processLine. rewrite H, Hi, andb_false_r.
  cbn [negb andb].
  guards l; cbn [negb andb orb]; auto.
  destruct (inScript st); cbn [negb andb orb]; auto.
  destruct (startsWith "#" (trim l) || startsWith "//" (trim l));
    cbn [negb andb orb]; auto.
  destruct (matchRequestLine (trim l)) as [[m g2]|]; auto.
  destruct (cut ":" (trim l)) as [[k v]|]; case_ifs; cbn; auto.
Qed.

(** What every turn keeps holds at the end of the loop. *)
Lemma parseLines_keeps (P : ParseState -> Prop) (Q : string -> Prop) :
  (forall st l, Q l -> P st -> P (processLine st l)) ->
  forall ls st, Forall Q ls -> P st -> P (parseLines st ls).
Proof.
  intros Hstep ls st H. revert st.
  induction H as [|l ls Hl _ IH]; intros st Hst; simpl; [exact Hst|].
  apply IH. now apply Hstep.
Qed.

Lemma parseLines_untouched (ls : list string) (st : ParseState) :
  Forall (fun l => matchRequestLine (trim l) = None) ls ->
  untouched st -> untouched (parseLines st ls).
Proof.
  intros H. apply (parseLines_keeps untouched _ processLine_untouched ls st H).
Qed.

Lemma processBody_rest (st : ParseState) :
  let r := processBody st in
  id r = id (request st) /\ name r = name (request st) /\
  description r = description (request st) /\ tags r = tags (request st) /\
  preRequest r = preRequest (request st) /\ tests r = tests (request st) /\
  fileUri r = fileUri (request st).
Proof.
  unfold processBody. destruct (bodyLines st); simpl; auto 10.
  case_ifs; simpl; auto 10.
Qed.

Lemma processLine_request_line (st : ParseState) (l : string)
  (m : HttpMethod) (g2 : string) :
  requestLineOf st l = Some (m, g2) ->
  processLine st l = updRequest (applyRequestLine m g2) st.
Proof.
  unfold requestLineOf, reachesPattern, metadataMarker, commentLike, processLine.
  guards l; cbn [negb andb orb]; try discriminate.
  destruct (inScript st); cbn [negb andb orb]; try discriminate.
  destruct (startsWith "#" (trim l) || startsWith "//" (trim l));
    cbn [negb andb orb]; try discriminate.
  intros ->. reflexivity.
Qed.

Lemma processLine_other_line (st : ParseState) (l : string) :
  requestLineOf st l = None ->
  let r := request st in
  let r' := request (processLine st l) in
  method r' = method r /\ url r' = url r /\ queryParams r' = queryParams r.
Proof.
  unfold requestLineOf, reachesPattern, metadataMarker, commentLike, processLine.
  guards l; cbn [negb andb orb]; auto.
  - destruct (scriptType st) as [[]|]; auto.
  - destruct (inScript st); cbn [negb andb orb]; auto.
    destruct (startsWith "#" (trim l) || startsWith "//" (trim l));
      cbn [negb andb orb]; auto.
    intros ->. destruct (cut ":" (trim l)) as [[k v]|]; case_ifs; cbn; auto.
Qed.

Lemma parseLines_no_request_line (ls : list string) (st : ParseState) :
  noRequestLine st ls ->
  let r := request st in
  let r' := request (parseLines st ls) in
  method r' = method r /\ url r' = url r /\ queryParams r' = queryParams r.
Proof.
  revert st. induction ls as [|l ls IH]; intros st H; simpl in *.
  - auto.
  - destruct H as [Hl Hls].
    destruct (IH _ Hls) as (Hm & Hu & Hq).
    destruct (processLine_other_line st l Hl) as (Hm' & Hu' & Hq').
    unfold parseLines in *. rewrite Hm, Hu, Hq. auto.
Qed.

Lemma parseLines_app (st : ParseState) (xs ys : list string) :
  parseLines st (xs ++ ys) = parseLines (parseLines st xs) ys.
Proof. unfold parseLines. apply fold_left_app. Qed.

Lemma processBody_fields (st : ParseState) :
  let r := processBody st in
  method r = method (request st) /\ url r = url (request st) /\
  queryParams r = queryParams (request st) /\ headers r = headers (request st).
Proof.
  unfold processBody. destruct (bodyLines st); simpl; auto.
  case_ifs; simpl; auto.
Qed.

(** ** The request-line pattern *)

Lemma spanSpace_stop (s : string) :
  afterSpace s = None -> spanSpace s = ([], s).
Proof.
  destruct s as [|c [|d [|e s]]]; cbn [afterSpace spanSpace]; try reflexivity.
  - destruct (isSpace c); [discriminate | reflexivity].
  - destruct (isSpace c); [discriminate|].
    destruct (isSpace2 c d); [discriminate | reflexivity].
  - destruct (isSpace c); [discriminate|].
    destruct (isSpace2 c d); [discriminate|].
    destruct (isSpace3 c d e); [discriminate | reflexivity].
Qed.

Lemma spanSpace_nonspace (u : string) :
  trimStart u = u -> spanSpace u = ([], u).
Proof. intros H. apply spanSpace_stop. now apply trimStart_fixed_stop. Qed.

Lemma matchTail_stop (rest : string) :
  afterSpace rest = None -> matchTail rest = None.
Proof. intros H. unfold matchTail. now rewrite (spanSpace_stop rest H). Qed.

Lemma matchTail_simple (u : string) :
  u <> "" -> trimStart u = u -> noLineTerminator u = true ->
  matchTail (" " +:+ u) = Some u.
Proof.
  intros Hne Ht Hl. unfold matchTail.
  change (" " +:+ u) with (String " " u). cbn [spanSpace].
  change (isSpace " ") with true. cbn iota.
  rewrite (spanSpace_nonspace u Ht).
  destruct u; [congruence|]. cbn [isEmpty]. now rewrite Hl.
Qed.

(** A line made of a method name, one blank and a URL text matches the
    request-line pattern. *)
Lemma matchRequestLine_simple (m : HttpMethod) (u : string) :
  u <> "" -> trimStart u = u -> noLineTerminator u = true ->
  matchRequestLine (methodName m +:+ " " +:+ u) = Some (m, u).
Proof.
  intros Hne Ht Hl. pose proof (matchTail_simple u Hne Ht Hl) as Hm.
  change (" " +:+ u) with (String " " u) in Hm.
  unfold matchRequestLine, methods.
  destruct m; cbn [matchAlternatives methodName String.append stripPrefixCI];
    repeat (cbn [upperChar isLower nat_of_ascii] ||
            match goal with
            | |- context [Ascii.eqb ?a ?b] =>
                let v := eval vm_compute in (Ascii.eqb a b) in
                change (Ascii.eqb a b) with v; cbv iota
            end);
    try (rewrite Hm; reflexivity).
Qed.

(** A text that does not start with a method name and white space matches
    no alternative of the pattern. *)
Lemma matchAlternatives_none (ms : list HttpMethod) (s : string) :
  existsb (fun m => match stripPrefixCI (methodName m) s with
                    | Some rest => match afterSpace rest with
                                   | Some _ => true
                                   | None => false
                                   end
                    | None => false
                    end) ms = false ->
  matchAlternatives ms s = None.
Proof.
  induction ms as [|m ms IH]; [reflexivity|]. cbn [existsb matchAlternatives].
  intros [H1 H2]%orb_false_elim.
  destruct (stripPrefixCI (methodName m) s) as [rest|]; [|now apply IH].
  destruct (afterSpace rest) eqn:E; [discriminate|].
  rewrite (matchTail_stop rest E). now apply IH.
Qed.

Lemma matchRequestLine_none (s : string) :
  methodThenSpace s = false -> matchRequestLine s = None.
Proof. apply matchAlternatives_none. Qed.

Lemma matchRequestLine_method_only (m : HttpMethod) :
  matchRequestLine (methodName m) = None.
Proof. destruct m; reflexivity. Qed.

Lemma matchRequestLine_empty : matchRequestLine "" = None.
Proof. reflexivity. Qed.

Lemma blank_fixed (u : string) : u <> "" -> trimStart u = u -> blank u = false.
Proof.
  intros Hne H. unfold blank. rewrite H. destruct u; [contradiction | reflexivity].
Qed.

Lemma trim_method_line (m : HttpMethod) (u : string) :
  u <> "" -> trim u = u ->
  trim (methodName m +:+ " " +:+ u) = methodName m +:+ " " +:+ u.
Proof.
  intros Hne Hu. destruct (trim_fixed u Hu) as [Hstart Hend].
  pose proof (blank_fixed u Hne Hstart) as Hb.
  unfold trim.
  destruct m; cbn [methodName String.append];
    rewrite trimStart_plain by reflexivity;
    rewrite !trimEnd_plain by reflexivity;
    rewrite trimEnd_cons_space by (reflexivity || exact Hb);
    now rewrite Hend.
Qed.

Lemma requestLineOf_generated (st : ParseState) (m : HttpMethod) (u : string) :
  inScript st = false -> u <> "" -> trim u = u ->
  noLineTerminator u = true ->
  trim (methodName m +:+ " " +:+ u) = methodName m +:+ " " +:+ u /\
  requestLineOf st (methodName m +:+ " " +:+ u) = Some (m, u).
Proof.
  intros Hs Hne Hu Hl.
  destruct (trim_fixed u Hu) as [Hstart Hend].
  pose proof (trim_method_line m u Hne Hu) as Ht.
  split; [exact Ht|].
  unfold requestLineOf, reachesPattern, metadataMarker, commentLike.
  rewrite Ht, Hs.
  rewrite (matchRequestLine_simple m u Hne Hstart Hl).
  destruct m; reflexivity.
Qed.

(** ** parseHttpText: defaults (C5) *)

Section Defaults.

Context {platform : Platform}.

Lemma parseLines_identity (ls : list string) (st : ParseState) :
  id (request (parseLines st ls)) = id (request st) /\
  fileUri (request (parseLines st ls)) = fileUri (request st).
Proof.
  apply (parseLines_keeps
           (fun s => id (request s) = id (request st) /\
                     fileUri (request s) = fileUri (request st))
           (fun _ => True)); auto.
  - intros s l _ [H1 H2]. destruct (processLine_identity s l) as [E1 E2].
    split; congruence.
  - now apply List.Forall_forall.
Qed.

(** C5.  [parseHttpText] has no error result: it is a function from every
    text to a request.  The empty text gives the default request.  For any
    text, each piece that the text does not give keeps its default: the
    name is "New Request" when no line is a name marker; there is no
    description and there are no tags without their markers; the method is
    GET, the URL empty and there are no query parameters and no body when
    no line matches the request-line pattern; there are no headers when no
    line has a colon; there is no body when no line is blank; there are no
    scripts when no line closes a script block.  The identifier and the
    file reference come from the arguments.  A line that does not start
    with a method name and white space, or that is a method name alone,
    does not match the request-line pattern. *)
Theorem parseHttpText_total_defaults (now : string) :
  parseHttpText "" None now
  = mkRequest ("request-" +:+ now) "New Request" None None GET "" [] []
              (mkBody BodyNone None None None) None None None /\
  (forall text uri,
     let r := parseHttpText text uri now in
     let lines := split LF text in
     (id r = id (initialRequest uri now) /\
      fileUri r = option_map LiveUri uri) /\
     (Forall (fun l => startsWith "# @name " (trim l) = false) lines ->
      name r = "New Request") /\
     (Forall (fun l => startsWith "# @description " (trim l) = false) lines ->
      description r = None) /\
     (Forall (fun l => startsWith "# @tag " (trim l) = false) lines ->
      tags r = None) /\
     (Forall (fun l => matchRequestLine (trim l) = None) lines ->
      method r = GET /\ url r = "" /\ queryParams r = [] /\
      body r = mkBody BodyNone None None None) /\
     (Forall (fun l => includes ":" (trim l) = false) lines ->
      headers r = []) /\
     (Forall (fun l => trim l <> "") lines ->
      body r = mkBody BodyNone None None None) /\
     (Forall (fun l => startsWith "}}" (trim l) = false) lines ->
      preRequest r = None /\ tests r = None)) /\
  (forall l, methodThenSpace (trim l) = false ->
             matchRequestLine (trim l) = None) /\
  (forall m, matchRequestLine (methodName m) = None).
Proof.
  split; [reflexivity|]. split; [|split].
  2: { intros l. apply matchRequestLine_none. }
  2: { apply matchRequestLine_method_only. }
  intros text uri. cbv zeta. unfold parseHttpText.
  set (st0 := initialState uri now). set (ls := split LF text).
  destruct (processBody_rest (parseLines st0 ls))
    as (Eid & Ename & Edesc & Etags & Epre & Etests & Euri).
  destruct (processBody_fields (parseLines st0 ls)) as (Em & Eu & Eq & Eh).
  rewrite Eid, Ename, Edesc, Etags, Epre, Etests, Euri, Em, Eu, Eq, Eh.
  clear Eid Ename Edesc Etags Epre Etests Euri Em Eu Eq Eh.
  split; [apply parseLines_identity|].
  split; [|split; [|split; [|split; [|split; [|split]]]]].
  - intros H.
    apply (parseLines_keeps (fun s => name (request s) = "New Request") _
             (fun s l Hl Hs => eq_trans (processLine_name s l Hl) Hs) ls st0 H).
    reflexivity.
  - intros H.
    apply (parseLines_keeps (fun s => description (request s) = None) _
             (fun s l Hl Hs => eq_trans (processLine_description s l Hl) Hs)
             ls st0 H).
    reflexivity.
  - intros H.
    apply (parseLines_keeps (fun s => tags (request s) = None) _
             (fun s l Hl Hs => eq_trans (processLine_tags s l Hl) Hs) ls st0 H).
    reflexivity.
  - intros H.
    assert (Hu : untouched (parseLines st0 ls)).
    { apply parseLines_untouched; [exact H|]. repeat split. }
    destruct Hu as (Hme & Hu & Hq & Hb & _ & Hl).
    unfold processBody. rewrite Hl. auto.
  - intros H.
    apply (parseLines_keeps (fun s => headers (request s) = []) _
             (fun s l Hl Hs => eq_trans (processLine_no_header s l Hl) Hs)
             ls st0 H).
    reflexivity.
  - intros H.
    assert (Hb : inBody (parseLines st0 ls) = false /\
                 bodyLines (parseLines st0 ls) = []).
    { apply (parseLines_keeps
               (fun s => inBody s = false /\ bodyLines s = [])
               (fun l => trim l <> "")); auto.
      intros s l Hl. apply processLine_no_blank.
      destruct (trim l); [contradiction | reflexivity]. }
    destruct Hb as [_ Hb]. unfold processBody. rewrite Hb.
    apply (parseLines_keeps (fun s => body (request s) = noBody)
             (fun _ => True)); auto.
    + intros s l _ Hs. branches s l; congruence.
    + now apply List.Forall_forall.
  - intros H.
    apply (parseLines_keeps
             (fun s => preRequest (request s) = None /\ tests (request s) = None)
             _ (fun s l Hl Hs =>
                  conj (eq_trans (proj1 (processLine_scripts s l Hl)) (proj1 Hs))
                       (eq_trans (proj2 (processLine_scripts s l Hl)) (proj2 Hs)))
             ls st0 H).
    split; reflexivity.
Qed.

End Defaults.

Lemma parseHttpText_total_defaults_witness :
  method (parseHttpText (String "239" (String "187" (String "191" "FETCH http://x")))
            None "0") = GET.
Proof.
  apply (proj1 (proj2 (parseHttpText_total_defaults "0"))
           (String "239" (String "187" (String "191" "FETCH http://x"))) None).
  repeat constructor.
Defined.

(** ** The request line (C8) *)

(** C8, at the inputs where the code leaves it.  With two request lines in
    the text, the second one gives the parsed method and URL, while the
    query parameters of the first stay; and with a second question mark in
    the URL, the query string ends there, where the text behind the first
    one decodes to one pair.  (The scan of [parseHttpFile] for the method of
    the same text stops at the first request line.) *)
Theorem request_line_overwritten :
  let r := parseHttpText (join nl ["GET /a?x=1"; "POST /b"]) None "0" in
  let r2 := parseHttpText "GET /a?x=1?y=2" None "0" in
  (matchRequestLine "GET /a?x=1" = Some (GET, "/a?x=1") /\
   method r = POST /\ url r = "/b" /\ queryParams r = [mkParam "x" "1" true]) /\
  (url r2 = "/a" /\ queryParams r2 = [mkParam "x" "1" true] /\
   URLSearchParams "x=1?y=2" = [("x", "1?y=2")]).
Proof. repeat split; reflexivity. Qed.

(** ** Comment lines and the body (C10) *)

Lemma comment_not_script (t : string) :
  startsWith "#" t || startsWith "//" t = true ->
  startsWith "{{" t = false /\ startsWith "}}" t = false.
Proof.
  destruct t as [|c t]; [discriminate|]. cbn [startsWith].
  destruct (Ascii.eqb_spec "#"%char c) as [<-|_]; [split; reflexivity|].
  destruct (Ascii.eqb_spec "/"%char c) as [<-|_]; [split; reflexivity|].
  cbn [andb orb]. discriminate.
Qed.

Lemma processLine_comment (st : ParseState) (l : string) :
  inScript st = false -> commentLike l = true -> metadataMarker l = false ->
  processLine st l = st.
Proof.
  unfold commentLike, metadataMarker, processLine. intros Hs Hc Hm.
  apply orb_false_elim in Hm as [Hm Htag].
  apply orb_false_elim in Hm as [Hname Hdesc].
  destruct (comment_not_script _ Hc) as [Ho Hcl].
  rewrite Hname, Hdesc, Htag, Ho, Hcl, Hs, Hc.
  now destruct (String.eqb (trim l) "###").
Qed.

Lemma processLine_body (st : ParseState) (l : string) :
  body (request (processLine st l)) = body (request st).
Proof.
  destruct (requestLineOf st l) as [[m g2]|] eqn:E.
  - rewrite (processLine_request_line _ _ _ _ E). simpl.
    unfold applyRequestLine. destruct (splitUrl (trim g2)) as [b q].
    destruct (truthyOpt q); reflexivity.
  - revert E.
    unfold requestLineOf, reachesPattern, metadataMarker, commentLike, processLine.
    guards l; cbn [negb andb orb]; auto.
    + destruct (scriptType st) as [[]|]; auto.
    + destruct (inScript st); cbn [negb andb orb]; auto.
      destruct (startsWith "#" (trim l) || startsWith "//" (trim l));
        cbn [negb andb orb]; auto.
      intros ->. destruct (cut ":" (trim l)) as [[k v]|]; case_ifs; cbn; auto.
Qed.

Lemma parseLines_body (ls : list string) (st : ParseState) :
  body (request (parseLines st ls)) = body (request st).
Proof.
  revert st. induction ls as [|l ls IH]; intros st; [reflexivity|].
  change (parseLines st (l :: ls)) with (parseLines (processLine st l) ls).
  now rewrite IH, processLine_body.
Qed.

(** [processLine] leaves [bodyLines] alone or appends the line it reads;
    it appends only in body mode, a line that reached the request-line
    pattern and did not match it. *)
Lemma processLine_bodyLines (st : ParseState) (l : string) :
  bodyLines (processLine st l) = bodyLines st \/
  (bodyLines (processLine st l) = bodyLines st ++ [l] /\
   reachesPattern st l = true /\ inBody st = true /\
   matchRequestLine (trim l) = None /\ inBody (processLine st l) = true).
Proof.
  unfold reachesPattern, metadataMarker, commentLike, processLine.
  guards l; cbn [negb andb orb]; auto.
  destruct (inScript st); cbn [negb andb orb]; auto.
  destruct (startsWith "#" (trim l) || startsWith "//" (trim l));
    cbn [negb andb orb]; auto.
  destruct (matchRequestLine (trim l)) as [[m g2]|]; [now left|].
  destruct (inBody st) eqn:Hb; cbn [negb andb].
  - right. cbn. auto.
  - left. destruct (cut ":" (trim l)) as [[k v]|]; case_ifs; cbn; auto.
Qed.

Lemma reachesPattern_not_comment (st : ParseState) (l : string) :
  reachesPattern st l = true -> commentLike l = false.
Proof.
  unfold reachesPattern. intros H. apply andb_prop in H as [_ H].
  now apply negb_true_iff in H.
Qed.

Lemma parseLines_bodyLines (ls : list string) (st : ParseState) :
  let ok l := commentLike l = false /\ includes nl l = false in
  Forall (fun l => includes nl l = false) ls ->
  Forall ok (bodyLines st) -> Forall ok (bodyLines (parseLines st ls)).
Proof.
  cbv zeta. intros H. revert st.
  induction H as [|l ls Hl _ IH]; intros st Hst; simpl; [exact Hst|].
  apply IH. destruct (processLine_bodyLines st l) as [-> | (-> & Hr & _)].
  - exact Hst.
  - apply Forall_app. split; [exact Hst|]. constructor; [|constructor].
    split; [now apply (reachesPattern_not_comment st) | exact Hl].
Qed.

Lemma bodyText_detectBodyType (b : string) (hs : list RequestHeader) :
  bodyText (detectBodyType b hs) = b.
Proof. unfold detectBodyType. case_ifs; reflexivity. Qed.

Lemma commentLike_trim (l l' : string) :
  trim l' = trim l -> commentLike l' = commentLike l.
Proof. unfold commentLike. now intros ->. Qed.

Section Comments.

Context {platform : Platform}.

Lemma parsed_body_lines (text : string) (fileUri : option Uri) (now l : string) :
  In l (split LF (bodyText (body (parseHttpText text fileUri now)))) ->
  commentLike l = false.
Proof.
  unfold parseHttpText.
  set (st := parseLines (initialState fileUri now) (split LF text)).
  assert (Hb : body (request st) = noBody) by apply parseLines_body.
  assert (Hl : Forall (fun l => commentLike l = false /\ includes nl l = false)
                      (bodyLines st)).
  { apply parseLines_bodyLines; [apply split_lines_free | constructor]. }
  unfold processBody. destruct (bodyLines st) as [|x xs] eqn:E.
  - rewrite Hb. simpl. intros [<- | []]. reflexivity.
  - destruct (truthy (trim (join nl (x :: xs)))).
    + cbn [body set_body]. rewrite bodyText_detectBodyType. intros Hin.
      destruct (trim_lines _ _ Hin) as (l0 & H0 & Ht).
      rewrite (commentLike_trim _ _ Ht).
      unfold nl in H0. rewrite split_join_lines in H0.
      * rewrite List.Forall_forall in Hl. now apply Hl.
      * discriminate.
      * eapply Forall_impl; [exact Hl|]. now intros ? [_ ?].
    + rewrite Hb. simpl. intros [<- | []]. reflexivity.
Qed.

(** C10: outside a script block, a line that looks like a comment and is no
    metadata marker leaves the parser state as it is, in body mode too; so
    no line of a parsed body looks like a comment, and the text generated
    for a request whose body has such a line does not parse back to that
    body. *)
Theorem comment_lines_dropped (fileUri : option Uri) (now : string) :
  (forall st l,
     inScript st = false -> commentLike l = true -> metadataMarker l = false ->
     processLine st l = st) /\
  (forall text l,
     In l (split LF (bodyText (body (parseHttpText text fileUri now)))) ->
     commentLike l = false) /\
  (forall stringify m c l,
     body m = mkBody BodyRaw (Some c) None None ->
     In l (split LF c) -> commentLike l = true ->
     bodyText (body (parseHttpText (generate stringify m) fileUri now)) <> c).
Proof.
  split; [|split].
  - apply processLine_comment.
  - intros text l. apply parsed_body_lines.
  - intros stringify m c l _ Hin Hc E. rewrite <- E in Hin.
    apply parsed_body_lines in Hin. congruence.
Qed.

End Comments.

Lemma comment_lines_dropped_witness :
  bodyText (body (parseHttpText
     (generate (fun q _ => q)
        (mkRequest "1" "R" None None GET "http://x" [] []
           (mkBody BodyRaw (Some "# note") None None) None None None))
     None "0")) <> "# note".
Proof.
  apply (proj2 (proj2 (comment_lines_dropped None "0")) (fun q _ => q)
           (mkRequest "1" "R" None None GET "http://x" [] []
              (mkBody BodyRaw (Some "# note") None None) None None None)
           "# note" "# note").
  - reflexivity.
  - simpl. auto.
  - reflexivity.
Defined.


(** ** Sorting the children (C6) *)

Lemma flat_map_ext_on {A B : Type} (f g : A -> list B) (l : list A) :
  (forall a, In a l -> f a = g a) -> flat_map f l = flat_map g l.
Proof.
  induction l as [|x l IH]; intros H; simpl; [reflexivity|].
  rewrite (H x) by now left. rewrite IH; [reflexivity|].
  intros a Ha. apply H. now right.
Qed.

Section SortByRank.

Context {A : Type} (cmp : A -> A -> Z) (rk : A -> nat).
Hypothesis cmp_rank : forall x y, (cmp x y <=? 0)%Z = (rk x <=? rk y).

Let group (l : list A) (i : nat) : list A :=
  List.filter (fun y => rk y =? i) l.

Lemma insertBy_skip (x : A) (l1 l2 : list A) :
  Forall (fun y => rk y < rk x) l1 ->
  insertBy cmp x (l1 ++ l2) = l1 ++ insertBy cmp x l2.
Proof.
  induction 1 as [|y l1 Hy _ IH]; simpl; [reflexivity|].
  rewrite cmp_rank. destruct (Nat.leb_spec (rk x) (rk y)); [lia|].
  now rewrite IH.
Qed.

Lemma insertBy_first (x : A) (l : list A) :
  Forall (fun y => rk x <= rk y) l -> insertBy cmp x l = x :: l.
Proof.
  destruct 1 as [|y l Hy _]; simpl; [reflexivity|].
  rewrite cmp_rank. now destruct (Nat.leb_spec (rk x) (rk y)); [|lia].
Qed.

Lemma groups_from (l : list A) (a k : nat) :
  Forall (fun y => a <= rk y) (flat_map (group l) (seq a k)).
Proof.
  revert a. induction k as [|k IH]; intros a; simpl; [constructor|].
  apply Forall_app. split.
  - apply List.Forall_forall. intros y Hy. apply filter_In in Hy as [_ Hy].
    apply Nat.eqb_eq in Hy. lia.
  - eapply Forall_impl; [apply IH|]. simpl. intros; lia.
Qed.

Lemma groups_later (x : A) (l : list A) (a k : nat) :
  rk x < a ->
  flat_map (group (x :: l)) (seq a k) = flat_map (group l) (seq a k).
Proof.
  intros Hx. apply flat_map_ext_on. intros i Hi. apply in_seq in Hi.
  unfold group. simpl. destruct (Nat.eqb_spec (rk x) i); [lia | reflexivity].
Qed.

Lemma insertBy_groups (x : A) (l : list A) (k a : nat) :
  a <= rk x -> rk x < a + k ->
  insertBy cmp x (flat_map (group l) (seq a k))
  = flat_map (group (x :: l)) (seq a k).
Proof.
  revert a. induction k as [|k IH]; intros a Ha Hk; [lia|].
  simpl seq. simpl flat_map.
  destruct (Nat.eq_dec (rk x) a) as [E|E].
  - rewrite insertBy_first.
    + rewrite groups_later by lia. unfold group at 3. simpl.
      rewrite E, Nat.eqb_refl. reflexivity.
    + apply Forall_app. split.
      * apply List.Forall_forall. intros y Hy. apply filter_In in Hy as [_ Hy].
        apply Nat.eqb_eq in Hy. lia.
      * eapply Forall_impl; [apply groups_from|]. simpl. intros; lia.
  - rewrite insertBy_skip.
    + rewrite IH by lia. unfold group at 3. simpl.
      destruct (Nat.eqb_spec (rk x) a); [contradiction | reflexivity].
    + apply List.Forall_forall. intros y Hy. apply filter_In in Hy as [_ Hy].
      apply Nat.eqb_eq in Hy. lia.
Qed.

(** Sorting by a comparator that compares ranks below [n] gathers the
    elements rank by rank and keeps their order inside each rank. *)
Lemma sort_by_rank (n : nat) (l : list A) :
  Forall (fun y => rk y < n) l ->
  sort cmp l = flat_map (group l) (seq 0 n).
Proof.
  induction 1 as [|x l Hx _ IH]; simpl.
  - induction (seq 0 n); simpl; auto.
  - change (fold_right (insertBy cmp) [] l) with (sort cmp l).
    rewrite IH. apply insertBy_groups; lia.
Qed.

End SortByRank.

Lemma indexOf_range (x : string) (l : list string) :
  (indexOf x l = -1 \/ 0 <= indexOf x l < Z.of_nat (length l))%Z.
Proof.
  induction l as [|y l IH]; simpl; [now left|].
  destruct (String.eqb y x); [right; lia|].
  destruct (Z.eqb_spec (indexOf x l) (-1)); [now left | right; lia].
Qed.

Lemma orderCompare_rank (o : list string) (a b : Walker.CollectionTreeNode) :
  (Walker.orderCompare o a b <=? 0)%Z = (rank o a <=? rank o b).
Proof.
  unfold Walker.orderCompare, rank, unlisted.
  pose proof (indexOf_range (Walker.label a) o) as Ha.
  pose proof (indexOf_range (Walker.label b) o) as Hb.
  destruct (Z.eqb_spec (indexOf (Walker.label a) o) (-1)),
           (Z.eqb_spec (indexOf (Walker.label b) o) (-1)); simpl;
    repeat match goal with
    | |- context [(?x <=? ?y)%Z] => destruct (Z.leb_spec x y)
    | |- context [?x <=? ?y] => destruct (Nat.leb_spec x y)
    end; try reflexivity; lia.
Qed.

Lemma sort_reordered (o : list string) (nodes : list Walker.CollectionTreeNode) :
  sort (Walker.orderCompare o) nodes = reordered o nodes.
Proof.
  rewrite (sort_by_rank _ (rank o) (orderCompare_rank o) (S (length o))).
  - rewrite seq_S, flat_map_app. simpl. rewrite app_nil_r. unfold reordered.
    f_equal.
    + apply flat_map_ext_on. intros i Hi. apply in_seq in Hi.
      apply List.filter_ext. intros n. unfold rank, atPosition, unlisted.
      pose proof (indexOf_range (Walker.label n) o) as Hn.
      destruct (Z.eqb_spec (indexOf (Walker.label n) o) (-1)) as [E|E].
      * rewrite E. destruct (Nat.eqb_spec (length o) i); [lia|].
        symmetry. apply Z.eqb_neq. lia.
      * destruct (Nat.eqb_spec (Z.to_nat (indexOf (Walker.label n) o)) i);
          symmetry; [apply Z.eqb_eq | apply Z.eqb_neq]; lia.
    + apply List.filter_ext. intros n. unfold rank, unlisted.
      pose proof (indexOf_range (Walker.label n) o) as Hn.
      destruct (Z.eqb_spec (indexOf (Walker.label n) o) (-1)) as [E|E].
      * apply Nat.eqb_refl.
      * apply Nat.eqb_neq. lia.
  - apply List.Forall_forall. intros n _. unfold rank, unlisted.
    pose proof (indexOf_range (Walker.label n) o) as Hn.
    destruct (Z.eqb_spec (indexOf (Walker.label n) o) (-1)); lia.
Qed.

Import Walker.

(** C6: with the order list [b, a], children labelled a, b, c come out as
    b, a, c.  In general the children named in the order list come first,
    in the order of the list, and the others follow; children of one group
    keep the order they had.  [parseFolder] orders the sub-folders followed
    by the request files in this way. *)
Theorem children_order {platform : Platform} :
  (forall na nb nc,
     label na = "a" -> label nb = "b" -> label nc = "c" ->
     sortByOrder (Some ["b"; "a"]) [na; nb; nc] = [nb; na; nc]) /\
  (forall o nodes, o <> [] -> sortByOrder (Some o) nodes = reordered o nodes) /\
  (forall parseMetadata requestLabel requestDescription requestMethod
          folderUri name entries,
     let walk := parseFolder parseMetadata requestLabel requestDescription
                             requestMethod in
     children (fst (walk folderUri name (FsDir true entries)))
     = Some (sortByOrder
               (match loadCollectionMetadata parseMetadata entries with
                | Some md => order md
                | None => None
                end)
               (fst (subFolders walk folderUri entries) ++
                fst (parseFiles requestLabel requestDescription requestMethod
                                folderUri entries)))).
Proof.
  split; [|split].
  - intros na nb nc Ha Hb Hc. unfold sortByOrder. rewrite sort_reordered.
    unfold reordered, atPosition, unlisted.
    cbn [flat_map seq length List.filter]. rewrite Ha, Hb, Hc. reflexivity.
  - intros o nodes Ho. destruct o as [|x o]; [congruence|].
    apply sort_reordered.
  - intros. subst walk. simpl.
    destruct (subFolders _ folderUri entries) as [subNodes logs1].
    destruct (parseFiles _ _ _ folderUri entries) as [fileNodes logs2].
    reflexivity.
Qed.

Lemma children_order_witness :
  let n l := mkNode Request l l None (Some GET) l "/" (Some StatusNone) None in
  sortByOrder (Some ["b"; "a"]) [n "a"; n "b"; n "c"] = [n "b"; n "a"; n "c"].
Proof.
  apply (proj1 children_order); reflexivity.
Defined.

(** ** The walk: identifiers (C9) and failures (C7) *)

Lemma FsEntry_nested_ind (P : FsEntry -> Prop) :
  (forall data, P (FsFile data)) ->
  (forall listable entries,
     Forall (fun p => P (snd p)) entries -> P (FsDir listable entries)) ->
  P FsOther ->
  forall e, P e.
Proof.
  intros Hfile Hdir Hother. fix IH 1. intros [data | listable entries |].
  - apply Hfile.
  - apply Hdir. induction entries as [|[n e] es IHes]; constructor.
    + apply IH.
    + exact IHes.
  - exact Hother.
Qed.

Lemma in_insertBy {A : Type} (cmp : A -> A -> Z) (x y : A) (l : list A) :
  In y (insertBy cmp x l) <-> y = x \/ In y l.
Proof.
  induction l as [|z l IH]; simpl.
  - intuition.
  - destruct (cmp x z <=? 0)%Z; simpl; [intuition | rewrite IH; intuition].
Qed.

Lemma in_sort {A : Type} (cmp : A -> A -> Z) (y : A) (l : list A) :
  In y (sort cmp l) <-> In y l.
Proof.
  induction l as [|x l IH]; simpl; [reflexivity|].
  unfold sort in IH. rewrite in_insertBy, IH. intuition.
Qed.

Lemma in_sortByOrder (o : option (list string)) (y : CollectionTreeNode)
  (l : list CollectionTreeNode) :
  In y (sortByOrder o l) <-> In y l.
Proof.
  destruct o as [[|x o]|]; simpl; try reflexivity. apply in_sort.
Qed.

Lemma Forall_sortByOrder (Q : CollectionTreeNode -> Prop)
  (o : option (list string)) (l : list CollectionTreeNode) :
  Forall Q l -> Forall Q (sortByOrder o l).
Proof.
  rewrite !List.Forall_forall. intros H y Hy. apply H.
  now apply in_sortByOrder in Hy.
Qed.

Lemma Forall_allNodes_children (Q : CollectionTreeNode -> Prop)
  (cs : list CollectionTreeNode) :
  Forall (fun n => Forall Q (allNodes n)) cs -> Forall Q (flat_map allNodes cs).
Proof. intros H. now apply Forall_flat_map. Qed.

Lemma Forall2_In_l {A B : Type} (R : A -> B -> Prop) (l1 : list A) (l2 : list B)
  (a : A) :
  Forall2 R l1 l2 -> In a l1 -> exists b, In b l2 /\ R a b.
Proof.
  induction 1 as [|x y l1 l2 Hxy _ IH]; intros Hin; [destruct Hin|].
  destruct Hin as [<- | Hin].
  - exists y. split; [now left | exact Hxy].
  - destruct (IH Hin) as (b & Hb & Rb). exists b. split; [now right | exact Rb].
Qed.

Lemma relisted_directory (e e' : FsEntry) :
  relisted e e' -> isDirectory e = true -> isDirectory e' = true.
Proof. intros H. inversion H; subst; auto. Qed.

Lemma relisted_file (d : option string) (e' : FsEntry) :
  relisted (FsFile d) e' -> e' = FsFile d.
Proof. intros H. inversion H; subst; reflexivity. Qed.

(** The entries of a folder listed in another order: every entry is
    there, with its name, listed in another order itself. *)
Lemma relisted_entries (listable : bool) (entries : list (string * FsEntry))
  (dir' : FsEntry) (entryName : string) (e : FsEntry) :
  relisted (FsDir listable entries) dir' -> In (entryName, e) entries ->
  exists entries' e', dir' = FsDir listable entries' /\
                      In (entryName, e') entries' /\ relisted e e'.
Proof.
  intros H Hin. inversion H as [|l es es1 es2 Hp Hf]; subst.
  - exists entries, e. repeat split; auto. constructor.
  - apply (Permutation_in _ Hp) in Hin.
    destruct (Forall2_In_l _ _ _ _ Hf Hin) as ([n' e'] & Hb & Hn & Hr).
    cbn [fst snd] in *. subst n'. exists es2, e'. auto.
Qed.

Lemma inFolder_relisted (dir : FsEntry) (names : list string) (k : NodeType) :
  inFolder dir names k -> forall dir', relisted dir dir' -> inFolder dir' names k.
Proof.
  induction 1 as [entries entryName text Hin Hr
                 |entries entryName e Hin Hd Hw
                 |entries entryName e names k Hin Hd Hw _ IH]; intros dir' Hrel.
  - destruct (relisted_entries _ _ _ _ _ Hrel Hin) as (es' & e' & -> & Hin' & He).
    apply relisted_file in He. subst e'. now apply (inFolder_file es' entryName text).
  - destruct (relisted_entries _ _ _ _ _ Hrel Hin) as (es' & e' & -> & Hin' & He).
    apply (inFolder_folder es' entryName e'); auto.
    now apply (relisted_directory e).
  - destruct (relisted_entries _ _ _ _ _ Hrel Hin) as (es' & e' & -> & Hin' & He).
    apply (inFolder_below es' entryName e'); auto.
    now apply (relisted_directory e).
Qed.

Lemma inRoot_relisted (root root' : FsEntry) (names : list string) (k : NodeType) :
  relisted root root' -> inRoot root names k -> inRoot root' names k.
Proof.
  intros Hrel H.
  destruct H as [entries entryName e Hin Hd Hw
                |entries entryName e names k Hin Hd Hw Hf].
  - destruct (relisted_entries _ _ _ _ _ Hrel Hin) as (es' & e' & -> & Hin' & He).
    apply (inRoot_collection es' entryName e'); auto.
    now apply (relisted_directory e).
  - destruct (relisted_entries _ _ _ _ _ Hrel Hin) as (es' & e' & -> & Hin' & He).
    apply (inRoot_below es' entryName e'); auto.
    + now apply (relisted_directory e).
    + now apply (inFolder_relisted e).
Qed.

Section WalkFacts.

Context {platform : Platform}.

Variable parseMetadata : string -> option CollectionMetadata.
Variable parseManifest : string -> option CollectionsManifest.
Variable requestLabel : string -> string -> string.
Variable requestDescription : string -> option string.
Variable requestMethod : string -> HttpMethod.

Let walk := parseFolder parseMetadata requestLabel requestDescription requestMethod.
Let files := parseFiles requestLabel requestDescription requestMethod.
Let top := parseTopLevel parseMetadata requestLabel requestDescription requestMethod.
Let fileNode := parseHttpFile requestLabel requestDescription requestMethod.

(** The request nodes of a folder: one for each request file that can be
    read. *)
Lemma parseFiles_in (folderUri : Uri) (entries : list (string * FsEntry))
  (n : CollectionTreeNode) :
  In n (fst (files folderUri entries)) <->
  exists entryName text,
    In (entryName, FsFile (Some text)) entries /\ requestFile entryName = true /\
    fst (fileNode folderUri entryName (Some text)) = Some n.
Proof.
  subst files fileNode. induction entries as [|[entryName e] es IH].
  - split; [intros [] | intros (? & ? & [] & _)].
  - cbn [parseFiles].
    destruct (parseFiles _ _ _ folderUri es) as [nodes logs]. cbn [fst] in IH.
    assert (Skip : (e = FsFile None \/ isFile e = false \/ requestFile entryName = false) ->
                   (In n nodes <->
                    exists entryName0 text,
                      In (entryName0, FsFile (Some text)) ((entryName, e) :: es) /\
                      requestFile entryName0 = true /\
                      fst (parseHttpFile requestLabel requestDescription
                             requestMethod folderUri entryName0 (Some text))
                      = Some n)).
    { intros Hs. rewrite IH. split.
      - intros (x & t & Hin & Hr & E). exists x, t. split; [now right | auto].
      - intros (x & t & [[= -> ->]|Hin] & Hr & E).
        + destruct Hs as [Hs|[Hs|Hs]]; [discriminate | discriminate | congruence].
        + exists x, t. auto. }
    destruct e as [data | |]; cbn [fst];
      try (apply Skip; right; left; reflexivity).
    fold (requestFile entryName).
    destruct (requestFile entryName) eqn:Hr; cbn [fst];
      [|apply Skip; right; right; reflexivity].
    destruct data as [text|]; cbn [parseHttpFile fst];
      [|apply Skip; left; reflexivity].
    cbn [In]. rewrite IH. split.
    + intros [<- | (x & t & Hin & Hx & E)].
      * exists entryName, text. split; [now left | auto].
      * exists x, t. split; [now right | auto].
    + intros (x & t & [[= <- <-]|Hin] & Hx & E).
      * left. cbn [parseHttpFile fst] in E. congruence.
      * right. exists x, t. auto.
Qed.

(** The nodes of the sub-folders: one for each directory that is walked. *)
Lemma subFolders_in (recurse : Uri -> string -> FsEntry -> Logged CollectionTreeNode)
  (folderUri : Uri) (entries : list (string * FsEntry)) (n : CollectionTreeNode) :
  In n (fst (subFolders recurse folderUri entries)) <->
  exists entryName e,
    In (entryName, e) entries /\ isDirectory e = true /\
    walkedFolder entryName = true /\
    n = fst (recurse (joinPath folderUri entryName) entryName e).
Proof.
  induction entries as [|[entryName e] es IH].
  - split; [intros [] | intros (? & ? & [] & _)].
  - cbn [subFolders].
    destruct (subFolders recurse folderUri es) as [nodes logs]. cbn [fst] in IH.
    rewrite <- andb_assoc. fold (walkedFolder entryName).
    destruct (isDirectory e && walkedFolder entryName) eqn:G.
    + apply andb_prop in G as [Hd Hw].
      destruct (recurse (joinPath folderUri entryName) entryName e)
        as [subNode log1] eqn:R.
      cbn [fst In]. rewrite IH. split.
      * intros [<- | (x & ex & Hin & Hx)].
        -- exists entryName, e. rewrite R. repeat split; auto; now left.
        -- exists x, ex. split; [now right | exact Hx].
      * intros (x & ex & [[= <- <-]|Hin] & Hdx & Hwx & ->).
        -- left. now rewrite R.
        -- right. exists x, ex. auto.
    + cbn [fst]. rewrite IH. split.
      * intros (x & ex & Hin & Hx). exists x, ex. split; [now right | exact Hx].
      * intros (x & ex & [[= <- <-]|Hin] & Hdx & Hwx & ->).
        -- rewrite Hdx, Hwx in G. discriminate.
        -- exists x, ex. auto.
Qed.

(** The collections: one for each directory of the root that is walked. *)
Lemma parseTopLevel_in (rootUri : Uri) (entries : list (string * FsEntry))
  (n : CollectionTreeNode) :
  In n (fst (top rootUri entries)) <->
  exists entryName e,
    In (entryName, e) entries /\ isDirectory e = true /\
    walkedCollection entryName = true /\
    n = fst (walk (joinPath rootUri entryName) entryName e).
Proof.
  subst top walk. induction entries as [|[entryName e] es IH].
  - split; [intros [] | intros (? & ? & [] & _)].
  - cbn [parseTopLevel].
    destruct (parseTopLevel _ _ _ _ rootUri es) as [nodes logs]. cbn [fst] in IH.
    rewrite <- andb_assoc. fold (walkedCollection entryName).
    destruct (isDirectory e && walkedCollection entryName) eqn:G.
    + apply andb_prop in G as [Hd Hw].
      destruct (parseFolder _ _ _ _ (joinPath rootUri entryName) entryName e)
        as [subNode log1] eqn:R.
      cbn [fst In]. rewrite IH. split.
      * intros [<- | (x & ex & Hin & Hx)].
        -- exists entryName, e. rewrite R. repeat split; auto; now left.
        -- exists x, ex. split; [now right | exact Hx].
      * intros (x & ex & [[= <- <-]|Hin] & Hdx & Hwx & ->).
        -- left. now rewrite R.
        -- right. exists x, ex. auto.
    + cbn [fst]. rewrite IH. split.
      * intros (x & ex & Hin & Hx). exists x, ex. split; [now right | exact Hx].
      * intros (x & ex & [[= <- <-]|Hin] & Hdx & Hwx & ->).
        -- rewrite Hdx, Hwx in G. discriminate.
        -- exists x, ex. auto.
Qed.

(** The node of a request file is built for the location of the file in
    its folder. *)
Lemma fileNode_built (folderUri : Uri) (entryName text : string)
  (n : CollectionTreeNode) :
  fst (fileNode folderUri entryName (Some text)) = Some n ->
  node_type n = Request /\ builtAt (joinPath folderUri entryName) n /\
  allNodes n = [n].
Proof.
  subst fileNode. cbn [parseHttpFile fst]. intros [= <-].
  repeat split.
Qed.

(** The node of a folder is built for the location of the folder; below it
    are its children. *)
Lemma walk_node (dir : FsEntry) (folderUri : Uri) (name : string) :
  let n := fst (walk folderUri name dir) in
  node_type n = Collection /\ builtAt folderUri n /\
  allNodes n
  = n :: match dir with
         | FsDir true entries =>
             flat_map allNodes
               (sortByOrder
                  (match loadCollectionMetadata parseMetadata entries with
                   | Some md => order md
                   | None => None
                   end)
                  (fst (subFolders walk folderUri entries) ++
                   fst (files folderUri entries)))
         | _ => []
         end.
Proof.
  subst walk files. destruct dir as [data | [|] entries |]; cbn [parseFolder].
  - repeat split.
  - destruct (subFolders _ folderUri entries) as [subNodes logs1].
    destruct (parseFiles _ _ _ folderUri entries) as [fileNodes logs2].
    repeat split.
  - repeat split.
  - repeat split.
Qed.

Lemma uriAt_cons (u : Uri) (entryName : string) (names : list string) :
  uriAt u (entryName :: names) = uriAt (joinPath u entryName) names.
Proof. reflexivity. Qed.

(** Below a folder, every node is the node of an entry that the walk
    shows, built for the location of that entry. *)
Lemma parseFolder_sound (dir : FsEntry) (folderUri : Uri) (name : string)
  (n : CollectionTreeNode) :
  In n (allNodes (fst (walk folderUri name dir))) ->
  n = fst (walk folderUri name dir) \/
  exists names, inFolder dir names (node_type n) /\
                builtAt (uriAt folderUri names) n.
Proof.
  revert folderUri name n.
  induction dir as [data | listable entries IH |] using FsEntry_nested_ind;
    intros folderUri name n Hin.
  - destruct (walk_node (FsFile data) folderUri name) as (_ & _ & E).
    rewrite E in Hin. destruct Hin as [<- | []]. now left.
  - destruct (walk_node (FsDir listable entries) folderUri name) as (_ & _ & E).
    rewrite E in Hin. destruct Hin as [<- | Hin]; [now left|]. right.
    destruct listable; [|destruct Hin].
    apply in_flat_map in Hin as (c & Hc & Hn).
    apply in_sortByOrder, in_app_or in Hc as [Hc | Hc].
    + apply subFolders_in in Hc as (entryName & e & He & Hd & Hw & ->).
      rewrite List.Forall_forall in IH.
      pose proof (IH _ He (joinPath folderUri entryName) entryName n) as IHe.
      cbn [snd] in IHe. destruct (IHe Hn) as [-> | (names & Hf & Hb)].
      * exists [entryName].
        destruct (walk_node e (joinPath folderUri entryName) entryName)
          as (-> & Hb & _).
        split; [now apply (inFolder_folder entries entryName e) | exact Hb].
      * exists (entryName :: names). split; [|exact Hb].
        now apply (inFolder_below entries entryName e).
    + apply parseFiles_in in Hc as (entryName & text & He & Hr & Hc).
      apply fileNode_built in Hc as (Ht & Hb & Ha).
      rewrite Ha in Hn. destruct Hn as [<- | []].
      exists [entryName]. rewrite Ht.
      split; [now apply (inFolder_file entries entryName text) | exact Hb].
  - destruct (walk_node FsOther folderUri name) as (_ & _ & E).
    rewrite E in Hin. destruct Hin as [<- | []]. now left.
Qed.

(** Below a folder, every entry that the walk shows has its node. *)
Lemma parseFolder_complete (dir : FsEntry) (names : list string) (k : NodeType) :
  inFolder dir names k ->
  forall folderUri name,
  exists n, In n (allNodes (fst (walk folderUri name dir))) /\
            node_type n = k /\ builtAt (uriAt folderUri names) n.
Proof.
  induction 1 as [entries entryName text Hin Hr
                 |entries entryName e Hin Hd Hw
                 |entries entryName e names k Hin Hd Hw _ IH];
    intros folderUri name;
    destruct (walk_node (FsDir true entries) folderUri name) as (_ & _ & E);
    rewrite E; clear E.
  - destruct (fst (fileNode folderUri entryName (Some text))) as [n|] eqn:F;
      [|subst fileNode; discriminate].
    destruct (fileNode_built _ _ _ _ F) as (Ht & Hb & Ha).
    exists n. split; [|auto]. right. apply in_flat_map. exists n.
    split; [|rewrite Ha; now left].
    apply in_sortByOrder, in_or_app. right. apply parseFiles_in. eauto.
  - destruct (walk_node e (joinPath folderUri entryName) entryName)
      as (Ht & Hb & Ha).
    exists (fst (walk (joinPath folderUri entryName) entryName e)).
    split; [|auto]. right. apply in_flat_map.
    exists (fst (walk (joinPath folderUri entryName) entryName e)).
    split; [|rewrite Ha; now left].
    apply in_sortByOrder, in_or_app. left. apply subFolders_in.
    exists entryName, e. auto.
  - destruct (IH (joinPath folderUri entryName) entryName) as (n & Hn & Ht & Hb).
    exists n. split; [|auto]. right. apply in_flat_map.
    exists (fst (walk (joinPath folderUri entryName) entryName e)).
    split; [|exact Hn].
    apply in_sortByOrder, in_or_app. left. apply subFolders_in.
    exists entryName, e. auto.
Qed.

Let tree := parseCollectionTree parseMetadata parseManifest requestLabel
              requestDescription requestMethod.

Lemma tree_nodes (rootUri : Uri) (entries : list (string * FsEntry))
  (n : CollectionTreeNode) :
  In n (nodesOf (fst (tree rootUri (FsDir true entries)))) <->
  exists c, In c (fst (top rootUri entries)) /\ In n (allNodes c).
Proof.
  subst tree top. unfold nodesOf, parseCollectionTree.
  destruct (parseTopLevel _ _ _ _ rootUri entries) as [colls logs].
  cbn [fst]. rewrite in_flat_map. split.
  - intros (c & Hc & Hn). exists c. split; [|exact Hn]. now apply in_sortByOrder in Hc.
  - intros (c & Hc & Hn). exists c. split; [|exact Hn]. now apply in_sortByOrder.
Qed.

Lemma tree_sound (rootUri : Uri) (root : FsEntry) (n : CollectionTreeNode) :
  In n (nodesOf (fst (tree rootUri root))) ->
  exists names, inRoot root names (node_type n) /\
                builtAt (uriAt rootUri names) n.
Proof.
  destruct root as [data | [|] entries |]; try (intros []).
  intros Hin. apply tree_nodes in Hin as (c & Hc & Hn).
  apply parseTopLevel_in in Hc as (entryName & e & He & Hd & Hw & ->).
  destruct (parseFolder_sound e (joinPath rootUri entryName) entryName n Hn)
    as [-> | (names & Hf & Hb)].
  - exists [entryName].
    destruct (walk_node e (joinPath rootUri entryName) entryName) as (-> & Hb & _).
    split; [now apply (inRoot_collection entries entryName e) | exact Hb].
  - exists (entryName :: names). split; [|exact Hb].
    now apply (inRoot_below entries entryName e).
Qed.

Lemma tree_complete (rootUri : Uri) (root : FsEntry) (names : list string)
  (k : NodeType) :
  inRoot root names k ->
  exists n, In n (nodesOf (fst (tree rootUri root))) /\
            node_type n = k /\ builtAt (uriAt rootUri names) n.
Proof.
  intros H.
  destruct H as [entries entryName e Hin Hd Hw
                |entries entryName e names k Hin Hd Hw Hf].
  - destruct (walk_node e (joinPath rootUri entryName) entryName)
      as (Ht & Hb & Ha).
    exists (fst (walk (joinPath rootUri entryName) entryName e)).
    split; [|auto]. apply tree_nodes.
    exists (fst (walk (joinPath rootUri entryName) entryName e)).
    split; [|rewrite Ha; now left].
    apply parseTopLevel_in. exists entryName, e. auto.
  - destruct (parseFolder_complete e names k Hf (joinPath rootUri entryName)
                entryName) as (n & Hn & Ht & Hb).
    exists n. split; [|auto]. apply tree_nodes.
    exists (fst (walk (joinPath rootUri entryName) entryName e)).
    split; [|exact Hn].
    apply parseTopLevel_in. exists entryName, e. auto.
Qed.

End WalkFacts.

(** C9.  Every node of a walk is the node of an entry that the walk shows
    (a collection, a sub-folder or a request file that can be read), and
    its identifier is the text of the Uri of the location of that entry,
    reached from the root by the names of the entries on the way; every
    such entry has its node.  So a second walk of the tree, with the
    entries of any folder coming in another order, has a node of the same
    type and with the same identifier for every location for which the
    first walk has one. *)
Theorem node_identifier_stable {platform : Platform}
  (parseMetadata : string -> option CollectionMetadata)
  (parseManifest : string -> option CollectionsManifest)
  (requestLabel : string -> string -> string)
  (requestDescription : string -> option string)
  (requestMethod : string -> HttpMethod)
  (rootUri : Uri) (root : FsEntry) :
  let walk := parseCollectionTree parseMetadata parseManifest requestLabel
                requestDescription requestMethod rootUri in
  (forall n,
     In n (nodesOf (fst (walk root))) ->
     exists names,
       inRoot root names (node_type n) /\
       node_id n = Uri_toString (uriAt rootUri names) /\
       filePath n = fsPath (uriAt rootUri names)) /\
  (forall names k,
     inRoot root names k ->
     exists n,
       In n (nodesOf (fst (walk root))) /\ node_type n = k /\
       node_id n = Uri_toString (uriAt rootUri names) /\
       filePath n = fsPath (uriAt rootUri names)) /\
  (forall root' names k,
     relisted root root' -> inRoot root names k ->
     exists n n',
       In n (nodesOf (fst (walk root))) /\ In n' (nodesOf (fst (walk root'))) /\
       node_type n = k /\ node_type n' = k /\
       node_id n = Uri_toString (uriAt rootUri names) /\
       node_id n' = node_id n).
Proof.
  cbv zeta. split; [|split].
  - intros n Hn.
    destruct (tree_sound parseMetadata parseManifest requestLabel
                requestDescription requestMethod rootUri root n Hn)
      as (names & Hr & Hid & Hp).
    exists names. auto.
  - intros names k Hr.
    destruct (tree_complete parseMetadata parseManifest requestLabel
                requestDescription requestMethod rootUri root names k Hr)
      as (n & Hn & Ht & Hid & Hp).
    exists n. auto.
  - intros root' names k Hrel Hr.
    destruct (tree_complete parseMetadata parseManifest requestLabel
                requestDescription requestMethod rootUri root names k Hr)
      as (n & Hn & Ht & Hid & _).
    destruct (tree_complete parseMetadata parseManifest requestLabel
                requestDescription requestMethod rootUri root' names k
                (inRoot_relisted root root' names k Hrel Hr))
      as (n' & Hn' & Ht' & Hid' & _).
    exists n, n'. repeat split; auto. congruence.
Qed.

Lemma node_identifier_stable_witness :
  exists n n',
    In n (nodesOf (fst (parseCollectionTree (fun _ => None) (fun _ => None)
                          (fun _ fileName => fileName) (fun _ => None)
                          (fun _ => GET) (Uri_file "/r")
                          (FsDir true
                             [("A", FsDir true [("r.http", FsFile (Some "GET /"))]);
                              ("B", FsDir true [])])))) /\
    In n' (nodesOf (fst (parseCollectionTree (fun _ => None) (fun _ => None)
                           (fun _ fileName => fileName) (fun _ => None)
                           (fun _ => GET) (Uri_file "/r")
                           (FsDir true
                              [("B", FsDir true []);
                               ("A", FsDir true [("r.http", FsFile (Some "GET /"))])])))) /\
    node_type n = Request /\ node_type n' = Request /\
    node_id n = "file:///r/A/r.http" /\ node_id n' = node_id n.
Proof.
  refine (proj2 (proj2 (node_identifier_stable (fun _ => None) (fun _ => None)
                         (fun _ fileName => fileName) (fun _ => None)
                         (fun _ => GET) (Uri_file "/r")
                         (FsDir true
                            [("A", FsDir true [("r.http", FsFile (Some "GET /"))]);
                             ("B", FsDir true [])])))
           (FsDir true
              [("B", FsDir true []);
               ("A", FsDir true [("r.http", FsFile (Some "GET /"))])])
           ["A"; "r.http"] Request _ _).
  - apply (relisted_dir true _
             [("B", FsDir true []);
              ("A", FsDir true [("r.http", FsFile (Some "GET /"))])]).
    + apply perm_swap.
    + repeat constructor.
  - apply (inRoot_below _ "A" (FsDir true [("r.http", FsFile (Some "GET /"))])).
    + now left.
    + reflexivity.
    + reflexivity.
    + apply (inFolder_file _ "r.http" "GET /"); [now left | reflexivity].
Defined.

(** C7, as stated, fails: a folder whose listing fails is logged, but its
    node stays in the forest, with no children. *)
Lemma unreadable_folder_counterexample :
  let walk := parseCollectionTree (fun _ => None) (fun _ => None)
                (fun _ fileName => fileName) (fun _ => None) (fun _ => GET) in
  let result := walk (Uri_file "/r") (FsDir true [("A", FsDir false [])]) in
  map node_id (fst result) = ["file:///r/A"] /\
  map children (fst result) = [Some []] /\
  snd result = ["Failed to parse folder file:///r/A"].
Proof. repeat split; reflexivity. Qed.

Section WalkFailures.

Context {platform : Platform}.

Variable parseMetadata : string -> option CollectionMetadata.
Variable parseManifest : string -> option CollectionsManifest.
Variable requestLabel : string -> string -> string.
Variable requestDescription : string -> option string.
Variable requestMethod : string -> HttpMethod.

Let walk := parseFolder parseMetadata requestLabel requestDescription requestMethod.
Let files := parseFiles requestLabel requestDescription requestMethod.
Let top := parseTopLevel parseMetadata requestLabel requestDescription requestMethod.

Lemma subFolders_app (recurse : Uri -> string -> FsEntry -> Logged CollectionTreeNode)
  (folderUri : Uri) (es1 es2 : list (string * FsEntry)) :
  subFolders recurse folderUri (es1 ++ es2)
  = appendLogged (subFolders recurse folderUri es1) (subFolders recurse folderUri es2).
Proof.
  unfold appendLogged. induction es1 as [|[n e] es1 IH].
  - simpl. now destruct (subFolders recurse folderUri es2).
  - cbn [subFolders app]. rewrite IH.
    destruct (subFolders recurse folderUri es1) as [n1 l1].
    destruct (subFolders recurse folderUri es2) as [n2 l2]. cbn [fst snd].
    match goal with |- context [if ?b then _ else _] => destruct b end;
      [|reflexivity].
    destruct (recurse (joinPath folderUri n) n e) as [sn sl]. cbn [fst snd].
    now rewrite app_assoc.
Qed.

Lemma parseFiles_app (folderUri : Uri) (es1 es2 : list (string * FsEntry)) :
  files folderUri (es1 ++ es2)
  = appendLogged (files folderUri es1) (files folderUri es2).
Proof.
  subst files. unfold appendLogged. induction es1 as [|[n e] es1 IH].
  - simpl. now destruct (parseFiles _ _ _ folderUri es2).
  - cbn [parseFiles app]. rewrite IH.
    destruct (parseFiles _ _ _ folderUri es1) as [n1 l1].
    destruct (parseFiles _ _ _ folderUri es2) as [n2 l2]. cbn [fst snd].
    destruct e as [data | |]; try reflexivity.
    match goal with |- context [if ?b then _ else _] => destruct b end;
      [|reflexivity].
    destruct (parseHttpFile _ _ _ folderUri n data) as [[rn|] rl];
      cbn [fst snd]; now rewrite app_assoc.
Qed.

Lemma parseTopLevel_app (rootUri : Uri) (es1 es2 : list (string * FsEntry)) :
  top rootUri (es1 ++ es2) = appendLogged (top rootUri es1) (top rootUri es2).
Proof.
  subst top. unfold appendLogged. induction es1 as [|[n e] es1 IH].
  - simpl. now destruct (parseTopLevel _ _ _ _ rootUri es2).
  - cbn [parseTopLevel app]. rewrite IH.
    destruct (parseTopLevel _ _ _ _ rootUri es1) as [n1 l1].
    destruct (parseTopLevel _ _ _ _ rootUri es2) as [n2 l2]. cbn [fst snd].
    match goal with |- context [if ?b then _ else _] => destruct b end;
      [|reflexivity].
    destruct (parseFolder _ _ _ _ (joinPath rootUri n) n e) as [sn sl].
    cbn [fst snd]. now rewrite app_assoc.
Qed.

(** C7, amended.  A folder whose listing fails is reported to the log and
    gives a collection node without children: what lies below it is left
    out, the node itself is kept.  The entries listed before and after it
    are walked as they would be without it, among the sub-folders of a
    folder and among the top-level collections.  A request file whose read
    fails is reported and gives no node, and the files around it are read.
    When the listing of the root fails the failure is reported and the
    forest is empty. *)
Theorem walk_failures (folderUri : Uri) (name : string)
  (sub es1 es2 : list (string * FsEntry)) :
  let failed u :=
    (folderNode u name (loadCollectionMetadata parseMetadata sub) [],
     ["Failed to parse folder " +:+ Uri_toString u]) in
  walk folderUri name (FsDir false sub) = failed folderUri /\
  (walkedFolder name = true ->
   subFolders walk folderUri (es1 ++ (name, FsDir false sub) :: es2)
   = appendLogged (subFolders walk folderUri es1)
       (appendLogged ([fst (failed (joinPath folderUri name))],
                      snd (failed (joinPath folderUri name)))
                     (subFolders walk folderUri es2))) /\
  (walkedCollection name = true ->
   top folderUri (es1 ++ (name, FsDir false sub) :: es2)
   = appendLogged (top folderUri es1)
       (appendLogged ([fst (failed (joinPath folderUri name))],
                      snd (failed (joinPath folderUri name)))
                     (top folderUri es2))) /\
  (requestFile name = true ->
   files folderUri (es1 ++ (name, FsFile None) :: es2)
   = appendLogged (files folderUri es1)
       (appendLogged ([], ["Failed to parse HTTP file " +:+
                           Uri_toString (joinPath folderUri name)])
                     (files folderUri es2))) /\
  parseCollectionTree parseMetadata parseManifest requestLabel
    requestDescription requestMethod folderUri (FsDir false sub)
  = ([], ["Failed to parse collection tree"]).
Proof.
  cbv zeta. split; [reflexivity|]. split; [|split; [|split]].
  - intros Hw. rewrite subFolders_app. f_equal.
    change ((name, FsDir false sub) :: es2)
      with ([(name, FsDir false sub)] ++ es2).
    rewrite subFolders_app. f_equal.
    unfold walkedFolder in Hw. cbn [subFolders isDirectory andb].
    rewrite Hw. reflexivity.
  - intros Hw. rewrite parseTopLevel_app. f_equal.
    change ((name, FsDir false sub) :: es2)
      with ([(name, FsDir false sub)] ++ es2).
    rewrite parseTopLevel_app. f_equal.
    unfold walkedCollection in Hw. subst top.
    cbn [parseTopLevel isDirectory andb]. rewrite Hw. reflexivity.
  - intros Hr. rewrite parseFiles_app. f_equal.
    change ((name, FsFile None) :: es2) with ([(name, FsFile None)] ++ es2).
    rewrite parseFiles_app. f_equal.
    unfold requestFile in Hr. subst files. cbn [parseFiles]. rewrite Hr.
    reflexivity.
  - reflexivity.
Qed.

End WalkFailures.

Lemma walk_failures_witness :
  parseFiles (fun _ fileName => fileName) (fun _ => None) (fun _ => GET)
    (Uri_file "/r") ([] ++ [("a.http", FsFile None)])
  = ([], ["Failed to parse HTTP file file:///r/a.http"]).
Proof.
  refine (proj1 (proj2 (proj2 (proj2
            (walk_failures (fun _ => None) (fun _ => None)
               (fun _ fileName => fileName) (fun _ => None) (fun _ => GET)
               (Uri_file "/r") "a.http" [] [] [])))) _).
  reflexivity.
Defined.


(** ** The change coordinator (C2, C3) *)

Import FileSyncService.

Section Coordinator.

Context {platform : Platform}.

Variable stringify : string -> option string -> string.
Variable debounceDelay : nat.

Let fireAll (ts : list Timer) (s : State) : State :=
  fold_left (fun st t => fire stringify t st) ts s.

Lemma generate_set_fileUri (v : option UriRef) (r : UIRequest) :
  generate stringify (set_fileUri v r) = generate stringify r.
Proof. destruct r. reflexivity. Qed.

Lemma requestUri_live (x : Uri) (r : UIRequest) :
  requestUri (set_fileUri (Some (LiveUri x)) r) = Some x.
Proof. reflexivity. Qed.

(** *** What one callback does *)

Lemma fire_frame (t : Timer) (s : State) :
  now (fire stringify t s) = now s /\
  nextTimer (fire stringify t s) = nextTimer s /\
  timers (fire stringify t s) = timers s /\
  files (fire stringify t s) = files s /\
  events (fire stringify t s) = events s.
Proof.
  unfold fire, writeRequest. destruct (action t) as [u r | u]; simpl; auto.
  destruct (fileUri r) as [ref|]; simpl; auto.
  destruct (ensureUri ref); simpl; auto.
Qed.

Lemma fire_writes (t : Timer) (s : State) :
  writes (fire stringify t s) = writes s ++ writesOf stringify t.
Proof.
  unfold fire, writeRequest, writesOf, requestUri.
  destruct (action t) as [u r | u]; simpl; [|now rewrite app_nil_r].
  destruct (fileUri r) as [ref|]; simpl; [|now rewrite app_nil_r].
  destruct (ensureUri ref); simpl; [now rewrite app_nil_r | reflexivity].
Qed.

Lemma fire_registry (t : Timer) (s : State) (u : string) :
  (forall r, action t <> DebouncedWrite u r) ->
  writeDebounceTimers (fire stringify t s) !! u = writeDebounceTimers s !! u.
Proof.
  unfold fire, writeRequest. intros H.
  destruct (action t) as [u' r | u']; simpl; [|reflexivity].
  assert (u' <> u) by (intros ->; now apply (H r)).
  rewrite lookup_delete_ne by assumption.
  destruct (fileUri r) as [ref|]; simpl; auto.
  destruct (ensureUri ref); simpl; auto.
Qed.

Lemma fire_pending (t : Timer) (s : State) (P : string) :
  P ∈ pendingWrites (fire stringify t s) <->
  (P ∈ pendingWrites s /\ action t <> ClearPending P) \/
  (exists w, In w (writesOf stringify t) /\ w_uri w = P).
Proof.
  unfold fire, writeRequest, writesOf, requestUri.
  destruct (action t) as [u r | u]; simpl.
  - destruct (fileUri r) as [ref|]; simpl.
    + destruct (ensureUri ref) as [e|x]; simpl.
      * split; [intros H; left; split; [exact H | discriminate]|].
        intros [[H _] | (w & [] & _)]. exact H.
      * rewrite elem_of_union, elem_of_singleton. split.
        -- intros [-> | H]; [right; eexists; split; [now left | reflexivity]|].
           left. split; [exact H | discriminate].
        -- intros [[H _] | (w & [<- | []] & Hw)]; [now right | now left].
    + split; [intros H; left; split; [exact H | discriminate]|].
      intros [[H _] | (w & [] & _)]. exact H.
  - rewrite elem_of_difference, elem_of_singleton. split.
    + intros [H Hne]. left. split; [exact H | congruence].
    + intros [[H Hne] | (w & [] & _)]. split; [exact H | congruence].
Qed.

(** *** What a run of callbacks does *)

Lemma fireAll_frame (ts : list Timer) (s : State) :
  now (fireAll ts s) = now s /\
  nextTimer (fireAll ts s) = nextTimer s /\
  timers (fireAll ts s) = timers s /\
  files (fireAll ts s) = files s /\
  events (fireAll ts s) = events s.
Proof.
  revert s. induction ts as [|t ts IH]; intros s; simpl; [auto 6|].
  destruct (IH (fire stringify t s)) as (-> & -> & -> & -> & ->).
  apply fire_frame.
Qed.

Lemma fireAll_writes (ts : list Timer) (s : State) :
  writes (fireAll ts s) = writes s ++ flat_map (writesOf stringify) ts.
Proof.
  revert s. induction ts as [|t ts IH]; intros s; simpl.
  - now rewrite app_nil_r.
  - unfold fireAll in IH. now rewrite IH, fire_writes, <- app_assoc.
Qed.

Lemma fireAll_registry (ts : list Timer) (s : State) (u : string) :
  (forall t r, In t ts -> action t <> DebouncedWrite u r) ->
  writeDebounceTimers (fireAll ts s) !! u = writeDebounceTimers s !! u.
Proof.
  revert s. induction ts as [|t ts IH]; intros s H; simpl; [reflexivity|].
  unfold fireAll in IH. rewrite IH.
  - apply fire_registry. intros r. apply H. now left.
  - intros t' r Ht'. apply H. now right.
Qed.

Lemma fireAll_pending_kept (ts : list Timer) (s : State) (P : string) :
  (forall t, In t ts -> action t <> ClearPending P) ->
  P ∈ pendingWrites s -> P ∈ pendingWrites (fireAll ts s).
Proof.
  revert s. induction ts as [|t ts IH]; intros s H HP; simpl; [exact HP|].
  apply IH.
  - intros t' Ht'. apply H. now right.
  - apply fire_pending. left. split; [exact HP | apply H; now left].
Qed.

Lemma fireAll_pending_cleared (ts : list Timer) (s : State) (P : string) :
  (forall t w, In t ts -> In w (writesOf stringify t) -> w_uri w <> P) ->
  P ∉ pendingWrites s \/ (exists t, In t ts /\ action t = ClearPending P) ->
  P ∉ pendingWrites (fireAll ts s).
Proof.
  revert s. induction ts as [|t ts IH]; intros s H HP; simpl.
  - destruct HP as [HP | (t & [] & _)]. exact HP.
  - apply IH.
    + intros t' w Ht'. apply H. now right.
    + assert (D : action t = ClearPending P \/ action t <> ClearPending P).
      { destruct (action t) as [u r | u]; [right; discriminate|].
        destruct (decide (u = P)) as [->|]; [now left | right; congruence]. }
      destruct D as [E|E].
      * left. rewrite fire_pending. intros [[_ Hne] | (w & Hw & Hu)].
        -- contradiction.
        -- apply (H t w); auto. now left.
      * destruct HP as [HP | (t' & [<- | Ht'] & Ha)].
        -- left. rewrite fire_pending. intros [[Hin _] | (w & Hw & Hu)].
           ++ contradiction.
           ++ apply (H t w); auto. now left.
        -- contradiction.
        -- right. now exists t'.
Qed.

(** *** Time passing *)

Lemma in_firing (dt : nat) (s : State) (t : Timer) :
  In t (firing dt s) <-> In t (timers s) /\ due t <= now s + dt.
Proof.
  unfold firing. rewrite in_sort, filter_In, Nat.leb_le. reflexivity.
Qed.

Lemma elapse_fireAll (dt : nat) (s : State) :
  elapse stringify dt s
  = fireAll (firing dt s)
      (mkSync (now s + dt) (nextTimer s)
         (List.filter (fun t => negb (due t <=? now s + dt)) (timers s))
         (writeDebounceTimers s) (pendingWrites s) (inflight s) (files s)
         (writes s) (events s)).
Proof. reflexivity. Qed.

Lemma elapse_frame (dt : nat) (s : State) :
  now (elapse stringify dt s) = now s + dt /\
  nextTimer (elapse stringify dt s) = nextTimer s /\
  timers (elapse stringify dt s)
  = List.filter (fun t => negb (due t <=? now s + dt)) (timers s) /\
  files (elapse stringify dt s) = files s /\
  events (elapse stringify dt s) = events s.
Proof.
  rewrite elapse_fireAll.
  match goal with |- context [fireAll ?l ?x] =>
    destruct (fireAll_frame l x) as (-> & -> & -> & -> & ->) end.
  auto 6.
Qed.

Lemma elapse_writes (dt : nat) (s : State) :
  writes (elapse stringify dt s)
  = writes s ++ flat_map (writesOf stringify) (firing dt s).
Proof. rewrite elapse_fireAll. now rewrite fireAll_writes. Qed.

(** *** The invariant *)

Lemma NoDup_map_eq {A B : Type} (f : A -> B) (l : list A) (x y : A) :
  NoDup (map f l) -> In x l -> In y l -> f x = f y -> x = y.
Proof.
  induction l as [|a l IH]; simpl; intros Hnd Hx Hy E; [contradiction|].
  inversion Hnd as [|? ? Hnotin Hnd']; subst.
  destruct Hx as [-> | Hx], Hy as [-> | Hy]; auto.
  - exfalso. apply Hnotin. apply list_elem_of_In. rewrite E.
    now apply in_map.
  - exfalso. apply Hnotin. apply list_elem_of_In. rewrite <- E.
    now apply in_map.
Qed.

Lemma NoDup_map_filter {A B : Type} (f : A -> B) (p : A -> bool) (l : list A) :
  NoDup (map f l) -> NoDup (map f (List.filter p l)).
Proof.
  induction l as [|a l IH]; simpl; intros Hnd; [constructor|].
  inversion Hnd as [|? ? Hnotin Hnd']; subst.
  destruct (p a); simpl; [|auto].
  constructor; [|auto]. intros Hin. apply Hnotin.
  apply list_elem_of_In in Hin. apply list_elem_of_In.
  apply in_map_iff in Hin as (x & Hx & Hin). apply filter_In in Hin as [Hin _].
  rewrite <- Hx. now apply in_map.
Qed.

Lemma wellFormed_initial (disk : gmap string string) : wellFormed (initial disk).
Proof. repeat split; simpl; try constructor; intros; contradiction. Qed.

Lemma wellFormed_subset (s : State) (p : Timer -> bool) (s' : State) :
  wellFormed s ->
  timers s' = List.filter p (timers s) ->
  writeDebounceTimers s' = writeDebounceTimers s ->
  nextTimer s' = nextTimer s ->
  wellFormed s'.
Proof.
  intros (Hreg & Hnd & Hlt) Ht Hm Hn. unfold wellFormed.
  rewrite Ht, Hm, Hn. repeat split.
  - eapply Hreg; eauto. apply filter_In in H. apply H.
  - eapply Hreg; eauto. apply filter_In in H. apply H.
  - now apply NoDup_map_filter.
  - intros t Hin. apply Hlt. apply filter_In in Hin. apply Hin.
Qed.

Lemma wellFormed_same (s s' : State) :
  wellFormed s ->
  timers s' = timers s ->
  writeDebounceTimers s' = writeDebounceTimers s ->
  nextTimer s' = nextTimer s ->
  wellFormed s'.
Proof.
  intros Hwf Ht Hm Hn. apply (wellFormed_subset s (fun _ => true)); auto.
  rewrite Ht. symmetry. apply forallb_filter_id. now apply forallb_forall.
Qed.

(** A new timer, appended under the next identifier. *)
Lemma wellFormed_started (s : State) (p : Timer -> bool) (t : Timer)
  (m : gmap string nat) (s' : State) :
  wellFormed s ->
  timers s' = List.filter p (timers s) ++ [t] ->
  timer_id t = nextTimer s ->
  nextTimer s' = S (nextTimer s) ->
  writeDebounceTimers s' = m ->
  (forall t' u r, In t' (List.filter p (timers s)) ->
     action t' = DebouncedWrite u r ->
     m !! u = writeDebounceTimers s !! u) ->
  (forall u r, action t = DebouncedWrite u r ->
     m !! u = Some (timer_id t) /\ exists x, requestUri r = Some x /\ Uri_toString x = u) ->
  wellFormed s'.
Proof.
  intros (Hreg & Hnd & Hlt) Ht Hid Hn Hm Hold Hnew. unfold wellFormed.
  rewrite Ht, Hm, Hn. repeat split.
  - apply in_app_or in H as [H | [<- | []]].
    + rewrite (Hold _ _ _ H H0). eapply Hreg; eauto.
      apply filter_In in H. apply H.
    + now apply Hnew in H0.
  - apply in_app_or in H as [H | [<- | []]].
    + eapply Hreg; eauto. apply filter_In in H. apply H.
    + now apply Hnew in H0.
  - rewrite map_app. simpl. apply NoDup_app. repeat split.
    + now apply NoDup_map_filter.
    + intros i Hi Hi'. apply list_elem_of_In in Hi, Hi'.
      destruct Hi' as [<- | []].
      apply in_map_iff in Hi as (x & Hx & Hin). apply filter_In in Hin as [Hin _].
      apply Hlt in Hin. lia.
    + repeat constructor. intros Hin. apply list_elem_of_In in Hin. destruct Hin.
  - intros t' Hin. apply in_app_or in Hin as [Hin | [<- | []]].
    + apply filter_In in Hin as [Hin _]. apply Hlt in Hin. lia.
    + lia.
Qed.

Lemma writeRequest_frame (r : UIRequest) (s : State) :
  now (writeRequest stringify r s) = now s /\
  nextTimer (writeRequest stringify r s) = nextTimer s /\
  timers (writeRequest stringify r s) = timers s /\
  writeDebounceTimers (writeRequest stringify r s) = writeDebounceTimers s /\
  files (writeRequest stringify r s) = files s /\
  events (writeRequest stringify r s) = events s.
Proof.
  unfold writeRequest. destruct (fileUri r) as [ref|]; simpl; auto 7.
  destruct (ensureUri ref); simpl; auto 7.
Qed.

(** The timers that [saveRequest] keeps: all but the registered one. *)
Let kept (s : State) (P : string) (t : Timer) : bool :=
  match writeDebounceTimers s !! P with
  | Some existingTimer => negb (Nat.eqb (timer_id t) existingTimer)
  | None => true
  end.

Lemma kept_timers (s : State) (P : string) :
  match writeDebounceTimers s !! P with
  | Some existingTimer => clearTimeout existingTimer (timers s)
  | None => timers s
  end = List.filter (kept s P) (timers s).
Proof.
  unfold kept, clearTimeout. destruct (writeDebounceTimers s !! P); [reflexivity|].
  symmetry. apply forallb_filter_id. now apply forallb_forall.
Qed.

Lemma kept_unregistered (s : State) (P : string) (t : Timer) :
  In t (List.filter (kept s P) (timers s)) ->
  writeDebounceTimers s !! P <> Some (timer_id t).
Proof.
  intros Hin E. apply filter_In in Hin as [_ Hk]. unfold kept in Hk.
  rewrite E, Nat.eqb_refl in Hk. discriminate.
Qed.

Lemma requestUri_inv (m : UIRequest) (x : Uri) :
  requestUri m = Some x ->
  exists ref, fileUri m = Some ref /\ ensureUri ref = inr x.
Proof.
  unfold requestUri. destruct (fileUri m) as [ref|]; [|discriminate].
  destruct (ensureUri ref) as [e|y] eqn:E; [discriminate|].
  intros [= ->]. eauto.
Qed.

(** A debounced [saveRequest] that does not throw. *)
Lemma save_debounced (s : State) (m : UIRequest) (x : Uri) :
  requestUri m = Some x ->
  step stringify debounceDelay s (CallSave m false)
  = mkSync (now s) (S (nextTimer s))
      (List.filter (kept s (Uri_toString x)) (timers s) ++
       [mkTimer (nextTimer s) (now s + debounceDelay)
          (DebouncedWrite (Uri_toString x) (set_fileUri (Some (LiveUri x)) m))])
      (<[ Uri_toString x := nextTimer s ]> (writeDebounceTimers s))
      (pendingWrites s) (inflight s) (files s) (writes s) (events s).
Proof.
  intros H. apply requestUri_inv in H as (ref & Hf & He).
  unfold step, saveRequest. rewrite Hf, He. now rewrite kept_timers.
Qed.

(** An immediate [saveRequest] that does not throw. *)
Lemma save_immediate (s : State) (m : UIRequest) (x : Uri) :
  requestUri m = Some x ->
  step stringify debounceDelay s (CallSave m true)
  = mkSync (now s) (nextTimer s)
      (List.filter (kept s (Uri_toString x)) (timers s))
      (writeDebounceTimers s) ({[ Uri_toString x ]} ∪ pendingWrites s)
      (inflight s ++ [mkWrite (Uri_toString x) (generate stringify m)])
      (files s)
      (writes s ++ [mkWrite (Uri_toString x) (generate stringify m)])
      (events s).
Proof.
  intros H. apply requestUri_inv in H as (ref & Hf & He).
  unfold step, saveRequest. rewrite Hf, He. rewrite kept_timers.
  unfold writeRequest. cbn [fileUri set_fileUri ensureUri].
  now rewrite generate_set_fileUri.
Qed.

Lemma wellFormed_step (s : State) (a : Action) :
  wellFormed s -> wellFormed (step stringify debounceDelay s a).
Proof.
  intros Hwf. destruct a as [m immediate | k ok | dt | uri text | uri].
  - destruct (requestUri m) as [x|] eqn:Hx.
    + destruct immediate.
      * rewrite (save_immediate _ _ _ Hx).
        now apply (wellFormed_subset s (kept s (Uri_toString x))).
      * rewrite (save_debounced _ _ _ Hx).
        apply (wellFormed_started s (kept s (Uri_toString x))
                 (mkTimer (nextTimer s) (now s + debounceDelay)
                    (DebouncedWrite (Uri_toString x)
                       (set_fileUri (Some (LiveUri x)) m)))
                 (<[ Uri_toString x := nextTimer s ]> (writeDebounceTimers s)));
          try reflexivity; [exact Hwf | |].
        -- intros t' u r Hin Ha.
           destruct (decide (Uri_toString x = u)) as [<-|Hne].
           ++ exfalso. apply (kept_unregistered _ _ _ Hin).
              apply filter_In in Hin as [Hin _].
              destruct Hwf as (Hreg & _). now apply (Hreg _ _ _ Hin Ha).
           ++ now rewrite lookup_insert_ne.
        -- cbn [action timer_id]. intros u r [= <- <-].
           rewrite lookup_insert_eq. eauto.
    + unfold step, saveRequest. unfold requestUri in Hx.
      destruct (fileUri m) as [ref|]; [|exact Hwf].
      destruct (ensureUri ref); [exact Hwf | discriminate].
  - unfold step, writeDone. destruct (inflight s !! k) as [op|]; [|exact Hwf].
    apply (wellFormed_started s (fun _ => true)
             (mkTimer (nextTimer s) (now s + GRACE) (ClearPending (w_uri op)))
             (writeDebounceTimers s));
      try reflexivity; try discriminate; try exact Hwf.
    cbn [timers]. f_equal. symmetry. apply forallb_filter_id.
    now apply forallb_forall.
  - unfold step. destruct (elapse_frame dt s) as (_ & Hn & Ht & _ & _).
    destruct Hwf as (Hreg & Hnd & Hlt). unfold wellFormed.
    rewrite Hn, Ht. repeat split.
    + apply filter_In in H as [Hin Hdue].
      rewrite elapse_fireAll, fireAll_registry; [now apply (Hreg _ _ _ Hin H0)|].
      intros t' r' Hin' Ha'. apply in_firing in Hin' as [Hin' Hdue'].
      assert (t = t').
      { apply (NoDup_map_eq timer_id (timers s)); auto.
        destruct (Hreg _ _ _ Hin H0) as [E _].
        destruct (Hreg _ _ _ Hin' Ha') as [E' _]. congruence. }
      subst t'. apply negb_true_iff, Nat.leb_gt in Hdue. lia.
    + apply filter_In in H as [Hin _]. now apply (Hreg _ _ _ Hin H0).
    + now apply NoDup_map_filter.
    + intros t Hin. apply filter_In in Hin as [Hin _]. auto.
  - now apply (wellFormed_same s).
  - unfold step, onFileChanged.
    destruct (decide (Uri_toString uri ∈ pendingWrites s)); [exact Hwf|].
    destruct (isEnvironmentFile uri); [now apply (wellFormed_same s)|].
    destruct (isHttpFile uri); [|now apply (wellFormed_same s)].
    destruct (files s !! Uri_toString uri); [now apply (wellFormed_same s) | exact Hwf].
Qed.

Lemma wellFormed_run (trace : list Action) (s : State) :
  wellFormed s -> wellFormed (run stringify debounceDelay s trace).
Proof.
  revert s. induction trace as [|a trace IH]; intros s H; simpl; [exact H|].
  apply IH. now apply wellFormed_step.
Qed.

Lemma reachable_wellFormed (s : State) :
  reachable stringify debounceDelay s -> wellFormed s.
Proof.
  intros (disk & trace & ->). apply wellFormed_run, wellFormed_initial.
Qed.

(** *** Who writes to a path *)

Lemma writer_registered (s : State) (t : Timer) (w : WriteOp) :
  wellFormed s -> In t (timers s) -> In w (writesOf stringify t) ->
  writeDebounceTimers s !! w_uri w = Some (timer_id t).
Proof.
  intros (Hreg & _) Hin Hw. unfold writesOf in Hw.
  destruct (action t) as [u r | u] eqn:Ha; [|destruct Hw].
  destruct (Hreg _ _ _ Hin Ha) as (E & x & Hx & Hu).
  rewrite Hx in Hw. destruct Hw as [<- | []]. simpl. now rewrite Hu.
Qed.

Lemma NoDup_insertBy {A : Type} (cmp : A -> A -> Z) (x : A) (l : list A) :
  NoDup (x :: l) -> NoDup (insertBy cmp x l).
Proof.
  induction l as [|y l IH]; simpl; intros H; [exact H|].
  destruct (cmp x y <=? 0)%Z; [exact H|].
  inversion H as [|? ? Hx Hyl]; subst. inversion Hyl as [|? ? Hy Hl]; subst.
  rewrite list_elem_of_In in Hx, Hy. simpl in Hx.
  constructor.
  - rewrite list_elem_of_In, in_insertBy. intuition congruence.
  - apply IH. constructor; [|exact Hl]. rewrite list_elem_of_In. intuition.
Qed.

Lemma NoDup_sort {A : Type} (cmp : A -> A -> Z) (l : list A) :
  NoDup l -> NoDup (sort cmp l).
Proof.
  induction l as [|x l IH]; simpl; intros H; [constructor|].
  inversion H as [|? ? Hx Hl]; subst. apply NoDup_insertBy.
  constructor; [|auto]. rewrite list_elem_of_In in *.
  change (fold_right (insertBy cmp) [] l) with (sort cmp l).
  now rewrite in_sort.
Qed.

Lemma NoDup_unmap {A B : Type} (f : A -> B) (l : list A) :
  NoDup (map f l) -> NoDup l.
Proof.
  induction l as [|x l IH]; simpl; intros H; [constructor|].
  inversion H as [|? ? Hx Hl]; subst. constructor; [|auto].
  intros Hin. apply Hx. apply list_elem_of_In. apply list_elem_of_In in Hin.
  now apply in_map.
Qed.

Lemma NoDup_firing (dt : nat) (s : State) :
  wellFormed s -> NoDup (firing dt s).
Proof.
  intros (_ & Hnd & _). unfold firing. apply NoDup_sort.
  apply NoDup_unmap with (f := timer_id). now apply NoDup_map_filter.
Qed.

Lemma writesTo_app (P : string) (a b : list WriteOp) :
  writesTo P (a ++ b) = writesTo P a ++ writesTo P b.
Proof. apply List.filter_app. Qed.

Lemma writesTo_nil (P : string) (ws : list WriteOp) :
  (forall w, In w ws -> w_uri w <> P) -> writesTo P ws = [].
Proof.
  induction ws as [|w ws IH]; intros H; simpl; [reflexivity|].
  destruct (String.eqb_spec (w_uri w) P) as [E|_].
  - exfalso. apply (H w); [now left | exact E].
  - apply IH. intros w' Hw'. apply H. now right.
Qed.

Lemma writesTo_none (P : string) (ts : list Timer) :
  (forall t w, In t ts -> In w (writesOf stringify t) -> w_uri w <> P) ->
  writesTo P (flat_map (writesOf stringify) ts) = [].
Proof.
  intros H. apply writesTo_nil. intros w Hw.
  apply in_flat_map in Hw as (t & Ht & Hw). eauto.
Qed.

(** When one timer of a list without repetition is the only one that
    writes to a path, the writes to that path are its writes. *)
Lemma writesTo_one (P : string) (ts : list Timer) (T : Timer) :
  NoDup ts -> In T ts ->
  (forall t w, In t ts -> In w (writesOf stringify t) -> w_uri w = P -> t = T) ->
  writesTo P (flat_map (writesOf stringify) ts)
  = writesTo P (writesOf stringify T).
Proof.
  induction 1 as [|x l Hx Hl IH]; intros Hin Hone; [destruct Hin|].
  rewrite list_elem_of_In in Hx. simpl. rewrite writesTo_app.
  destruct Hin as [-> | Hin].
  - rewrite writesTo_none, app_nil_r; [reflexivity|].
    intros t w Ht Hw E. apply Hx.
    rewrite <- (Hone t w); auto. now right.
  - rewrite (writesTo_nil P (writesOf stringify x)).
    + apply IH; [exact Hin|]. intros t w Ht. apply Hone. now right.
    + intros w Hw E. apply Hx.
      rewrite (Hone x w); auto. now left.
Qed.

Lemma save_debounced_facts (s : State) (m : UIRequest) (x : Uri) :
  requestUri m = Some x ->
  let s' := step stringify debounceDelay s (CallSave m false) in
  let T := mkTimer (nextTimer s) (now s + debounceDelay)
             (DebouncedWrite (Uri_toString x) (set_fileUri (Some (LiveUri x)) m)) in
  In T (timers s') /\
  writeDebounceTimers s' !! Uri_toString x = Some (nextTimer s) /\
  writes s' = writes s /\ now s' = now s /\ nextTimer s' = S (nextTimer s).
Proof.
  intros H. cbv zeta. rewrite (save_debounced _ _ _ H). cbn.
  repeat split.
  - apply in_or_app. right. now left.
  - apply lookup_insert_eq.
Qed.

(** C3: in any reachable state, two debounced saves to one path, the
    second less than the debounce delay after the first, followed by the
    delay at least: after the second call the only debounce timer for the
    path is the one that call started, and when the time has passed the
    path has been written once, with the text generated from the request
    of the second call. *)
Theorem debounce_coalesces (s : State) (m1 m2 : UIRequest) (uri1 uri2 : Uri)
  (d1 d2 : nat) :
  reachable stringify debounceDelay s ->
  requestUri m1 = Some uri1 -> requestUri m2 = Some uri2 ->
  Uri_toString uri1 = Uri_toString uri2 ->
  d1 < debounceDelay -> debounceDelay <= d2 ->
  let P := Uri_toString uri2 in
  let second := mkTimer (S (nextTimer s)) (now s + d1 + debounceDelay)
                  (DebouncedWrite P (set_fileUri (Some (LiveUri uri2)) m2)) in
  let s2 := run stringify debounceDelay s
              [CallSave m1 false; Elapse d1; CallSave m2 false] in
  let s3 := step stringify debounceDelay s2 (Elapse d2) in
  (forall t r, In t (timers s2) -> action t = DebouncedWrite P r -> t = second) /\
  exists ws,
    writes s3 = writes s ++ ws /\
    writesTo P ws = [mkWrite P (generate stringify m2)].
Proof.
  intros Hr H1 H2 HP Hd1 Hd2. cbv zeta. cbn [run fold_left].
  apply reachable_wellFormed in Hr.
  (* the first call *)
  pose proof (save_debounced_facts s m1 uri1 H1) as F1. cbv zeta in F1.
  pose proof (wellFormed_step s (CallSave m1 false) Hr) as W1.
  set (s1 := step stringify debounceDelay s (CallSave m1 false)) in *.
  destruct F1 as (T1in & M1 & Wr1 & N1 & X1). rewrite HP in M1.
  (* less than the delay passes *)
  pose proof (wellFormed_step s1 (Elapse d1) W1) as W1e.
  pose proof (elapse_frame d1 s1) as (N1e & X1e & _).
  pose proof (elapse_writes d1 s1) as Wr1e.
  assert (Q1 : writesTo (Uri_toString uri2)
                 (flat_map (writesOf stringify) (firing d1 s1)) = []).
  { apply writesTo_none. intros t w Ht Hw E.
    apply in_firing in Ht as [Ht Hdue].
    pose proof (writer_registered s1 t w W1 Ht Hw) as R.
    rewrite E, M1 in R. injection R as R.
    assert (t = mkTimer (nextTimer s) (now s + debounceDelay)
                  (DebouncedWrite (Uri_toString uri1)
                     (set_fileUri (Some (LiveUri uri1)) m1))) as ->.
    { destruct W1 as (_ & Hnd & _).
      apply (NoDup_map_eq timer_id (timers s1)); auto. }
    cbn [due] in Hdue. lia. }
  change (step stringify debounceDelay s1 (Elapse d1))
    with (elapse stringify d1 s1) in *.
  set (s1e := elapse stringify d1 s1) in *.
  (* the second call *)
  pose proof (save_debounced_facts s1e m2 uri2 H2) as F2. cbv zeta in F2.
  pose proof (wellFormed_step s1e (CallSave m2 false) W1e) as W2.
  set (s2 := step stringify debounceDelay s1e (CallSave m2 false)) in *.
  destruct F2 as (T2in & M2 & Wr2 & N2 & X2).
  rewrite X1e, X1, N1e, N1 in T2in. rewrite X1e, X1 in M2.
  set (second := mkTimer (S (nextTimer s)) (now s + d1 + debounceDelay)
         (DebouncedWrite (Uri_toString uri2)
            (set_fileUri (Some (LiveUri uri2)) m2))) in *.
  assert (Only : forall t, In t (timers s2) ->
                 writeDebounceTimers s2 !! Uri_toString uri2 = Some (timer_id t) ->
                 t = second).
  { intros t Ht R. destruct W2 as (_ & Hnd & _).
    apply (NoDup_map_eq timer_id (timers s2)); auto.
    rewrite M2 in R. now injection R as <-. }
  split.
  - intros t r Ht Ha. apply Only; [exact Ht|].
    destruct W2 as (Hreg & _). now apply (Hreg _ _ _ Ht Ha).
  - (* the delay passes *)
    exists (flat_map (writesOf stringify) (firing d1 s1) ++
            flat_map (writesOf stringify) (firing d2 s2)).
    split.
    + change (step stringify debounceDelay s2 (Elapse d2))
        with (elapse stringify d2 s2).
      rewrite elapse_writes, Wr2, Wr1e, Wr1. now rewrite <- app_assoc.
    + rewrite writesTo_app, Q1. cbn [app].
      rewrite (writesTo_one (Uri_toString uri2) (firing d2 s2) second).
      * unfold writesOf, second. cbn [action]. rewrite requestUri_live.
        cbn [writesTo List.filter w_uri]. rewrite String.eqb_refl.
        now rewrite generate_set_fileUri.
      * now apply NoDup_firing.
      * apply in_firing. split; [exact T2in|].
        unfold second. cbn [due]. rewrite N2, N1e, N1. lia.
      * intros t w Ht Hw E. apply in_firing in Ht as [Ht _].
        apply Only; [exact Ht|]. rewrite <- E.
        now apply (writer_registered s2 t w).
Qed.

(** An immediate save whose [writeFile] has returned. *)
Lemma save_immediate_done (s : State) (m : UIRequest) (x : Uri) (ok : bool) :
  requestUri m = Some x ->
  let s1 := run stringify debounceDelay s
              [CallSave m true; WriteDone (length (inflight s)) ok] in
  let grace := mkTimer (nextTimer s) (now s + GRACE)
                 (ClearPending (Uri_toString x)) in
  timers s1 = List.filter (kept s (Uri_toString x)) (timers s) ++ [grace] /\
  pendingWrites s1 = {[ Uri_toString x ]} ∪ pendingWrites s /\
  writeDebounceTimers s1 = writeDebounceTimers s /\
  now s1 = now s /\ events s1 = events s.
Proof.
  intros H. cbv zeta. cbn [run fold_left]. rewrite (save_immediate _ _ _ H).
  unfold step, writeDone. cbn [inflight].
  rewrite lookup_app_r by lia. rewrite Nat.sub_diag. cbn [lookup list_lookup].
  cbn. auto.
Qed.

(** C2, amended.  While a path is in [pendingWrites] a change notification
    for it does nothing, whatever caused the change.  After an immediate
    save has completed the path is in that set; the notification of a
    change that another process makes less than 100 ms later is
    suppressed too, as long as no timer of an earlier write to the path
    removes the path meanwhile; from 100 ms on, the notification of such a
    change to a request file emits the request-changed event with the
    re-parsed file. *)
Theorem self_write_window (s : State) (m : UIRequest) (uri : Uri)
  (text : string) (dt : nat) :
  reachable stringify debounceDelay s ->
  requestUri m = Some uri ->
  let P := Uri_toString uri in
  let s1 := run stringify debounceDelay s
              [CallSave m true; WriteDone (length (inflight s)) true] in
  let s2 := run stringify debounceDelay s1
              [Elapse dt; ExternalWrite uri text; WatcherChanged uri] in
  (forall s' u, Uri_toString u ∈ pendingWrites s' ->
     step stringify debounceDelay s' (WatcherChanged u) = s') /\
  P ∈ pendingWrites s1 /\
  (dt < GRACE ->
   (forall t, In t (timers s) -> action t <> ClearPending P) ->
   events s2 = events s) /\
  (GRACE <= dt -> isEnvironmentFile uri = false -> isHttpFile uri = true ->
   events s2 = events s ++
     [RequestChanged uri (parseHttpText text (Some uri) "")]).
Proof.
  intros Hr Hm. cbv zeta.
  pose proof (save_immediate_done s m uri true Hm) as F. cbv zeta in F.
  assert (W1 : wellFormed
                 (run stringify debounceDelay s
                    [CallSave m true; WriteDone (length (inflight s)) true])).
  { apply wellFormed_run. now apply reachable_wellFormed. }
  set (s1 := run stringify debounceDelay s
               [CallSave m true; WriteDone (length (inflight s)) true]) in *.
  destruct F as (T1 & P1 & M1 & N1 & E1).
  set (grace := mkTimer (nextTimer s) (now s + GRACE)
                  (ClearPending (Uri_toString uri))) in *.
  assert (Hsup : forall s' u, Uri_toString u ∈ pendingWrites s' ->
                 step stringify debounceDelay s' (WatcherChanged u) = s').
  { intros s' u Hin. unfold step, onFileChanged.
    now destruct (decide (Uri_toString u ∈ pendingWrites s')). }
  split; [exact Hsup|].
  split; [rewrite P1; apply elem_of_union; left; now apply elem_of_singleton|].
  cbn [run fold_left].
  change (step stringify debounceDelay s1 (Elapse dt)) with (elapse stringify dt s1).
  destruct (elapse_frame dt s1) as (_ & _ & _ & _ & Ee).
  split.
  - intros Hdt Hquiet.
    assert (Hin : Uri_toString uri ∈ pendingWrites (elapse stringify dt s1)).
    { rewrite elapse_fireAll. apply fireAll_pending_kept.
      - intros t Ht Ha. apply in_firing in Ht as [Ht Hdue].
        rewrite T1 in Ht. apply in_app_or in Ht as [Ht | [<- | []]].
        + apply filter_In in Ht as [Ht _]. now apply (Hquiet t).
        + subst grace. cbn [due] in Hdue. rewrite N1 in Hdue. lia.
      - cbn [pendingWrites]. rewrite P1. apply elem_of_union. left.
        now apply elem_of_singleton. }
    rewrite Hsup by exact Hin. cbn [step externalWrite events].
    now rewrite Ee, E1.
  - intros Hdt Henv Hhttp.
    assert (Hout : Uri_toString uri ∉ pendingWrites (elapse stringify dt s1)).
    { rewrite elapse_fireAll. apply fireAll_pending_cleared.
      - intros t w Ht Hw E. apply in_firing in Ht as [Ht _].
        pose proof (writer_registered s1 t w W1 Ht Hw) as R.
        rewrite E, M1 in R.
        rewrite T1 in Ht. apply in_app_or in Ht as [Ht | [<- | []]].
        + now apply (kept_unregistered _ _ _ Ht).
        + destruct Hw.
      - right. exists grace. split; [|reflexivity].
        apply in_firing. split.
        + rewrite T1. apply in_or_app. right. now left.
        + subst grace. cbn [due]. rewrite N1. lia. }
    unfold step at 1. unfold onFileChanged.
    cbn [step externalWrite pendingWrites files events now nextTimer timers
         writeDebounceTimers inflight writes].
    destruct (decide (Uri_toString uri ∈ pendingWrites (elapse stringify dt s1)));
      [contradiction|].
    rewrite Henv, Hhttp, lookup_insert_eq. cbn [events].
    now rewrite Ee, E1.
Qed.

End Coordinator.

(** C2, as stated, fails: 50 ms after an immediate save has completed,
    another process changes the file; the notification of that change is
    suppressed and no request-changed event is emitted. *)
Lemma external_change_counterexample :
  let uri := Uri_file "/r/a.http" in
  let m := mkRequest "1" "R" None None GET "http://x" [] []
             (mkBody BodyNone None None None) None None (Some (LiveUri uri)) in
  let s := run (fun q _ => q) 300 (initial ∅)
             [CallSave m true; WriteDone 0 true; Elapse 50;
              ExternalWrite uri "POST http://y"; WatcherChanged uri] in
  files s !! Uri_toString uri = Some "POST http://y" /\ events s = [].
Proof. vm_compute. split; reflexivity. Qed.

Lemma debounce_coalesces_witness :
  let uri := Uri_file "/r/a.http" in
  let m1 := mkRequest "1" "R" None None GET "http://x" [] []
              (mkBody BodyNone None None None) None None (Some (LiveUri uri)) in
  let m2 := mkRequest "1" "R" None None GET "http://y" [] []
              (mkBody BodyNone None None None) None None
              (Some (PlainUri (Some "/r/a.http") None)) in
  let s3 := run (fun q _ => q) 300 (initial ∅)
              [CallSave m1 false; Elapse 100; CallSave m2 false; Elapse 300] in
  exists ws,
    writes s3 = [] ++ ws /\
    writesTo "file:///r/a.http" ws
    = [mkWrite "file:///r/a.http" (generate (fun q _ => q) m2)].
Proof.
  intros uri m1 m2 s3.
  refine (proj2 (debounce_coalesces (fun q _ => q) 300 (initial ∅) m1 m2 uri uri
                   100 300 _ _ _ _ _ _)).
  - exists ∅, []. reflexivity.
  - reflexivity.
  - reflexivity.
  - reflexivity.
  - lia.
  - lia.
Defined.

Lemma self_write_window_witness :
  let uri := Uri_file "/r/a.http" in
  let m := mkRequest "1" "R" None None GET "http://x" [] []
             (mkBody BodyNone None None None) None None (Some (LiveUri uri)) in
  let s2 := run (fun q _ => q) 300 (initial ∅)
              [CallSave m true; WriteDone 0 true; Elapse 100;
               ExternalWrite uri "POST http://y"; WatcherChanged uri] in
  events s2
  = [] ++ [RequestChanged uri (parseHttpText "POST http://y" (Some uri) "")].
Proof.
  intros uri m s2.
  refine (proj2 (proj2 (proj2
            (self_write_window (fun q _ => q) 300 (initial ∅) m uri
               "POST http://y" 100 _ _))) _ _ _).
  - exists ∅, []. reflexivity.
  - reflexivity.
  - unfold GRACE. lia.
  - reflexivity.
  - reflexivity.
Defined.

(** ** Query strings: encoding and decoding *)

Lemma allChars_app (f : ascii -> bool) (a b : string) :
  allChars f (a +:+ b) = allChars f a && allChars f b.
Proof.
  induction a as [|c a IH]; simpl; [reflexivity|].
  now rewrite IH, andb_assoc.
Qed.

Lemma allChars_impl (f g : ascii -> bool) (s : string) :
  (forall c, f c = true -> g c = true) ->
  allChars f s = true -> allChars g s = true.
Proof.
  intros H. induction s as [|c s IH]; simpl; [reflexivity|].
  intros E. apply andb_prop in E as [Ec Es]. now rewrite (H c Ec), IH.
Qed.

Lemma allChars_absent (f : ascii -> bool) (c : ascii) (s : string) :
  f c = false -> allChars f s = true -> includes (String c "") s = false.
Proof.
  intros Hc. induction s as [|a s IH]; [reflexivity|].
  simpl allChars. intros E. apply andb_prop in E as [Ea Es].
  rewrite includes_char_cons, (IH Es), orb_false_r.
  destruct (Ascii.eqb_spec c a) as [->|]; congruence.
Qed.

Lemma encodeChar_encoded (c : ascii) : allChars encoded (encodeChar c) = true.
Proof. destruct c as [[] [] [] [] [] [] [] []]; reflexivity. Qed.

Lemma encodeURIComponent_encoded (s : string) :
  allChars encoded (encodeURIComponent s) = true.
Proof.
  induction s as [|c s IH]; simpl; [reflexivity|].
  now rewrite allChars_app, encodeChar_encoded, IH.
Qed.

Lemma percentDecode_encodeChar (c : ascii) (rest : string) :
  percentDecode (encodeChar c +:+ rest) = String c (percentDecode rest).
Proof. destruct c as [[] [] [] [] [] [] [] []]; reflexivity. Qed.

Lemma percentDecode_encode (s : string) :
  percentDecode (encodeURIComponent s) = s.
Proof.
  induction s as [|c s IH]; simpl; [reflexivity|].
  now rewrite percentDecode_encodeChar, IH.
Qed.

Lemma plusToSpace_encoded (s : string) :
  allChars encoded s = true -> plusToSpace s = s.
Proof.
  unfold plusToSpace. induction s as [|c s IH]; simpl; [reflexivity|].
  intros E. apply andb_prop in E as [Ec Es]. rewrite (IH Es).
  destruct (Ascii.eqb_spec c "+") as [->|]; [discriminate | reflexivity].
Qed.

(** Decoding undoes encoding, for well-formed text. *)
Lemma decode_encode (s : string) :
  wellFormedText s -> decodeComponent (encodeURIComponent s) = s.
Proof.
  intros W. unfold decodeComponent.
  rewrite plusToSpace_encoded by apply encodeURIComponent_encoded.
  rewrite percentDecode_encode. exact W.
Qed.

Lemma cut_at_first (c : ascii) (a b : string) :
  includes (String c "") a = false -> cut c (a +:+ String c b) = Some (a, b).
Proof.
  induction a as [|x a IH]; intros H.
  - simpl. now rewrite Ascii.eqb_refl.
  - rewrite includes_char_cons in H. apply orb_false_elim in H as [Hx Ha].
    simpl. rewrite Ascii.eqb_sym, Hx, (IH Ha). reflexivity.
Qed.

Lemma parsePair_encoded (k v : string) :
  wellFormedText k -> wellFormedText v ->
  parsePair (encodeURIComponent k +:+ "=" +:+ encodeURIComponent v) = (k, v).
Proof.
  intros Wk Wv. unfold parsePair. change ("=" +:+ encodeURIComponent v)
    with (String "=" (encodeURIComponent v)).
  rewrite cut_at_first.
  - now rewrite !decode_encode by assumption.
  - apply (allChars_absent encoded); [reflexivity|].
    apply encodeURIComponent_encoded.
Qed.

Lemma encodeURIComponent_nonempty (s : string) :
  s <> "" -> encodeURIComponent s <> "".
Proof.
  destruct s as [|c s]; [congruence|]. intros _. simpl.
  destruct c as [[] [] [] [] [] [] [] []]; discriminate.
Qed.

Section QueryString.

Let pairText (p : QueryParam) : string :=
  encodeURIComponent (p_key p) +:+ "=" +:+ encodeURIComponent (p_value p).

Lemma pairText_encoded (p : QueryParam) :
  allChars (fun c => encoded c || Ascii.eqb c "=") (pairText p) = true.
Proof.
  unfold pairText. rewrite !allChars_app. simpl.
  rewrite !(allChars_impl encoded _ _ (fun c H => orb_true_intro _ _ (or_introl H)));
    auto using encodeURIComponent_encoded.
Qed.

Lemma queryString_chars (ps : list QueryParam) :
  allChars (fun c => encoded c || Ascii.eqb c "=" || Ascii.eqb c "&")
           (join "&" (map pairText ps)) = true.
Proof.
  induction ps as [|p ps IH]; [reflexivity|].
  assert (Hp : allChars (fun c => encoded c || Ascii.eqb c "=" || Ascii.eqb c "&")
                        (pairText p) = true).
  { eapply allChars_impl; [|apply pairText_encoded].
    intros c H. simpl in H. now rewrite H. }
  destruct ps as [|q ps]; [exact Hp|].
  change (join "&" (map pairText (p :: q :: ps)))
    with (pairText p +:+ "&" +:+ join "&" (map pairText (q :: ps))).
  rewrite !allChars_app, Hp, IH. reflexivity.
Qed.

(** The query string that [buildUrl] writes decodes to the parameters. *)
Lemma URLSearchParams_queryString (ps : list QueryParam) :
  ps <> [] -> Forall writtenParam ps ->
  URLSearchParams (join "&" (map pairText ps))
  = map (fun p => (p_key p, p_value p)) ps.
Proof.
  intros Hne Hps. unfold URLSearchParams.
  assert (Hq : match join "&" (map pairText ps) with
               | String c r => if Ascii.eqb c "?" then r else join "&" (map pairText ps)
               | "" => join "&" (map pairText ps)
               end = join "&" (map pairText ps)).
  { pose proof (queryString_chars ps) as Hc.
    destruct (join "&" (map pairText ps)) as [|c r]; [reflexivity|].
    simpl in Hc. apply andb_prop in Hc as [Hc _].
    destruct (Ascii.eqb_spec c "?") as [->|]; [discriminate | reflexivity]. }
  rewrite Hq. change "&"%string with (String "&"%char "").
  rewrite split_join_lines.
  - clear Hne Hq. induction Hps as [|p ps (_ & Hk & Wk & Wv) _ IH]; [reflexivity|].
    simpl. assert (Ht : truthy (pairText p) = true).
    { unfold pairText. pose proof (encodeURIComponent_nonempty _ Hk).
      destruct (encodeURIComponent (p_key p)); [congruence | reflexivity]. }
    rewrite Ht. simpl. rewrite IH. f_equal. now apply parsePair_encoded.
  - destruct ps; [congruence | discriminate].
  - apply List.Forall_forall. intros l Hl.
    apply in_map_iff in Hl as (p & <- & _).
    apply (allChars_absent (fun c => encoded c || Ascii.eqb c "=")); [reflexivity|].
    apply pairText_encoded.
Qed.

End QueryString.

(** ** One line at a time *)

Lemma startsWith_app (a b t : string) :
  startsWith (a +:+ b) t = true -> startsWith a t = true.
Proof.
  revert t. induction a as [|c a IH]; intros t; [reflexivity|].
  destruct t as [|d t]; simpl; [discriminate|].
  intros H. apply andb_prop in H as [-> H]. now apply IH.
Qed.

Lemma startsWith_longer (a b t : string) :
  startsWith a t = false -> startsWith (a +:+ b) t = false.
Proof.
  intros H. destruct (startsWith (a +:+ b) t) eqn:E; [|reflexivity].
  apply startsWith_app in E. congruence.
Qed.

Lemma not_separator (t : string) :
  startsWith "#" t = false -> String.eqb t "###" = false.
Proof.
  intros H. destruct (String.eqb_spec t "###") as [->|]; [discriminate | reflexivity].
Qed.

Lemma not_metadata (t : string) :
  startsWith "#" t = false ->
  startsWith "# @name " t = false /\ startsWith "# @description " t = false /\
  startsWith "# @tag " t = false.
Proof.
  intros H. repeat split.
  - now apply (startsWith_longer "#" " @name ").
  - now apply (startsWith_longer "#" " @description ").
  - now apply (startsWith_longer "#" " @tag ").
Qed.

(** A line that passes all the guards in front of the request-line
    pattern and does not match it. *)
Lemma processLine_unmatched (st : ParseState) (l : string) :
  inScript st = false ->
  startsWith "#" (trim l) = false -> startsWith "//" (trim l) = false ->
  startsWith "{{" (trim l) = false -> startsWith "}}" (trim l) = false ->
  matchRequestLine (trim l) = None ->
  processLine st l =
    if negb (inBody st) && isEmpty (trim l) && truthy (url (request st)) then
      mkState (request st) true (bodyLines st) (inScript st)
              (scriptType st) (scriptLines st)
    else if negb (inBody st) && includes ":" (trim l) then
      match cut ":" (trim l) with
      | Some (k, v) =>
          if truthy (trim k) && negb (startsWith "{" (trim k)) then
            updRequest (fun r => set_headers
                          (headers r ++ [mkHeader (trim k) (trim v) true]) r) st
          else st
      | None => st
      end
    else if inBody st then
      mkState (request st) (inBody st) (bodyLines st ++ [l])
              (inScript st) (scriptType st) (scriptLines st)
    else st.
Proof.
  intros Hs Hh Hc Ho Hcl Hm. unfold processLine.
  rewrite (not_separator _ Hh).
  destruct (not_metadata _ Hh) as (-> & -> & ->).
  rewrite Ho, Hcl, Hs, Hh, Hc, Hm. reflexivity.
Qed.

Lemma line_hash (st : ParseState) (l : string) :
  inScript st = false -> startsWith "#" (trim l) = true ->
  core (processLine st l) = core st /\ inScript (processLine st l) = false.
Proof.
  intros Hs Hh.
  destruct (comment_not_script (trim l)) as [Ho Hc]; [now rewrite Hh|].
  unfold processLine. rewrite Ho, Hc, Hs, Hh. cbn [orb].
  case_ifs; auto.
Qed.

Lemma line_open (st : ParseState) (l : string) :
  startsWith "{{" (trim l) = true ->
  core (processLine st l) = core st /\ inScript (processLine st l) = true.
Proof.
  intros Ho.
  assert (Hh : startsWith "#" (trim l) = false).
  { destruct (trim l) as [|c t]; [discriminate|]. cbn [startsWith] in *.
    apply andb_prop in Ho as [Ho _]. apply Ascii.eqb_eq in Ho as <-. reflexivity. }
  unfold processLine.
  rewrite (not_separator _ Hh).
  destruct (not_metadata _ Hh) as (-> & -> & ->).
  rewrite ?Hh, Ho. auto.
Qed.

Lemma line_close (st : ParseState) (l : string) :
  startsWith "}}" (trim l) = true ->
  core (processLine st l) = core st /\ inScript (processLine st l) = false.
Proof.
  intros Hc.
  assert (Hh : startsWith "#" (trim l) = false /\ startsWith "{{" (trim l) = false).
  { destruct (trim l) as [|c t]; [discriminate|]. cbn [startsWith] in *.
    apply andb_prop in Hc as [Hc _]. apply Ascii.eqb_eq in Hc as <-. auto. }
  destruct Hh as [Hh Ho]. unfold processLine.
  rewrite (not_separator _ Hh).
  destruct (not_metadata _ Hh) as (-> & -> & ->).
  rewrite ?Hh, Ho, Hc.
  destruct (scriptType st) as [[]|]; auto.
Qed.

Lemma line_script (st : ParseState) (l : string) :
  inScript st = true -> startsWith "}}" (trim l) = false ->
  core (processLine st l) = core st /\ inScript (processLine st l) = true.
Proof.
  intros Hs Hc. unfold processLine. rewrite Hc, Hs. case_ifs; auto.
Qed.

Lemma line_blank_idle (st : ParseState) (l : string) :
  inScript st = false -> trim l = "" ->
  inBody st = false -> url (request st) = "" ->
  processLine st l = st.
Proof.
  intros Hs Ht Hb Hu. rewrite processLine_unmatched; rewrite ?Ht; auto.
  rewrite Hb, Hu. reflexivity.
Qed.

Lemma line_blank_start (st : ParseState) (l : string) :
  inScript st = false -> trim l = "" ->
  inBody st = false -> url (request st) <> "" ->
  core (processLine st l) = withInBody true (core st) /\
  inScript (processLine st l) = false.
Proof.
  intros Hs Ht Hb Hu. rewrite processLine_unmatched; rewrite ?Ht; auto.
  rewrite Hb. destruct (url (request st)) eqn:E; [congruence|].
  cbn. unfold core, withInBody. cbn. rewrite E. auto.
Qed.

Lemma line_kept (st : ParseState) (l : string) :
  inScript st = false -> inBody st = true -> keptInBody l = true ->
  core (processLine st l) = withBodyLines (bodyLines st ++ [l]) (core st) /\
  inScript (processLine st l) = false.
Proof.
  intros Hs Hb Hk. unfold keptInBody in Hk.
  repeat (apply andb_prop in Hk as [Hk ?]).
  repeat match goal with H : negb _ = true |- _ => apply negb_true_iff in H end.
  destruct (matchRequestLine (trim l)) eqn:Hm; [discriminate|].
  rewrite processLine_unmatched; auto. rewrite Hb. cbn.
  unfold core, withBodyLines. cbn. rewrite Hb. auto.
Qed.

(** *** The request line that [generate] writes *)

Lemma written_params (ps : list QueryParam) :
  Forall writtenParam ps ->
  List.filter (fun p => p_enabled p && truthy (p_key p)) ps = ps /\
  map (fun kv => mkParam (fst kv) (snd kv) true)
      (map (fun p => (p_key p, p_value p)) ps) = ps.
Proof.
  induction 1 as [|[k v e] ps (He & Hk & _) _ [IH1 IH2]]; simpl in *; [auto|].
  subst e. destruct k; [congruence|]. simpl. rewrite IH1, IH2. auto.
Qed.

Lemma buildUrl_written (u : string) (ps : list QueryParam) :
  writtenUrl u -> Forall writtenParam ps ->
  let full := buildUrl u ps in
  full <> "" /\ trim full = full /\ noLineTerminator full = true /\
  fst (splitUrl full) = u /\
  map (fun kv => mkParam (fst kv) (snd kv) true)
      (URLSearchParams (orEmpty (snd (splitUrl full)))) = ps.
Proof.
  intros (Hne & Ht & Hl & Hq) Hps. cbv zeta. unfold buildUrl.
  destruct (written_params ps Hps) as [Hf Hm]. rewrite Hf.
  destruct ps as [|p ps].
  - rewrite (splitUrl_none _ Hq). simpl. auto.
  - set (qs := join "&" (map (fun p => encodeURIComponent (p_key p) +:+ "=" +:+
                                       encodeURIComponent (p_value p)) (p :: ps))).
    pose proof (queryString_chars (p :: ps)) as Hc. fold qs in Hc.
    destruct (trim_fixed u Ht) as [Hstart Hend].
    assert (Hpl : allChars (fun c => plainChar c && negb (isLineTerminator c))
                           ("?" +:+ qs) = true).
    { change ("?" +:+ qs) with (String "?" qs). cbn [allChars].
      change (plainChar "?" && negb (isLineTerminator "?")) with true.
      cbn [andb].
      eapply allChars_impl; [|exact Hc]. intros c.
      bytes c; vm_compute; intro; congruence. }
    assert (Hns : allChars plainChar ("?" +:+ qs) = true).
    { eapply allChars_impl; [|exact Hpl]. intros c H.
      now apply andb_prop in H as [H _]. }
    assert (Hqq : includes "?" qs = false).
    { apply (allChars_absent
               (fun c => encoded c || Ascii.eqb c "=" || Ascii.eqb c "&"));
        [reflexivity | exact Hc]. }
    change ("?" +:+ qs) with (String "?" qs) in *.
    repeat split.
    + destruct u; [congruence | discriminate].
    + unfold trim. rewrite trimStart_before by (auto; reflexivity).
      rewrite trimEnd_app by (reflexivity || (apply blank_plain; reflexivity)).
      now rewrite (trimEnd_nospace _ Hns).
    + rewrite noLineTerminator_app by reflexivity.
      now rewrite Hl, (noLineTerminator_plain _ Hpl).
    + now apply (splitUrl_base u qs).
    + change (String "?" qs) with ("?" +:+ qs).
      rewrite (splitUrl_one _ _ Hq Hqq). cbn [snd orEmpty]. unfold qs.
      rewrite URLSearchParams_queryString; [exact Hm | discriminate | exact Hps].
Qed.

Lemma line_request (st : ParseState) (m : HttpMethod) (u : string)
  (ps : list QueryParam) :
  inScript st = false -> queryParams (request st) = [] ->
  writtenUrl u -> Forall writtenParam ps ->
  let st' := processLine st (methodName m +:+ " " +:+ buildUrl u ps) in
  core st' = withRequestLine m u ps (core st) /\ inScript st' = false.
Proof.
  intros Hs Hq Hu Hps. cbv zeta.
  destruct (buildUrl_written u ps Hu Hps) as (Hne & Ht & Hl & Hb & Hp).
  destruct (requestLineOf_generated st m (buildUrl u ps) Hs Hne Ht Hl) as [_ Hr].
  rewrite (processLine_request_line _ _ _ _ Hr).
  unfold core, withRequestLine. cbn.
  rewrite applyRequestLine_method, applyRequestLine_url,
    applyRequestLine_queryParams, applyRequestLine_headers,
    applyRequestLine_body, Ht, Hb, Hp, Hq.
  split; [reflexivity | exact Hs].
Qed.

(** *** A header line that [generate] writes *)

Lemma startsWith_before_colon (p k tail : string) :
  allChars (fun c => negb (Ascii.eqb c ":")) p = true ->
  p <> "" ->
  startsWith p (k +:+ String ":" tail) = startsWith p k.
Proof.
  revert k. induction p as [|a p IH]; intros k Hp Hne; [congruence|].
  simpl in Hp. apply andb_prop in Hp as [Ha Hp]. apply negb_true_iff in Ha.
  destruct k as [|b k]; simpl.
  - now rewrite Ha.
  - destruct p as [|a' p']; [reflexivity|].
    rewrite IH; [reflexivity | exact Hp | discriminate].
Qed.

Lemma afterSpace_before_plain (r : string) (c : ascii) (t : string) :
  plainChar c = true -> afterSpace r = None ->
  afterSpace (r +:+ String c t) = None.
Proof.
  intros Hc H. destruct r as [|x r]; [now apply plain_afterSpace|].
  apply afterSpace_app_none; [discriminate | exact H|].
  now apply plain_boundary.
Qed.

(** Taking a method name off the front of a line stops at the colon. *)
Lemma strip_before_colon (p k tail : string) :
  allChars isUpper p = true ->
  match stripPrefixCI p (k +:+ String ":" tail) with
  | Some rest => exists rest0, stripPrefixCI p k = Some rest0 /\
                               rest = rest0 +:+ String ":" tail
  | None => True
  end.
Proof.
  revert k. induction p as [|a p IH]; intros k Hp.
  - cbn [stripPrefixCI]. exists k. auto.
  - cbn [allChars] in Hp. apply andb_prop in Hp as [Ha Hp].
    destruct k as [|b k]; cbn [String.append stripPrefixCI].
    + destruct (Ascii.eqb_spec a (upperChar ":")) as [E|_]; [|exact I].
      rewrite E in Ha. discriminate.
    + destruct (Ascii.eqb a (upperChar b)); [|exact I]. now apply IH.
Qed.

Lemma methodThenSpace_header (k tail : string) :
  methodThenSpace k = false -> methodThenSpace (k +:+ String ":" tail) = false.
Proof.
  unfold methodThenSpace.
  assert (Hup : Forall (fun m => allChars isUpper (methodName m) = true) methods).
  { repeat constructor. }
  induction Hup as [|m ms Hm _ IH]; [reflexivity|]. cbn [existsb].
  intros [H1 H2]%orb_false_elim. rewrite (IH H2), orb_false_r.
  pose proof (strip_before_colon (methodName m) k tail Hm) as S.
  destruct (stripPrefixCI (methodName m) (k +:+ String ":" tail)) as [rest|];
    [|reflexivity].
  destruct S as (rest0 & E0 & ->). rewrite E0 in H1.
  destruct (afterSpace rest0) eqn:A; [discriminate|].
  now rewrite (afterSpace_before_plain rest0 ":" tail eq_refl A).
Qed.

Lemma matchRequestLine_header (k tail : string) :
  methodThenSpace k = false ->
  matchRequestLine (k +:+ String ":" tail) = None.
Proof. intros H. now apply matchRequestLine_none, methodThenSpace_header. Qed.

Lemma header_line_trim (k v : string) :
  k <> "" -> trim k = k -> trim v = v ->
  exists tail,
    trim (k +:+ ": " +:+ v) = k +:+ String ":" tail /\ trim tail = v.
Proof.
  intros Hne Hk Hv. destruct (trim_fixed k Hk) as [Hks _].
  destruct (trim_fixed v Hv) as [Hvs Hve].
  exists (trimEnd (String " " v)). split.
  - unfold trim. change (": " +:+ v) with (String ":" (String " " v)).
    rewrite trimStart_before by (auto; reflexivity).
    rewrite trimEnd_app by (reflexivity || (apply blank_plain; reflexivity)).
    now rewrite trimEnd_plain by reflexivity.
  - destruct v as [|c v].
    + reflexivity.
    + rewrite trimEnd_cons_space;
        [|reflexivity | apply blank_fixed; [discriminate | exact Hvs]].
      rewrite Hve. rewrite trim_cons_space by reflexivity. exact Hv.
Qed.

Lemma line_header (st : ParseState) (h : RequestHeader) :
  inScript st = false -> inBody st = false -> writtenHeader h ->
  let st' := processLine st (h_key h +:+ ": " +:+ h_value h) in
  core st' = withHeaders (headers (request st) ++ [h]) (core st) /\
  inScript st' = false.
Proof.
  intros Hs Hb (He & Hne & Hk & Hcolon & _ & Hh & Hc & Ho & Hcl & Hm & Hv & _).
  cbv zeta.
  destruct (header_line_trim _ _ Hne Hk Hv) as (tail & Ht & Hval).
  rewrite processLine_unmatched; rewrite ?Ht; auto.
  - assert (Hemp : isEmpty (h_key h +:+ String ":" tail) = false).
    { destruct (h_key h); [congruence | reflexivity]. }
    assert (Hinc : includes ":" (h_key h +:+ String ":" tail) = true).
    { clear -Hne. induction (h_key h) as [|c k IH]; [congruence|].
      change (String c k +:+ String ":" tail) with (String c (k +:+ String ":" tail)).
      rewrite includes_char_cons. destruct k as [|c' k'].
      - simpl. now rewrite orb_true_r.
      - rewrite IH by discriminate. now rewrite orb_true_r. }
    rewrite Hb, Hemp, Hinc. cbn [negb andb].
    rewrite (cut_at_first ":" _ _ Hcolon), Hval, Hk, Ho.
    destruct (h_key h) eqn:Ek; [congruence|]. cbn.
    unfold core, withHeaders. cbn. split; [|exact Hs].
    f_equal. f_equal. destruct h as [k v e]. simpl in *. now subst.
  - rewrite startsWith_before_colon; [exact Hh | reflexivity | discriminate].
  - rewrite startsWith_before_colon; [exact Hc | reflexivity | discriminate].
  - rewrite startsWith_before_colon; [|reflexivity | discriminate].
    now apply (startsWith_longer "{" "{").
  - rewrite startsWith_before_colon; [exact Hcl | reflexivity | discriminate].
  - now apply matchRequestLine_header.
Qed.

(** ** Runs of lines *)

Lemma core_fields (st : ParseState) (c : Core) :
  core st = c ->
  method (request st) = c_method c /\ url (request st) = c_url c /\
  headers (request st) = c_headers c /\ queryParams (request st) = c_params c /\
  body (request st) = c_body c /\ inBody st = c_inBody c /\
  bodyLines st = c_bodyLines c.
Proof. intros <-. repeat split. Qed.

Lemma keptInBody_blank (l : string) : trim l = "" -> keptInBody l = true.
Proof. intros H. unfold keptInBody. now rewrite H. Qed.

Lemma step_hash (st : ParseState) (c : Core) (l : string) :
  outside st c -> startsWith "#" (trim l) = true -> outside (processLine st l) c.
Proof.
  intros [Hc Hs] Hh. destruct (line_hash st l Hs Hh) as [E1 E2].
  split; congruence.
Qed.

Lemma step_blank_idle (st : ParseState) (c : Core) (l : string) :
  outside st c -> trim l = "" -> c_inBody c = false -> c_url c = "" ->
  outside (processLine st l) c.
Proof.
  intros [Hc Hs] Ht Hb Hu. destruct (core_fields _ _ Hc) as (_ & Eu & _ & _ & _ & Eb & _).
  rewrite line_blank_idle; [split; auto | auto | auto | congruence | congruence].
Qed.

(** A blank line behind the request line: it starts the body, or it is a
    line of the body. *)
Lemma step_blank (st : ParseState) (c : Core) (l : string) :
  outside st c -> trim l = "" -> c_url c <> "" ->
  outside (processLine st l)
    (if c_inBody c then withBodyLines (c_bodyLines c ++ [l]) c
     else withInBody true c).
Proof.
  intros [Hc Hs] Ht Hu.
  destruct (core_fields _ _ Hc) as (_ & Eu & _ & _ & _ & Eb & El).
  destruct (c_inBody c) eqn:B.
  - destruct (line_kept st l Hs Eb (keptInBody_blank l Ht)) as [E1 E2].
    split; [|exact E2]. now rewrite E1, El, Hc.
  - destruct (line_blank_start st l Hs Ht Eb) as [E1 E2]; [congruence|].
    split; [|exact E2]. now rewrite E1, Hc.
Qed.

Lemma step_kept (st : ParseState) (c : Core) (l : string) :
  outside st c -> c_inBody c = true -> keptInBody l = true ->
  outside (processLine st l) (withBodyLines (c_bodyLines c ++ [l]) c).
Proof.
  intros [Hc Hs] Hb Hk.
  destruct (core_fields _ _ Hc) as (_ & _ & _ & _ & _ & Eb & El).
  destruct (line_kept st l Hs) as [E1 E2]; [congruence | exact Hk|].
  split; [|exact E2]. now rewrite E1, El, Hc.
Qed.

Lemma step_request (st : ParseState) (c : Core) (m : HttpMethod) (u : string)
  (ps : list QueryParam) :
  outside st c -> c_params c = [] -> writtenUrl u -> Forall writtenParam ps ->
  outside (processLine st (methodName m +:+ " " +:+ buildUrl u ps))
          (withRequestLine m u ps c).
Proof.
  intros [Hc Hs] Hp Hu Hps.
  destruct (core_fields _ _ Hc) as (_ & _ & _ & Ep & _).
  destruct (line_request st m u ps Hs) as [E1 E2]; auto; [congruence|].
  split; [|exact E2]. now rewrite E1, Hc.
Qed.

Lemma step_header (st : ParseState) (c : Core) (h : RequestHeader) :
  outside st c -> c_inBody c = false -> writtenHeader h ->
  outside (processLine st (h_key h +:+ ": " +:+ h_value h))
          (withHeaders (c_headers c ++ [h]) c).
Proof.
  intros [Hc Hs] Hb Hh.
  destruct (core_fields _ _ Hc) as (_ & _ & Eh & _ & _ & Eb & _).
  destruct (line_header st h Hs) as [E1 E2]; auto; [congruence|].
  split; [|exact E2]. now rewrite E1, Eh, Hc.
Qed.

Lemma run_hashes (ls : list string) (st : ParseState) (c : Core) :
  outside st c -> Forall (fun l => startsWith "#" (trim l) = true) ls ->
  outside (parseLines st ls) c.
Proof.
  intros Hst H. revert st Hst.
  induction H as [|l ls Hl _ IH]; intros st Hst; [exact Hst|].
  apply IH. now apply step_hash.
Qed.

Lemma run_script (ls : list string) (st : ParseState) (c : Core) :
  inside st c -> Forall (fun l => startsWith "}}" (trim l) = false) ls ->
  inside (parseLines st ls) c.
Proof.
  intros Hst H. revert st Hst.
  induction H as [|l ls Hl _ IH]; intros st [Hc Hs]; [now split|].
  apply IH. destruct (line_script st l Hs Hl) as [E1 E2]. split; congruence.
Qed.

(** A script block, from its opening line to its closing line. *)
Lemma run_block (opening closing : string) (ls : list string)
  (st : ParseState) (c : Core) :
  core st = c ->
  startsWith "{{" (trim opening) = true ->
  Forall (fun l => startsWith "}}" (trim l) = false) ls ->
  startsWith "}}" (trim closing) = true ->
  outside (parseLines st ([opening] ++ ls ++ [closing])) c.
Proof.
  intros Hc Ho Hls Hcl. rewrite !parseLines_app.
  destruct (line_open st opening Ho) as [E1 E2].
  assert (Hin : inside (parseLines (parseLines st [opening]) ls) c).
  { apply run_script; [|exact Hls]. split; [simpl; congruence | exact E2]. }
  destruct Hin as [E3 E4].
  destruct (line_close (parseLines (parseLines st [opening]) ls) closing Hcl)
    as [E5 E6].
  split; [|exact E6].
  change (parseLines (parseLines (parseLines st [opening]) ls) [closing])
    with (processLine (parseLines (parseLines st [opening]) ls) closing).
  congruence.
Qed.

Lemma run_kept (ls : list string) (st : ParseState) (c : Core) :
  outside st c -> c_inBody c = true ->
  Forall (fun l => keptInBody l = true) ls ->
  outside (parseLines st ls) (withBodyLines (c_bodyLines c ++ ls) c).
Proof.
  intros Hst Hb H. revert st c Hst Hb.
  induction H as [|l ls Hl _ IH]; intros st c Hst Hb.
  - rewrite app_nil_r. destruct c. exact Hst.
  - simpl. specialize (IH _ _ (step_kept st c l Hst Hb Hl) Hb).
    cbn in IH. now rewrite <- app_assoc in IH.
Qed.

Lemma run_headers (hs : list RequestHeader) (st : ParseState) (c : Core) :
  outside st c -> c_inBody c = false -> Forall writtenHeader hs ->
  outside (parseLines st (map (fun h => h_key h +:+ ": " +:+ h_value h) hs))
          (withHeaders (c_headers c ++ hs) c).
Proof.
  intros Hst Hb H. revert st c Hst Hb.
  induction H as [|h hs Hh _ IH]; intros st c Hst Hb.
  - rewrite app_nil_r. destruct c. exact Hst.
  - simpl. specialize (IH _ _ (step_header st c h Hst Hb Hh) Hb).
    cbn in IH. now rewrite <- app_assoc in IH.
Qed.

(** ** The lines that [generate] writes *)

Lemma includes_char_app (c : ascii) (a b : string) :
  includes (String c "") (a +:+ b)
  = includes (String c "") a || includes (String c "") b.
Proof.
  induction a as [|x a IH]; [reflexivity|].
  change (String x a +:+ b) with (String x (a +:+ b)).
  now rewrite !includes_char_cons, IH, orb_assoc.
Qed.

Lemma lines_unsplit (ls : list string) :
  Forall (fun l => includes nl l = false) ls -> flat_map (split LF) ls = ls.
Proof.
  induction 1 as [|l ls Hl _ IH]; simpl; [reflexivity|].
  now rewrite (split_absent LF l Hl), IH.
Qed.

Lemma trim_hash (x : string) : startsWith "#" (trim (String "#" x)) = true.
Proof. now rewrite trim_plain by reflexivity. Qed.

Lemma trim_indent (l : string) : trim (indent l) = trim l.
Proof.
  unfold indent. change ("  " +:+ l) with (String " " (String " " l)).
  now rewrite !trim_cons_space by reflexivity.
Qed.

Lemma join_snoc (sep : string) (ls : list string) (x : string) :
  ls <> [] -> join sep (ls ++ [x]) = join sep ls +:+ sep +:+ x.
Proof.
  induction ls as [|a ls IH]; [congruence|]. intros _.
  destruct ls as [|b ls]; [reflexivity|].
  change (join sep ((a :: b :: ls) ++ [x]))
    with (a +:+ sep +:+ join sep ((b :: ls) ++ [x])).
  rewrite IH by discriminate.
  change (join sep (a :: b :: ls)) with (a +:+ sep +:+ join sep (b :: ls)).
  now rewrite !append_assoc.
Qed.

Lemma trim_join_blank (ls : list string) :
  trim (join nl (ls ++ [""])) = trim (join nl ls).
Proof.
  destruct ls as [|a ls]; [reflexivity|].
  rewrite join_snoc by discriminate. now apply trim_app_blank.
Qed.

Lemma join_split (s : string) : join nl (split LF s) = s.
Proof.
  induction s as [|a s IH]; [reflexivity|]. simpl.
  destruct (split LF s) as [|x xs] eqn:E; [now apply split_not_nil in E|].
  destruct (Ascii.eqb_spec a LF) as [->|_].
  - change (join nl ("" :: x :: xs)) with ("" +:+ nl +:+ join nl (x :: xs)).
    now rewrite IH.
  - destruct xs as [|y ys]; simpl in *; now rewrite IH.
Qed.

Section Generated.

Variable stringify : string -> option string -> string.
Variable m : UIRequest.

Lemma metadataLines_run (st : ParseState) (c : Core) :
  outside st c -> c_inBody c = false -> c_url c = "" -> writtenMetadata m ->
  flat_map (split LF) (metadataLines m) = metadataLines m /\
  outside (parseLines st (metadataLines m)) c.
Proof.
  intros Hst Hb Hu (Hn & Hd & Ht). unfold metadataLines.
  set (lines := (if truthy (name m) then ["# @name " +:+ name m] else []) ++
                (if truthyOpt (description m)
                 then ["# @description " +:+ orEmpty (description m)] else []) ++
                match tags m with
                | Some ((_ :: _) as ts) => ["# @tag " +:+ join ", " ts]
                | _ => []
                end).
  assert (Hfree : Forall (fun l => includes nl l = false) lines).
  { subst lines. repeat apply Forall_app_2.
    - destruct (truthy (name m)); repeat constructor.
      unfold nl in *. now rewrite includes_char_app, Hn.
    - destruct (truthyOpt (description m)); repeat constructor.
      unfold nl in *. now rewrite includes_char_app, Hd.
    - destruct (tags m) as [[|t ts]|]; repeat constructor.
      unfold nl in *. now rewrite includes_char_app, Ht. }
  assert (Hhash : Forall (fun l => startsWith "#" (trim l) = true) lines).
  { subst lines. repeat apply Forall_app_2.
    - destruct (truthy (name m)); repeat constructor.
    - destruct (truthyOpt (description m)); repeat constructor.
    - destruct (tags m) as [[|t ts]|]; repeat constructor. }
  destruct lines as [|l ls] eqn:E; [now split|].
  rewrite <- E in *. split.
  - apply lines_unsplit, Forall_app_2; [exact Hfree | repeat constructor].
  - rewrite parseLines_app. apply step_blank_idle; auto.
    now apply run_hashes.
Qed.

Lemma preRequestLines_run (st : ParseState) (c : Core) :
  outside st c -> c_inBody c = false -> c_url c = "" ->
  writtenScript (preRequest m) ->
  flat_map (split LF) (preRequestLines m) = preRequestLines m /\
  outside (parseLines st (preRequestLines m)) c.
Proof.
  intros Hst Hb Hu Hw. unfold preRequestLines, writtenScript in *.
  destruct (preRequest m) as [pre|]; [|now split]. simpl in Hw.
  destruct (truthy (trim pre)); [|now split]. split.
  - apply lines_unsplit. repeat constructor.
    apply Forall_app_2; [|repeat constructor].
    apply Forall_map. unfold indent.
    eapply Forall_impl; [apply (split_lines_free LF pre)|].
    intros l Hl. unfold nl in *. now rewrite includes_char_app, Hl.
  - assert (E : ["{{"; "  // @pre"] ++ map indent (split LF pre) ++ ["}}"; ""]
                = (["{{"] ++ ("  // @pre" :: map indent (split LF pre)) ++ ["}}"])
                  ++ [""]).
    { cbn [app]. now rewrite <- app_assoc. }
    rewrite E, parseLines_app. apply step_blank_idle; auto.
    destruct Hst as [Hc _]. apply run_block; auto.
    constructor; [reflexivity|]. apply Forall_map.
    eapply Forall_impl; [exact Hw|]. intros l Hl. now rewrite trim_indent.
Qed.

Lemma testLines_run (st : ParseState) (c : Core) :
  outside st c -> c_url c <> "" -> writtenScript (tests m) ->
  flat_map (split LF) (testLines m) = testLines m /\
  outside (parseLines st (testLines m))
          (match testLines m with [] => c | _ :: _ => afterBlank c end).
Proof.
  intros Hst Hu Hw. unfold testLines, writtenScript in *.
  destruct (tests m) as [t|]; [|now split]. simpl in Hw.
  destruct (truthy (trim t)); [|now split]. split.
  - apply lines_unsplit. repeat constructor.
    apply Forall_app_2; [|repeat constructor].
    apply Forall_map. unfold indent.
    eapply Forall_impl; [apply (split_lines_free LF t)|].
    intros l Hl. unfold nl in *. now rewrite includes_char_app, Hl.
  - change ([""; "{{"] ++ map indent (split LF t) ++ ["}}"])
      with ([""] ++ ["{{"] ++ map indent (split LF t) ++ ["}}"]).
    rewrite parseLines_app.
    pose proof (step_blank st c "" Hst eq_refl Hu) as [Hc _].
    apply run_block; auto.
    apply Forall_map.
    eapply Forall_impl; [exact Hw|]. intros l Hl. now rewrite trim_indent.
Qed.

Lemma bodyLinesOf_run (st : ParseState) (c : Core) :
  outside st c -> c_url c <> "" -> c_inBody c = false -> c_bodyLines c = [] ->
  Forall (fun l => keptInBody l = true)
         (split LF (orEmpty (generateBody stringify m))) ->
  outside (parseLines st (flat_map (split LF) (bodyLinesOf stringify m)))
          (match bodyLinesOf stringify m with
           | [] => c
           | _ :: _ => withBodyLines (split LF (orEmpty (generateBody stringify m)))
                                     (withInBody true c)
           end).
Proof.
  intros Hst Hu Hb Hl Hk. unfold bodyLinesOf in *.
  destruct (generateBody stringify m) as [bc|]; [|exact Hst]. simpl in Hk.
  destruct (truthy bc); [|exact Hst].
  change (flat_map (split LF) [""; bc]) with ([""] ++ (split LF bc ++ [])).
  rewrite app_nil_r, parseLines_app.
  pose proof (step_blank st c "" Hst eq_refl Hu) as H1. rewrite Hb in H1.
  pose proof (run_kept (split LF bc) _ _ H1 eq_refl Hk) as H2.
  cbn in H2. rewrite Hl in H2. exact H2.
Qed.

End Generated.

(** ** The round trip (C1) *)

Lemma processBody_core (st : ParseState) (c : Core) :
  core st = c -> c_body c = noBody ->
  let r := processBody st in
  method r = c_method c /\ url r = c_url c /\ headers r = c_headers c /\
  queryParams r = c_params c /\
  bodyText (body r) = trim (join nl (c_bodyLines c)).
Proof.
  intros Hc Hb. cbv zeta.
  destruct (core_fields _ _ Hc) as (Em & Eu & Eh & Ep & Eb & _ & El).
  unfold processBody. rewrite El.
  destruct (c_bodyLines c) as [|x xs].
  - rewrite Eb, Hb. auto 6.
  - destruct (truthy (trim (join nl (x :: xs)))) eqn:T.
    + cbn [method url headers queryParams body set_body].
      rewrite bodyText_detectBodyType. auto 6.
    + apply truthy_false in T. rewrite Eb, Hb, T. auto 6.
Qed.

Lemma written_headers (hs : list RequestHeader) :
  Forall writtenHeader hs ->
  List.filter (fun h => h_enabled h && truthy (h_key h)) hs = hs /\
  Forall (fun l => includes nl l = false)
         (map (fun h => h_key h +:+ ": " +:+ h_value h) hs).
Proof.
  induction 1 as [|h hs (He & Hne & _ & _ & Hk & _ & _ & _ & _ & _ & _ & Hv) _
                    [IH1 IH2]];
    cbn [List.filter map]; [auto|].
  rewrite He, IH1.
  assert (T : truthy (h_key h) = true) by (destruct (h_key h); [congruence | reflexivity]).
  rewrite T. split; [reflexivity|]. constructor; [|exact IH2].
  unfold nl in *. rewrite !includes_char_app, Hv, Hk. reflexivity.
Qed.

Lemma request_line_free (mth : HttpMethod) (u : string) :
  noLineTerminator u = true ->
  includes nl (methodName mth +:+ " " +:+ u) = false.
Proof.
  intros H. apply noLineTerminator_LF in H. unfold nl in *.
  rewrite !includes_char_app, H. destruct mth; reflexivity.
Qed.

Lemma bodyLinesOf_nil (stringify : string -> option string -> string)
  (m : UIRequest) :
  bodyLinesOf stringify m = [] -> orEmpty (generateBody stringify m) = "".
Proof.
  unfold bodyLinesOf. destruct (generateBody stringify m) as [bc|]; [|reflexivity].
  destruct bc; [reflexivity | discriminate].
Qed.

(** C1, as stated, fails, with all headers and query parameters enabled and
    a URL that is not empty.  A raw body whose one line starts with a
    method name is parsed back as a request line: method GET, the rest of
    the line as the URL, no body.  Of a URL with a question mark the part
    behind it comes back as a query parameter; white space at the end of a
    URL (here U+00A0) is lost; a URL with a carriage return is no request
    line any more.  A header without a name is not written; a colon in a
    header name moves the rest of the name to the value; a header name
    that starts like a comment or a script delimiter is dropped; one that
    starts with a method name and a blank replaces the request line; white
    space at the ends of a name or a value is lost, and so is what stands
    before a line feed in a name or behind one in a value.  A query
    parameter without a key is not written.
    A second line in the name, and a line behind a closing delimiter
    inside a script, are read as header lines.  A body line that is a
    comment, a separator or a script delimiter is not read back. *)
Lemma round_trip_counterexample :
  let back m := parseHttpText (generate (fun q _ => q) m) None "0" in
  let none := mkBody BodyNone None None None in
  let raw c := mkBody BodyRaw (Some c) None None in
  let req u hs ps b := mkRequest "1" "R" None None POST u hs ps b None None None in
  let header k v := back (req "http://x" [mkHeader k v true] [] none) in
  (let r := back (req "http://x" [] [] (raw "get well soon")) in
   method r = GET /\ url r = "well soon" /\ body r = none) /\
  (let r := back (req "http://x?a=1" [] [] none) in
   url r = "http://x" /\ queryParams r = [mkParam "a" "1" true]) /\
  url (back (req ("http://x" +:+ String "194" (String "160" "")) [] [] none))
  = "http://x" /\
  url (back (req ("http://x" +:+ String "013" "y") [] [] none)) = "" /\
  headers (header "" "v") = [] /\
  headers (header "a:b" "c") = [mkHeader "a" "b: c" true] /\
  headers (header "#a" "v") = [] /\
  headers (header "//a" "v") = [] /\
  headers (header "{a" "v") = [] /\
  headers (header "}}a" "v") = [] /\
  (let r := header "GET y" "v" in
   method r = GET /\ url r = "y: v" /\ headers r = []) /\
  headers (header " a" "v") = [mkHeader "a" "v" true] /\
  headers (header "a" " v") = [mkHeader "a" "v" true] /\
  headers (header ("a" +:+ nl +:+ "b") "v") = [mkHeader "b" "v" true] /\
  headers (header "a" ("v" +:+ nl +:+ "w")) = [mkHeader "a" "v" true] /\
  queryParams (back (req "http://x" [] [mkParam "" "v" true] none)) = [] /\
  headers (back (mkRequest "1" ("R" +:+ nl +:+ "a: b") None None POST "http://x"
                   [] [] none None None None))
  = [mkHeader "a" "b" true] /\
  headers (back (mkRequest "1" "R" None None POST "http://x" [] [] none
                   (Some ("}}" +:+ nl +:+ "a: b")) None None))
  = [mkHeader "a" "b" true] /\
  body (back (req "http://x" [] [] (raw "# note"))) = none /\
  body (back (req "http://x" [] [] (raw "###"))) = none /\
  body (back (req "http://x" [] [] (raw ("{{" +:+ nl +:+ "x")))) = none.
Proof. repeat split; reflexivity. Qed.

(** C1, amended.  For every request whose URL is not empty, has no white
    space at its ends, no line terminator and no question mark; whose
    headers are all enabled, with a name that is not empty, has no white
    space at its ends, no colon and no line feed, and does not start like
    a comment or a script delimiter nor with a method name and white
    space, and with a value that has no white space at its ends and no
    line feed; whose query parameters are all enabled, have a key and hold
    well-formed text; whose name, description and tags hold no line feed;
    whose scripts have no line starting with the closing delimiter; and
    whose generated body has no line that is a separator, a comment, a
    script delimiter or a request line: parsing the generated text gives
    the same method, the same URL, the same headers and the same query
    parameters, in order, and a body whose text is the generated body
    text, trimmed; for json, raw and form bodies that is the trimmed
    content. *)
Theorem round_trip {platform : Platform}
  (stringify : string -> option string -> string)
  (m : UIRequest) (fileUri : option Uri) (now : string) :
  writtenRequest stringify m ->
  let r := parseHttpText (generate stringify m) fileUri now in
  method r = method m /\ url r = url m /\ headers r = headers m /\
  queryParams r = queryParams m /\
  bodyText (body r) = trim (orEmpty (generateBody stringify m)) /\
  (In (body_type (body m)) [BodyJson; BodyRaw; BodyForm] ->
   bodyText (body r) = trim (bodyText (body m))).
Proof.
  intros (Hu & Hh & Hp & Hmeta & Hpre & Htest & Hbody). cbv zeta.
  set (r := parseHttpText (generate stringify m) fileUri now).
  assert (Main : method r = method m /\ url r = url m /\
                 headers r = headers m /\ queryParams r = queryParams m /\
                 bodyText (body r) = trim (orEmpty (generateBody stringify m))).
  2:{ destruct Main as (E1 & E2 & E3 & E4 & E5). repeat split; auto.
      intros Hin. rewrite E5. f_equal. unfold generateBody, bodyText.
      destruct (body_type (body m)); simpl in Hin; intuition congruence. }
  subst r. unfold parseHttpText, generate, nl.
  rewrite split_join.
  2:{ unfold generateLines. intros E.
      apply List.app_eq_nil in E as [_ E]. apply List.app_eq_nil in E as [_ E].
      discriminate. }
  unfold generateLines. rewrite !flat_map_app.
  destruct (written_headers _ Hh) as [Hf Hfree].
  destruct Hu as (Hne & Htrim & Hlt & Hq).
  destruct (buildUrl_written _ _ (conj Hne (conj Htrim (conj Hlt Hq))) Hp)
    as (_ & _ & Hlt' & _).
  (* metadata and pre-request script *)
  set (st0 := initialState fileUri now).
  assert (H0 : outside st0 (mkCore GET "" [] [] noBody false [])) by now split.
  destruct (metadataLines_run m st0 _ H0 eq_refl eq_refl Hmeta) as [-> H1].
  destruct (preRequestLines_run m _ _ H1 eq_refl eq_refl Hpre) as [-> H2].
  rewrite !parseLines_app.
  set (st2 := parseLines (parseLines st0 (metadataLines m)) (preRequestLines m)) in *.
  (* request line *)
  rewrite (lines_unsplit [_]) by (repeat constructor; now apply request_line_free).
  pose proof (step_request st2 _ (method m) (url m) (queryParams m) H2 eq_refl
                (conj Hne (conj Htrim (conj Hlt Hq))) Hp) as H3.
  change (parseLines st2 [methodName (method m) +:+ " " +:+
                          buildUrl (url m) (queryParams m)])
    with (processLine st2 (methodName (method m) +:+ " " +:+
                           buildUrl (url m) (queryParams m))).
  set (st3 := processLine st2 _) in *.
  (* headers *)
  unfold headerLines. rewrite Hf, (lines_unsplit _ Hfree).
  pose proof (run_headers (headers m) st3 _ H3 eq_refl Hh) as H4.
  set (st4 := parseLines st3 _) in *. cbn in H4.
  (* body *)
  pose proof (bodyLinesOf_run stringify m st4 _ H4 Hne eq_refl eq_refl Hbody) as H5.
  set (st5 := parseLines st4 _) in *.
  pose proof (bodyLinesOf_nil stringify m) as Hnil.
  (* tests and the last two lines *)
  destruct (bodyLinesOf stringify m) as [|b0 bs];
    [rewrite (Hnil eq_refl) in * | clear Hnil].
  - destruct (testLines_run m st5 _ H5 Hne Htest) as [-> H6].
    set (st6 := parseLines st5 _) in *.
    destruct (testLines m) as [|t0 ts].
    + pose proof (step_blank st6 _ "" H6 eq_refl Hne) as H7.
      pose proof (step_hash _ _ "###" H7 eq_refl) as [H8 _].
      apply (processBody_core _ _ H8 eq_refl).
    + pose proof (step_blank st6 _ "" H6 eq_refl Hne) as H7.
      pose proof (step_hash _ _ "###" H7 eq_refl) as [H8 _].
      apply (processBody_core _ _ H8 eq_refl).
  - destruct (testLines_run m st5 _ H5 Hne Htest) as [-> H6].
    set (st6 := parseLines st5 _) in *.
    destruct (testLines m) as [|t0 ts].
    + pose proof (step_blank st6 _ "" H6 eq_refl Hne) as H7.
      pose proof (step_hash _ _ "###" H7 eq_refl) as [H8 _].
      change (parseLines st6 (flat_map (split LF) [""; "###"]))
        with (processLine (processLine st6 "") "###").
      destruct (processBody_core _ _ H8 eq_refl) as (-> & -> & -> & -> & ->).
      unfold withBodyLines, withInBody, withHeaders, withRequestLine.
      cbn [c_method c_url c_headers c_params c_body c_inBody c_bodyLines app].
      rewrite trim_join_blank, join_split. auto.
    + pose proof (step_blank st6 _ "" H6 eq_refl Hne) as H7.
      pose proof (step_hash _ _ "###" H7 eq_refl) as [H8 _].
      change (parseLines st6 (flat_map (split LF) [""; "###"]))
        with (processLine (processLine st6 "") "###").
      destruct (processBody_core _ _ H8 eq_refl) as (-> & -> & -> & -> & ->).
      unfold afterBlank, withBodyLines, withInBody, withHeaders,
        withRequestLine.
      cbn [c_method c_url c_headers c_params c_body c_inBody c_bodyLines app].
      rewrite !trim_join_blank, join_split. auto.
Qed.

Lemma round_trip_witness :
  let quote := String "034" "" in
  let json := "{" +:+ quote +:+ "user" +:+ quote +:+ ":" +:+ quote +:+ "a"
              +:+ quote +:+ "}" in
  let m := mkRequest "1" "Login" None None POST "https://api.example.com/login"
             [mkHeader "Content-Type" "application/json" true;
              mkHeader "X Y" "a b" true]
             [mkParam "next" "/home page" true]
             (mkBody BodyJson (Some json) None None) None (Some "check();") None in
  let r := parseHttpText (generate (fun q _ => q) m) None "0" in
  method r = POST /\ url r = "https://api.example.com/login" /\
  headers r = [mkHeader "Content-Type" "application/json" true;
               mkHeader "X Y" "a b" true] /\
  queryParams r = [mkParam "next" "/home page" true] /\
  bodyText (body r) = json.
Proof.
  intros quote json m r.
  assert (W : writtenRequest (fun q _ => q) m).
  { unfold writtenRequest, writtenUrl, writtenMetadata, writtenScript.
    repeat split; try reflexivity; try discriminate;
      repeat constructor; try reflexivity; discriminate. }
  destruct (round_trip (fun q _ => q) m None "0" W) as (E1 & E2 & E3 & E4 & E5 & _).
  repeat split; assumption.
Defined.
